(** * nwb_datajoint: the spike-sorting pipeline coordinator

    A shallow embedding of the orchestration code of
    [common/common_spikesorting.py] and
    [spikesorting/spikesorting_curation.py]: the DataJoint tables are
    lists of rows, Python exceptions are values of [exn], in-place
    updates are explicit state passing.  The numerical engines
    (spikeinterface, scipy) stay parameters of the sections that call
    them. *)

From Stdlib Require Import ZArith QArith Qround Qabs Lia Bool Sorted Permutation OrderedTypeEx
  Ascii.
From stdpp Require Import base option list strings pretty gmap.

Local Open Scope string_scope.
Local Open Scope Z_scope.

(** ** Python exceptions and fallible computations *)

Inductive exn : Type :=
  | ValueError
  | IndexError
  | KeyError
  | TypeError
  | UnboundLocalError
  | AssertionError
  | DataJointError
  | StopIteration
  | Exception (msg : string).

Inductive result (A : Type) : Type :=
  | Ok (a : A)
  | Raise (e : exn).

Arguments Ok {A} a.
Arguments Raise {A} e.

#[export] Instance result_ret : MRet result := @Ok.

#[export] Instance result_bind : MBind result := fun A B k m =>
  match m with
  | Ok a => k a
  | Raise e => Raise e
  end.

Fixpoint collect {A B : Type} (f : A -> result B) (l : list A) : result (list B) :=
  match l with
  | [] => Ok []
  | a :: l' => b ← f a; bs ← collect f l'; Ok (b :: bs)
  end.

(** A [for] loop whose body may raise. *)
Fixpoint for_each {A S : Type} (body : S -> A -> result S) (l : list A) (s : S) : result S :=
  match l with
  | [] => Ok s
  | a :: l' => s' ← body s a; for_each body l' s'
  end.

(** DataJoint's [fetch1]: exactly one row, or an error. *)
Definition fetch1 {A : Type} (rows : list A) : result A :=
  match rows with
  | [x] => Ok x
  | _ => Raise DataJointError
  end.

(** ** Access control gate: [SpikeSorting.delete], [CuratedSpikeSorting.delete] *)

Module Access.

(** Primary key of [SpikeSortingParameters], inherited by every
    downstream table. *)
Record run_key : Type := RunKey {
  nwb_file_name : string;
  sort_group_id : Z;
  sorter_name : string;
  parameter_set_name : string;
  sort_interval_name : string
}.

#[export] Instance run_key_eq_dec : EqDecision run_key.
Proof. solve_decision. Defined.

Record SpikeSortingParameters_row : Type := {
  ssp_key : run_key;
  team_name : string
}.

Record LabTeamMember_row : Type := {
  ltm_team_name : string;
  ltm_lab_member_name : string
}.

Record LabMemberInfo_row : Type := {
  lab_member_name : string;
  google_user_name : string;
  datajoint_user_name : string
}.

Record SpikeSorting_row : Type := {
  ss_key : run_key;
  ss_analysis_file_name : string;
  ss_units_object_id : string;
  time_of_sort : Z;
  curation_feed_uri : string
}.

Record CuratedSpikeSorting_row : Type := {
  css_key : run_key;
  automatic_curation_param_name : string;
  css_analysis_file_name : string;
  css_units_object_id : string
}.

Record db : Type := {
  SpikeSortingParameters : list SpikeSortingParameters_row;
  LabTeamMember : list LabTeamMember_row;
  LabMemberInfo : list LabMemberInfo_row;
  SpikeSorting : list SpikeSorting_row;
  CuratedSpikeSorting : list CuratedSpikeSorting_row
}.

(** [(SpikeSortingParameters & (SpikeSortingParameters & entry).proj()).fetch1()['team_name']] *)
Definition fetch_team_name (d : db) (k : run_key) : result string :=
  row ← fetch1 (List.filter (fun r => bool_decide (ssp_key r = k))
                             (SpikeSortingParameters d));
  Ok (team_name row).

(** [(LabTeam.LabTeamMember & {'team_name': team_name}).fetch('lab_member_name')] *)
Definition fetch_lab_member_names (d : db) (team : string) : list string :=
  map ltm_lab_member_name
      (List.filter (fun r => bool_decide (ltm_team_name r = team)) (LabTeamMember d)).

(** [(LabMember.LabMemberInfo & {'lab_member_name': m}).fetch1('datajoint_user_name')] *)
Definition fetch_datajoint_user_name (d : db) (m : string) : result string :=
  row ← fetch1 (List.filter (fun r => bool_decide (lab_member_name r = m))
                             (LabMemberInfo d));
  Ok (datajoint_user_name row).

(** The body of the [for entry_idx] loop up to the list
    [datajoint_user_names]. *)
Definition resolve_datajoint_user_names (d : db) (k : run_key) : result (list string) :=
  team ← fetch_team_name d k;
  collect (fetch_datajoint_user_name d) (fetch_lab_member_names d team).

Definition sum_Z (l : list Z) : Z := fold_right Z.add 0 l.

Section Gate.
Context {E : Type} (key_of : E -> run_key).

(** One pass of the loop body:
    [permission_bool[entry_idx] = current_user_name in datajoint_user_names]. *)
Fixpoint permission_loop (d : db) (current_user_name : string) (entries : list E)
         (idxs : list nat) (permission_bool : list Z) : result (list Z) :=
  match idxs with
  | [] => Ok permission_bool
  | entry_idx :: rest =>
      match entries !! entry_idx with
      | None => Raise IndexError
      | Some entry =>
          datajoint_user_names ← resolve_datajoint_user_names d (key_of entry);
          permission_loop d current_user_name entries rest
            (<[entry_idx := Z.b2z (bool_decide (current_user_name ∈ datajoint_user_names))]>
               permission_bool)
      end
  end.

(** The value the loop stores at [permission_bool[entry_idx]]. *)
Definition entry_permission (d : db) (user : string) (e : E) : result bool :=
  names ← resolve_datajoint_user_names d (key_of e);
  Ok (bool_decide (user ∈ names)).

(** The permission check shared by both [delete] methods:
    [Ok true] when [np.sum(permission_bool) == len(entries)],
    [Ok false] when the final [raise Exception] is reached. *)
Definition check_permission (d : db) (current_user_name : string) (entries : list E)
  : result bool :=
  let permission_bool := replicate (length entries) 0 in
  pb ← permission_loop d current_user_name entries
          (seq 0 (length entries)) permission_bool;
  Ok (sum_Z pb =? Z.of_nat (length entries)).
End Gate.

Definition no_permission : exn :=
  Exception "You do not have permission to delete all specified entries. Not deleting anything.".

(** DataJoint's cascade: a curated sorting refers to its sorting
    through the inherited key, and goes when that sorting is deleted. *)
Definition depends_on (entries : list SpikeSorting_row) (c : CuratedSpikeSorting_row) : bool :=
  bool_decide (css_key c ∈ map ss_key entries).

(** [SpikeSorting.delete]; [self] is the table restricted by [sel],
    [super().delete()] drops the restricted rows and the rows of
    [CuratedSpikeSorting] that depend on them. *)
Definition SpikeSorting_delete (current_user_name : string)
           (sel : SpikeSorting_row -> bool) (d : db) : result unit * db :=
  let entries := List.filter sel (SpikeSorting d) in
  match check_permission ss_key d current_user_name entries with
  | Raise e => (Raise e, d)
  | Ok false => (Raise no_permission, d)
  | Ok true =>
      (Ok tt,
       {| SpikeSortingParameters := SpikeSortingParameters d;
          LabTeamMember := LabTeamMember d;
          LabMemberInfo := LabMemberInfo d;
          SpikeSorting := List.filter (fun r => negb (sel r)) (SpikeSorting d);
          CuratedSpikeSorting :=
            List.filter (fun c => negb (depends_on entries c)) (CuratedSpikeSorting d) |})
  end.

(** [CuratedSpikeSorting.delete], the same text on the curated table;
    no table of this model depends on it. *)
Definition CuratedSpikeSorting_delete (current_user_name : string)
           (sel : CuratedSpikeSorting_row -> bool) (d : db) : result unit * db :=
  let entries := List.filter sel (CuratedSpikeSorting d) in
  match check_permission css_key d current_user_name entries with
  | Raise e => (Raise e, d)
  | Ok false => (Raise no_permission, d)
  | Ok true =>
      (Ok tt,
       {| SpikeSortingParameters := SpikeSortingParameters d;
          LabTeamMember := LabTeamMember d;
          LabMemberInfo := LabMemberInfo d;
          SpikeSorting := SpikeSorting d;
          CuratedSpikeSorting := List.filter (fun r => negb (sel r)) (CuratedSpikeSorting d) |})
  end.

(** What the loop computes for the row with key [k]: the requester is
    among the names it resolved. *)
Definition listed_by_gate (d : db) (user : string) (k : run_key) : Prop :=
  exists names, resolve_datajoint_user_names d k = Ok names /\ user ∈ names.

(** *** Membership as the tables record it *)

(** [team] owns the run with key [k]: the parameter row of [k] names
    it. *)
Definition owning_team (d : db) (k : run_key) (team : string) : Prop :=
  exists p, p ∈ SpikeSortingParameters d /\ ssp_key p = k /\ team_name p = team.

(** [user] is the datajoint user name of a lab member of [team]. *)
Definition team_member (d : db) (team user : string) : Prop :=
  exists m i,
    m ∈ LabTeamMember d /\ ltm_team_name m = team
    /\ i ∈ LabMemberInfo d /\ lab_member_name i = ltm_lab_member_name m
    /\ datajoint_user_name i = user.

(** The requester is a member of the team that owns the row with key
    [k]. *)
Definition requester_in_team (d : db) (user : string) (k : run_key) : Prop :=
  exists team, owning_team d k team /\ team_member d team user.

(** Integrity of the tables around key [k]: one parameter row carries
    the key, and every member of its team has one information row. *)
Definition resolvable (d : db) (k : run_key) : Prop :=
  (exists p, List.filter (fun r => bool_decide (ssp_key r = k)) (SpikeSortingParameters d)
             = [p])
  /\ forall m, m ∈ LabTeamMember d -> owning_team d k (ltm_team_name m) ->
       exists i, List.filter (fun r => bool_decide (lab_member_name r = ltm_lab_member_name m))
                             (LabMemberInfo d) = [i].

(** *** A sample database: three sortings, two teams *)

Definition sample_key (group : Z) : run_key :=
  RunKey "s.nwb" group "mountainsort4" "default" "sleep".

Definition sample_sorting (group : Z) : SpikeSorting_row :=
  {| ss_key := sample_key group; ss_analysis_file_name := "a.nwb";
     ss_units_object_id := ""; time_of_sort := 0; curation_feed_uri := "" |}.

(** Sort groups 0 and 1 belong to team alpha (alice, bob), sort group 2
    to team beta (bob alone). *)
Definition sample_db : db :=
  {| SpikeSortingParameters :=
       [ {| ssp_key := sample_key 0; team_name := "alpha" |};
         {| ssp_key := sample_key 1; team_name := "alpha" |};
         {| ssp_key := sample_key 2; team_name := "beta" |} ];
     LabTeamMember :=
       [ {| ltm_team_name := "alpha"; ltm_lab_member_name := "Alice A" |};
         {| ltm_team_name := "alpha"; ltm_lab_member_name := "Bob B" |};
         {| ltm_team_name := "beta"; ltm_lab_member_name := "Bob B" |} ];
     LabMemberInfo :=
       [ {| lab_member_name := "Alice A"; google_user_name := "alice@lab";
            datajoint_user_name := "alice" |};
         {| lab_member_name := "Bob B"; google_user_name := "bob@lab";
            datajoint_user_name := "bob" |} ];
     SpikeSorting := [sample_sorting 0; sample_sorting 1; sample_sorting 2];
     CuratedSpikeSorting := [] |}.

Definition sample_curated (group : Z) : CuratedSpikeSorting_row :=
  {| css_key := sample_key group; automatic_curation_param_name := "default";
     css_analysis_file_name := "c.nwb"; css_units_object_id := "" |}.

(** The same database with curated sortings of sort groups 0 and 2. *)
Definition curated_db : db :=
  {| SpikeSortingParameters := SpikeSortingParameters sample_db;
     LabTeamMember := LabTeamMember sample_db;
     LabMemberInfo := LabMemberInfo sample_db;
     SpikeSorting := SpikeSorting sample_db;
     CuratedSpikeSorting := [sample_curated 0; sample_curated 2] |}.

End Access.

(** ** Identity and grouping service: [SortGroup] *)

Module Grouping.

Record Electrode_row : Type := {
  nwb_file_name : string;
  electrode_group_name : string;
  electrode_id : Z;
  probe_shank : Z;
  original_reference_electrode : Z;
  bad_channel : string
}.

Record SortGroup_row : Type := {
  sg_nwb_file_name : string;
  sg_sort_group_id : Z;
  sort_reference_electrode_id : Z
}.

Record SortGroupElectrode_row : Type := {
  sge_nwb_file_name : string;
  sge_sort_group_id : Z;
  sge_electrode_group_name : string;
  sge_electrode_id : Z
}.

#[export] Instance SortGroup_row_eq_dec : EqDecision SortGroup_row.
Proof. solve_decision. Defined.

#[export] Instance SortGroupElectrode_row_eq_dec : EqDecision SortGroupElectrode_row.
Proof. solve_decision. Defined.

Record db : Type := {
  Electrode : list Electrode_row;
  SortGroup : list SortGroup_row;
  SortGroupElectrode : list SortGroupElectrode_row
}.

(** [np.unique]: the distinct values in ascending order. *)
Fixpoint insert_unique {A : Type} (ltb : A -> A -> bool) (x : A) (l : list A) : list A :=
  match l with
  | [] => [x]
  | y :: l' =>
      if ltb x y then x :: l
      else if ltb y x then y :: insert_unique ltb x l'
      else l
  end.

Definition np_unique {A : Type} (ltb : A -> A -> bool) (l : list A) : list A :=
  fold_right (insert_unique ltb) [] l.

(** [np.max] / [np.min]: a zero-size array raises [ValueError]. *)
Definition np_max (l : list Z) : result Z :=
  match l with
  | [] => Raise ValueError
  | x :: l' => Ok (fold_left Z.max l' x)
  end.

Definition np_min (l : list Z) : result Z :=
  match l with
  | [] => Raise ValueError
  | x :: l' => Ok (fold_left Z.min l' x)
  end.

(** [a[0]] *)
Definition first {A : Type} (l : list A) : result A :=
  match l with
  | [] => Raise IndexError
  | x :: _ => Ok x
  end.

(** [(SortGroup & {'nwb_file_name': nwb_file_name}).delete()]; the
    part table [SortGroupElectrode] goes with its master. *)
Definition delete_groups (nwb : string) (d : db) : db :=
  {| Electrode := Electrode d;
     SortGroup :=
       List.filter (fun r => negb (bool_decide (sg_nwb_file_name r = nwb))) (SortGroup d);
     SortGroupElectrode :=
       List.filter (fun r => negb (bool_decide (sge_nwb_file_name r = nwb)))
                   (SortGroupElectrode d) |}.

(** [(Electrode() & {'nwb_file_name': ...} & {'bad_channel': 'False'}).fetch()] *)
Definition fetch_electrodes (nwb : string) (d : db) : list Electrode_row :=
  List.filter (fun e => bool_decide (nwb_file_name e = nwb)
                        && bool_decide (bad_channel e = "False"))
              (Electrode d).

(** The dictionary [sg_key]: the entry for
    ['sort_reference_electrode_id'] is absent until first assigned, and
    survives from one loop iteration to the next. *)
Record loop_state : Type := {
  sort_group : Z;
  sg_key_reference : option Z;
  tables : db
}.

(** [self.insert1(sg_key)]; a missing reference takes the column
    default [-1].  Rows are appended: the session's groups were deleted
    just before and [sort_group] only grows, so keys are fresh. *)
Definition insert1_SortGroup (nwb : string) (id : Z) (ref : option Z) (d : db) : db :=
  {| Electrode := Electrode d;
     SortGroup := SortGroup d ++
       [{| sg_nwb_file_name := nwb; sg_sort_group_id := id;
           sort_reference_electrode_id := default (-1) ref |}];
     SortGroupElectrode := SortGroupElectrode d |}.

(** [self.SortGroupElectrode().insert1(sge_key)] *)
Definition insert1_SortGroupElectrode (nwb : string) (id : Z) (e_group : string)
           (d : db) (elect : Z) : db :=
  {| Electrode := Electrode d;
     SortGroup := SortGroup d;
     SortGroupElectrode := SortGroupElectrode d ++
       [{| sge_nwb_file_name := nwb; sge_sort_group_id := id;
           sge_electrode_group_name := e_group; sge_electrode_id := elect |}] |}.

(** The part of both loop bodies from the reference test to
    [sort_group += 1], for the electrodes [members] of the group being
    formed.  In the [else] branch the source builds a [ValueError] and
    drops it: the statement has no [raise]. *)
Definition form_group (nwb : string) (e_group : string) (members : list Electrode_row)
           (st : loop_state) : result loop_state :=
  let shank_elect_ref := map original_reference_electrode members in
  hi ← np_max shank_elect_ref;
  lo ← np_min shank_elect_ref;
  ref ← (if hi =? lo
         then r0 ← first shank_elect_ref; Ok (Some r0)
         else let _unraised := ValueError in Ok (sg_key_reference st));
  let d1 := insert1_SortGroup nwb (sort_group st) ref (tables st) in
  let shank_elect := map electrode_id members in
  let d2 := fold_left (insert1_SortGroupElectrode nwb (sort_group st) e_group) shank_elect d1 in
  Ok {| sort_group := sort_group st + 1; sg_key_reference := ref; tables := d2 |}.

Definition set_group_by_shank (nwb : string) (d : db) : result db :=
  let d0 := delete_groups nwb d in
  let electrodes := fetch_electrodes nwb d0 in
  let e_groups := np_unique String.ltb (map electrode_group_name electrodes) in
  st ← for_each
        (fun st e_group =>
           let shank_list :=
             np_unique Z.ltb
               (map probe_shank
                    (List.filter (fun e => bool_decide (electrode_group_name e = e_group))
                                 electrodes)) in
           for_each
             (fun st shank =>
                form_group nwb e_group
                  (List.filter (fun e => bool_decide (electrode_group_name e = e_group)
                                         && bool_decide (probe_shank e = shank))
                               electrodes)
                  st)
             shank_list st)
        e_groups
        {| sort_group := 0; sg_key_reference := None; tables := d0 |};
  Ok (tables st).

Definition set_group_by_electrode_group (nwb : string) (d : db) : result db :=
  let d0 := delete_groups nwb d in
  let electrodes := fetch_electrodes nwb d0 in
  let e_groups := np_unique String.ltb (map electrode_group_name electrodes) in
  st ← for_each
        (fun st e_group =>
           form_group nwb e_group
             (List.filter (fun e => bool_decide (electrode_group_name e = e_group))
                          electrodes)
             st)
        e_groups
        {| sort_group := 0; sg_key_reference := None; tables := d0 |};
  Ok (tables st).

(** Electrodes of one (electrode group, shank) that disagree on their
    declared reference. *)
Definition inconsistent_reference (e1 e2 : Electrode_row) : Prop :=
  electrode_group_name e1 = electrode_group_name e2 /\
  probe_shank e1 = probe_shank e2 /\
  original_reference_electrode e1 <> original_reference_electrode e2.

(** A session with two good electrodes on one shank, referenced to
    electrodes 7 and 8. *)
Definition mismatched_session : db :=
  {| Electrode :=
       [ {| nwb_file_name := "s.nwb"; electrode_group_name := "0"; electrode_id := 0;
            probe_shank := 0; original_reference_electrode := 7; bad_channel := "False" |};
         {| nwb_file_name := "s.nwb"; electrode_group_name := "0"; electrode_id := 1;
            probe_shank := 0; original_reference_electrode := 8; bad_channel := "False" |} ];
     SortGroup := [];
     SortGroupElectrode := [] |}.

(** The rows a session owns in the two tables. *)
Definition group_rows (nwb : string) (d : db) : list SortGroup_row :=
  List.filter (fun r => bool_decide (sg_nwb_file_name r = nwb)) (SortGroup d).

Definition member_rows (nwb : string) (d : db) : list SortGroupElectrode_row :=
  List.filter (fun r => bool_decide (sge_nwb_file_name r = nwb)) (SortGroupElectrode d).

(** An electrode within its session: electrode group and id. *)
Definition electrode_key (e : Electrode_row) : string * Z :=
  (electrode_group_name e, electrode_id e).

Definition member_key (r : SortGroupElectrode_row) : string * Z :=
  (sge_electrode_group_name r, sge_electrode_id r).

(** The groups the two functions form, in loop order: the electrode
    group name and the member electrodes of each. *)
Definition group_jobs (electrodes : list Electrode_row) : list (string * list Electrode_row) :=
  map (fun e_group =>
         (e_group,
          List.filter (fun e => bool_decide (electrode_group_name e = e_group)) electrodes))
      (np_unique String.ltb (map electrode_group_name electrodes)).

Definition shank_jobs (electrodes : list Electrode_row) : list (string * list Electrode_row) :=
  concat
    (map (fun e_group =>
            map (fun shank =>
                   (e_group,
                    List.filter (fun e => bool_decide (electrode_group_name e = e_group)
                                          && bool_decide (probe_shank e = shank))
                                electrodes))
                (np_unique Z.ltb
                   (map probe_shank
                        (List.filter (fun e => bool_decide (electrode_group_name e = e_group))
                                     electrodes))))
         (np_unique String.ltb (map electrode_group_name electrodes))).

(** The entries of [l] whose key is [k]. *)
Definition bucket {A K : Type} `{EqDecision K} (key : A -> K) (l : list A) (k : K) : list A :=
  List.filter (fun a => bool_decide (key a = k)) l.

(** Forming the listed groups one after the other. *)
Definition run_jobs (nwb : string) (jobs : list (string * list Electrode_row))
           (st : loop_state) : result loop_state :=
  for_each (fun st job => form_group nwb (fst job) (snd job) st) jobs st.

(** All electrodes of one (electrode group, shank) name the same
    reference. *)
Definition consistent_references (electrodes : list Electrode_row) : Prop :=
  forall e1 e2, e1 ∈ electrodes -> e2 ∈ electrodes ->
                electrode_group_name e1 = electrode_group_name e2 ->
                probe_shank e1 = probe_shank e2 ->
                original_reference_electrode e1 = original_reference_electrode e2.

(** Two electrode groups; the second has two shanks. *)
Definition two_probe_session : db :=
  {| Electrode :=
       [ {| nwb_file_name := "s.nwb"; electrode_group_name := "1"; electrode_id := 4;
            probe_shank := 1; original_reference_electrode := 9; bad_channel := "False" |};
         {| nwb_file_name := "s.nwb"; electrode_group_name := "0"; electrode_id := 0;
            probe_shank := 0; original_reference_electrode := 7; bad_channel := "False" |};
         {| nwb_file_name := "s.nwb"; electrode_group_name := "1"; electrode_id := 3;
            probe_shank := 0; original_reference_electrode := 7; bad_channel := "False" |};
         {| nwb_file_name := "s.nwb"; electrode_group_name := "0"; electrode_id := 1;
            probe_shank := 0; original_reference_electrode := 7; bad_channel := "True" |};
         {| nwb_file_name := "t.nwb"; electrode_group_name := "0"; electrode_id := 0;
            probe_shank := 0; original_reference_electrode := -1; bad_channel := "False" |} ];
     SortGroup :=
       [ {| sg_nwb_file_name := "t.nwb"; sg_sort_group_id := 0;
            sort_reference_electrode_id := -1 |};
         {| sg_nwb_file_name := "s.nwb"; sg_sort_group_id := 5;
            sort_reference_electrode_id := -2 |} ];
     SortGroupElectrode :=
       [ {| sge_nwb_file_name := "t.nwb"; sge_sort_group_id := 0;
            sge_electrode_group_name := "0"; sge_electrode_id := 0 |} ] |}.

End Grouping.

(** ** Recording preparation: interval resolution *)

Module Preparation.

(** Timestamps are compared and copied, never computed with: they are
    modelled as rationals. *)
Definition Qlt_bool (a b : Q) : bool := negb (Qle_bool b a).

(** [np.searchsorted(a, v)] with the default [side='left'] on an
    ascending array: the number of leading entries below [v]. *)
Fixpoint searchsorted (a : list Q) (v : Q) : Z :=
  match a with
  | [] => 0
  | t :: a' => if Qlt_bool t v then 1 + searchsorted a' v else 0
  end.

(** The number of entries of [ts] below [v]. *)
Definition below (v : Q) (ts : list Q) : nat :=
  length (List.filter (fun t => Qlt_bool t v) ts).

(** Lines 809-812 of [get_filtered_recording_extractor]:
    [sort_indices = np.searchsorted(timestamps, np.ravel(sort_interval))]
    followed by [assert sort_indices[1] - sort_indices[0] > 1000]. *)
Definition sort_indices (timestamps : list Q) (sort_interval : Q * Q) : result (Z * Z) :=
  let i0 := searchsorted timestamps (fst sort_interval) in
  let i1 := searchsorted timestamps (snd sort_interval) in
  if i1 - i0 >? 1000 then Ok (i0, i1) else Raise AssertionError.

(** The samples whose timestamp lies in the interval, its end excluded
    as [searchsorted] excludes it. *)
Definition samples_inside (timestamps : list Q) (sort_interval : Q * Q) : Z :=
  Z.of_nat (length (List.filter
    (fun t => Qle_bool (fst sort_interval) t && Qlt_bool t (snd sort_interval))
    timestamps)).

(** The same count with the end of the interval included. *)
Definition samples_inside_closed (timestamps : list Q) (sort_interval : Q * Q) : Z :=
  Z.of_nat (length (List.filter
    (fun t => Qle_bool (fst sort_interval) t && Qle_bool t (snd sort_interval))
    timestamps)).

(** Arrays live in a store, so that two names can denote one array. *)
Definition loc : Type := nat.
Definition heap : Type := gmap nat (list Q).

Record Recording : Type := {
  _timestamps : loc;
  num_frames : Z;
  sampling_frequency : Q;
  channel_ids : list Z;
  traces : list (list Q)
}.

(** [a[i0:i1]] for [0 <= i0], [0 <= i1]. *)
Definition slice {A : Type} (a : list A) (i0 i1 : Z) : list A :=
  take (Z.to_nat i1 - Z.to_nat i0) (drop (Z.to_nat i0) a).

(** The time axis of [get_filtered_recording_extractor].  The channel
    selection, re-referencing and band-pass filtering are spikeinterface
    calls; their output on the frames [[i0, i1)] enters as [filtered].
    [SubRecordingExtractor(R, start_frame=i0, end_frame=i1)] has
    [i1 - i0] frames, and line 874 attaches
    [timestamps[sort_indices[0]:sort_indices[1]]]. *)
Definition get_filtered_recording_extractor
           (timestamps : list Q) (sort_interval : Q * Q) (fs : Q) (electrode_ids : list Z)
           (filtered : Z -> Z -> list (list Q)) (h : heap) : result Recording * heap :=
  match sort_indices timestamps sort_interval with
  | Raise e => (Raise e, h)
  | Ok (i0, i1) =>
      let l := fresh (dom h) in
      (Ok {| _timestamps := l; num_frames := i1 - i0; sampling_frequency := fs;
             channel_ids := electrode_ids; traces := filtered i0 i1 |},
       <[l := slice timestamps i0 i1]> h)
  end.

(** Timestamps 0, 1, ..., n-1. *)
Definition ramp (n : nat) : list Q := map (fun i => inject_Z (Z.of_nat i)) (seq 0 n).

(** [SpikeSorting.get_recording_timestamps]: the same search and slice,
    without the assertion. *)
Definition get_recording_timestamps (timestamps : list Q) (sort_interval : Q * Q) : list Q :=
  let i0 := searchsorted timestamps (fst sort_interval) in
  let i1 := searchsorted timestamps (snd sort_interval) in
  slice timestamps i0 i1.

(** The timestamps within the interval, end excluded. *)
Definition inside (sort_interval : Q * Q) (t : Q) : bool :=
  Qle_bool (fst sort_interval) t && Qlt_bool t (snd sort_interval).

End Preparation.

(** ** Sorting execution, pre-step: artifact detection *)

Module Artifact.
Import Preparation.

(** [a[i]] on a numpy array: a negative index counts from the end. *)
Definition np_index (a : list Q) (i : Z) : result Q :=
  let n := Z.of_nat (length a) in
  let j := if i <? 0 then i + n else i in
  if (0 <=? j) && (j <? n)
  then (match a !! Z.to_nat j with Some x => Ok x | None => Raise IndexError end)
  else Raise IndexError.

(** [np.round] of a float: the nearest integer, ties to the even one,
    returned as a float. *)
Definition np_round (q : Q) : Q :=
  let f := Qfloor q in
  inject_Z
    match Qcompare (q - inject_Z f) (1 # 2) with
    | Lt => f
    | Gt => f + 1
    | Eq => if Z.even f then f else f + 1
    end.

(** A float as a slice bound: numpy takes integers only and raises
    [TypeError], whatever the value of the float. *)
Definition float_slice_bound (x : Q) : result Z := Raise TypeError.

(** A slice bound of an array of length [n]. *)
Definition slice_bound (n i : Z) : Z :=
  Z.max 0 (Z.min n (if i <? 0 then i + n else i)).

(** [a[start:stop] = v] *)
Definition slice_assign (a : list Q) (start stop : Z) (v : Q) : list Q :=
  let n := Z.of_nat (length a) in
  imap (fun i x =>
          if (slice_bound n start <=? Z.of_nat i) && (Z.of_nat i <? slice_bound n stop)
          then v else x) a.

(** A local variable of a Python function: unbound until assigned. *)
Definition read_local {A : Type} (v : option A) : result A :=
  match v with
  | Some a => Ok a
  | None => Raise UnboundLocalError
  end.

Definition Qabs_gt (x thresh : Q) : bool := Qlt_bool thresh (Qabs x).

Section Detection.
(** [scipy.stats.zscore] on one channel, and [get_valid_intervals]
    of [nwb_helper_fn]: floating-point code outside this repository's
    sources. *)
Variable zscore : list Q -> list Q.
Variable get_valid_intervals : list Q -> Q -> Q -> Q -> list (Q * Q).

(** Lines 478-485: the frames at which at least [nelect_above]
    channels exceed both thresholds. *)
Definition above_both (data : list (list Q)) (zscore_thresh amplitude_thresh : Q)
           (nelect_above : Q) (n_frames : nat) : list Z :=
  let above_a := map (map (fun x => Qabs_gt x amplitude_thresh)) data in
  let above_z := map (fun row => map (fun x => Qabs_gt x zscore_thresh) (zscore row)) data in
  let both := zip_with (zip_with andb) above_z above_a in
  map Z.of_nat
    (List.filter
       (fun j =>
          Qle_bool nelect_above
                   (inject_Z (Z.of_nat (length (List.filter (fun row => default false (row !! j))
                                                            both)))))
       (seq 0 n_frames)).

(** Lines 488-490: every crossing is to blank a window of the array at
    [valid_timestamps]; [half_window_points] is the float that
    [np.round] returned, so both slice bounds are floats. *)
Definition blank_windows (valid_timestamps : loc) (half_window_points : Q)
           (crossings : list Z) (h : heap) : result heap :=
  for_each
    (fun h a =>
       start ← float_slice_bound (inject_Z a - half_window_points)%Q;
       stop ← float_slice_bound (inject_Z a + half_window_points)%Q;
       Ok (<[valid_timestamps :=
               slice_assign (h !!! valid_timestamps) start stop (-1)%Q]> h))
    crossings h.

Definition get_no_artifact_times (recording : Recording)
           (zscore_thresh amplitude_thresh proportion_above_thresh zero_window_len : Q)
           (skip : bool) (h : heap) : result (list (Q * Q)) * heap :=
  if Qle_bool zscore_thresh 0 && Qle_bool amplitude_thresh 0 then
    (t_first ← np_index (h !!! _timestamps recording) 0;
     t_last ← np_index (h !!! _timestamps recording) (num_frames recording);
     Ok [(t_first, t_last)], h)
  else
    let half_window_points :=
      np_round (sampling_frequency recording * 1000 * zero_window_len / 2)%Q in
    (* [data] is assigned further down, so it is a local of the
       function and has no value yet *)
    let data : option (list (list Q)) := None in
    match read_local data with
    | Raise e => (Raise e, h)
    | Ok data_shape =>
        let nelect_above :=
          np_round (proportion_above_thresh * inject_Z (Z.of_nat (length data_shape)))%Q in
        let data := traces recording in
        let nelect_above :=
          np_round (proportion_above_thresh
                    * inject_Z (Z.of_nat (length (channel_ids recording))))%Q in
        let crossings :=
          above_both data zscore_thresh amplitude_thresh nelect_above
                     (Z.to_nat (num_frames recording)) in
        let valid_timestamps := _timestamps recording in
        match blank_windows valid_timestamps half_window_points crossings h with
        | Raise e => (Raise e, h)
        | Ok h' =>
            (Ok (get_valid_intervals
                   (List.filter (fun t => negb (Qeq_bool t (-1)%Q)) (h' !!! valid_timestamps))
                   (sampling_frequency recording) (3 # 2) (1 # 1000)),
             h')
        end
    end.
End Detection.

(** Some threshold is positive: detection is enabled. *)
Definition threshold_enabled (zscore_thresh amplitude_thresh : Q) : Prop :=
  (0 < zscore_thresh)%Q \/ (0 < amplitude_thresh)%Q.

End Artifact.

(** ** Spike times of the units *)

Module Units.
Import Preparation Artifact.

(** [SpikeSorting.make], line 637, and [CuratedSpikeSorting.make], line
    1149: [timestamps[spike_times_in_samples]], one look-up per spike. *)
Definition spike_times (recording_timestamps : list Q) (spike_train : list Z)
  : result (list Q) :=
  collect (np_index recording_timestamps) spike_train.

(** [get_sorting_extractor], lines 920 and 927-928: the spike times are
    searched in the whole timestamp array and shifted by the start of the
    sort interval. *)
Definition unit_frames (timestamps : list Q) (sort_interval : Q * Q) (times : list Q)
  : list Z :=
  let i0 := searchsorted timestamps (fst sort_interval) in
  map (fun t => searchsorted timestamps t - i0) times.

End Units.

(** ** Artifact store: [SpikeSorting.nightly_cleanup] *)

Module ArtifactStore.

(** A directory, as the list of its path components from the root of
    the file system; the file system is the set of the directories that
    exist (files are not listed by the code and go with their
    directory). *)
Definition path : Type := list string.

Definition filesystem : Type := gset path.

Definition file_not_found : exn := Exception "FileNotFoundError".

(** [q] is [root / name]. *)
Fixpoint child_name (root q : path) : option string :=
  match root, q with
  | [], [name] => Some name
  | r :: root', c :: q' => if bool_decide (r = c) then child_name root' q' else None
  | _, _ => None
  end.

(** [next(os.walk(root))[1]]: the names of the subdirectories of
    [root]. *)
Definition subdirs (root : path) (fs : filesystem) : list string :=
  omap (child_name root) (elements fs).

(** [shutil.rmtree(p)]: [p] goes with everything below it. *)
Definition rmtree (p : path) (fs : filesystem) : result filesystem :=
  if bool_decide (p ∈ fs)
  then Ok (filter (fun q => ~ p `prefix_of` q) fs)
  else Raise file_not_found.

(** The loop of [nightly_cleanup]; what was removed before an error
    stays removed. *)
Fixpoint cleanup_loop (storage_dir : path) (analysis_file_names dir_names : list string)
         (fs : filesystem) : result unit * filesystem :=
  match dir_names with
  | [] => (Ok tt, fs)
  | dir :: rest =>
      if bool_decide (dir ∈ analysis_file_names)
      then cleanup_loop storage_dir analysis_file_names rest fs
      else match rmtree (storage_dir ++ [dir])%list fs with
           | Raise e => (Raise e, fs)
           | Ok fs' => cleanup_loop storage_dir analysis_file_names rest fs'
           end
  end.

(** [next(os.walk(root))] raises [StopIteration] when [root] is not a
    directory. *)
Definition nightly_cleanup (table : list Access.SpikeSorting_row) (storage_dir : path)
           (fs : filesystem) : result unit * filesystem :=
  if bool_decide (storage_dir ∈ fs)
  then cleanup_loop storage_dir (map Access.ss_analysis_file_name table)
                    (subdirs storage_dir fs) fs
  else (Raise StopIteration, fs).

Definition run (analysis_file_name : string) : Access.SpikeSorting_row :=
  {| Access.ss_key := Access.RunKey "s.nwb" 0 "mountainsort4" "default" "sleep";
     Access.ss_analysis_file_name := analysis_file_name;
     Access.ss_units_object_id := "";
     Access.time_of_sort := 0;
     Access.curation_feed_uri := "" |}.

(** *** [CuratedSpikeSorting.delete_extractors] *)

(** [shutil.rmtree(dir)] for every name of the list: a bare name is
    resolved against the working directory [cwd]. *)
Fixpoint rmtree_each (cwd : path) (delete_list : list string) (fs : filesystem)
  : result unit * filesystem :=
  match delete_list with
  | [] => (Ok tt, fs)
  | dir :: rest =>
      match rmtree (cwd ++ [dir])%list fs with
      | Raise e => (Raise e, fs)
      | Ok fs' => rmtree_each cwd rest fs'
      end
  end.

(** [selected] are the rows of [self & key]. *)
Definition delete_list_of (selected : list Access.CuratedSpikeSorting_row)
           (dir_names : list string) : list string :=
  List.filter
    (fun dir => negb (bool_decide (dir ∈ map Access.css_analysis_file_name selected)))
    dir_names.

(** [answer] is what the operator types at the prompt. *)
Definition delete_extractors (selected : list Access.CuratedSpikeSorting_row)
           (storage_dir cwd : path) (answer : string) (fs : filesystem)
  : result unit * filesystem :=
  if bool_decide (storage_dir ∈ fs) then
    let delete_list := delete_list_of selected (subdirs storage_dir fs) in
    if bool_decide (answer = "y") || bool_decide (answer = "Y")
    then rmtree_each cwd delete_list fs
    else (Ok tt, fs)
  else (Raise StopIteration, fs).

Definition curated (analysis_file_name : string) : Access.CuratedSpikeSorting_row :=
  {| Access.css_key := Access.RunKey "s.nwb" 0 "mountainsort4" "default" "sleep";
     Access.automatic_curation_param_name := "default";
     Access.css_analysis_file_name := analysis_file_name;
     Access.css_units_object_id := "" |}.

(** A storage root [/store] with the run directories r1 to r4, of
    which r2 has a subdirectory. *)
Definition sample_store : filesystem :=
  {[ ["store"]; ["store"; "r1"]; ["store"; "r2"]; ["store"; "r2"; "sub"];
     ["store"; "r3"]; ["store"; "r4"]; ["home"]; ["home"; "notes"] ]}.

End ArtifactStore.

(** ** Curation stage *)

Module Curation.

(** What [workspace.get_sorting_curation] returns.  A Python dict is
    an association list with distinct keys, in insertion order. *)
Record sorting_curation : Type := {
  labelsByUnit : list (Z * list string);
  mergeGroups : list (list Z)
}.

Definition dict_keys {V : Type} (d : list (Z * V)) : list Z := map fst d.

Definition dict_wf {V : Type} (d : list (Z * V)) : Prop := NoDup (dict_keys d).

(** [d[k]] *)
Fixpoint dict_get {V : Type} (d : list (Z * V)) (k : Z) : result V :=
  match d with
  | [] => Raise KeyError
  | (k', v) :: d' => if bool_decide (k' = k) then Ok v else dict_get d' k
  end.

(** [del d[k]] *)
Fixpoint dict_del {V : Type} (d : list (Z * V)) (k : Z) : result (list (Z * V)) :=
  match d with
  | [] => Raise KeyError
  | (k', v) :: d' =>
      if bool_decide (k' = k) then Ok d'
      else d'' ← dict_del d' k; Ok ((k', v) :: d'')
  end.

(** [l.remove(x)]: drops the first occurrence, [ValueError] if there
    is none. *)
Fixpoint list_remove (x : Z) (l : list Z) : result (list Z) :=
  match l with
  | [] => Raise ValueError
  | y :: l' =>
      if bool_decide (y = x) then Ok l'
      else l'' ← list_remove x l'; Ok (y :: l'')
  end.

(** [','.join(labels)] *)
Fixpoint join (sep : string) (l : list string) : string :=
  match l with
  | [] => ""
  | [x] => x
  | x :: l' => x +:+ sep +:+ join sep l'
  end.

(** Lines 1090-1094 of [make]: the units whose labels contain
    ['accept']. *)
Definition accepted_by_label (unit_labels : list (Z * list string)) : list Z :=
  dict_keys (List.filter (fun kv => bool_decide ("accept" ∈ snd kv)) unit_labels).

(** [u] is not among [cells]. *)
Definition outside (cells : list Z) (u : Z) : bool := negb (bool_decide (u ∈ cells)).

(** [m[1:]] *)
Definition non_primary (m : list Z) : list Z := drop 1 m.

(** Lines 1099-1101 of [make], for one merge group [m]. *)
Definition collapse_merge_group (accepted_units : list Z) (m : list Z) : result (list Z) :=
  if forallb (fun cell => bool_decide (cell ∈ accepted_units)) (non_primary m)
  then for_each (fun acc cell => list_remove cell acc) (non_primary m) accepted_units
  else Ok accepted_units.

(** Lines 1097-1101 of [make]. *)
Definition remove_non_primary (merge_groups : list (list Z)) (accepted_units : list Z)
  : result (list Z) :=
  match merge_groups with
  | [] => Ok accepted_units
  | _ => for_each collapse_merge_group merge_groups accepted_units
  end.

Definition accepted_units_of (labels : sorting_curation) : result (list Z) :=
  remove_non_primary (mergeGroups labels) (accepted_by_label (labelsByUnit labels)).

(** The collapsing rule in the words of the specification, for one
    merge group [m] against the accepted units: if every non-primary
    member is accepted, the non-primary members leave the accepted units;
    otherwise nothing changes. *)
Definition collapse_rule (accepted : list Z) (m : list Z) : list Z :=
  if bool_decide (Forall (fun c => c ∈ accepted) (non_primary m))
  then List.filter (fun u => bool_decide (u ∉ non_primary m)) accepted
  else accepted.

(** The remote curation workspace, read-only here. *)
Record workspace : Type := {
  sorting_ids : list string;
  recording_ids : list string;
  get_sorting_curation : string -> sorting_curation;
  (** unit ids of [get_curated_sorting_extractor(sorting_id)] *)
  get_curated_unit_ids : string -> list Z
}.

Section Make.
(** One unit's row of the metrics data frame. *)
Context {M : Type}.

(** [SpikeSortingMetrics().compute_metrics(metrics_key, recording, sorting)],
    run by the sorting engine: a function of the metric list, the
    recording and the units of the sorting. *)
Variable compute_metrics : string -> string -> list Z -> list (Z * M).

(** [AnalysisNwbfile().create(nwb_file_name)], given the names in use. *)
Variable create : string -> list string -> string.

(** The content [add_units] writes to an analysis file. *)
Record nwb_units : Type := {
  nu_units : list Z;
  nu_metrics : list (Z * M);
  nu_labels : list string
}.

Record CuratedSpikeSorting_row : Type := {
  csr_key : string;
  csr_analysis_file_name : string
}.

(** Persisted state, and the log of engine calls. *)
Record world : Type := {
  AnalysisNwbfile : list (string * nwb_units);
  CuratedSpikeSorting : list CuratedSpikeSorting_row;
  Unit : list (string * Z);
  metric_computations : list (string * string * list Z)
}.

(** What [make] reads for one key. *)
Record make_key : Type := {
  key : string;
  nwb_file_name : string;
  cluster_metrics_list_name : string;
  ws : workspace;
  (** number of rows of the original sort's units table *)
  orig_units_rows : nat
}.

(** [metrics.loc[accepted_units]] *)
Definition loc_rows (metrics : list (Z * M)) (accepted_units : list Z)
  : result (list (Z * M)) :=
  collect (fun u => row ← dict_get metrics u; Ok (u, row)) accepted_units.

Definition log_metrics (call : string * string * list Z) (w : world) : world :=
  {| AnalysisNwbfile := AnalysisNwbfile w;
     CuratedSpikeSorting := CuratedSpikeSorting w;
     Unit := Unit w;
     metric_computations := metric_computations w ++ [call] |}.

(** Step 3 of [make]: write the file, register it, insert the master
    row and one [Unit] row per stored unit. *)
Definition save_curated (k : make_key) (content : nwb_units) (w : world) : world :=
  let analysis_file_name := create (nwb_file_name k) (map fst (AnalysisNwbfile w)) in
  {| AnalysisNwbfile := AnalysisNwbfile w ++ [(analysis_file_name, content)];
     CuratedSpikeSorting := CuratedSpikeSorting w ++
       [{| csr_key := key k; csr_analysis_file_name := analysis_file_name |}];
     Unit := Unit w ++ map (fun u => (key k, u)) (nu_units content);
     metric_computations := metric_computations w |}.

(** [CuratedSpikeSorting.make] of [common_spikesorting.py]. *)
Definition make (k : make_key) (w : world) : result unit * world :=
  match sorting_ids (ws k) with
  | [] => (Ok tt, w)
  | _ :: _ :: _ => (Ok tt, w)
  | [sorting_id] =>
      let labels := get_sorting_curation (ws k) sorting_id in
      let unit_labels := labelsByUnit labels in
      match remove_non_primary (mergeGroups labels) (accepted_by_label unit_labels) with
      | Raise e => (Raise e, w)
      | Ok accepted_units =>
          match collect (fun u => ls ← dict_get unit_labels u; Ok (join "," ls))
                        accepted_units with
          | Raise e => (Raise e, w)
          | Ok labels_concat =>
              if (length unit_labels =? 0)%nat || (length accepted_units =? 0)%nat
              then (Ok tt, w)
              else
                match recording_ids (ws k) with
                | [] => (Raise IndexError, w)
                | recording_id :: _ =>
                    let sorting_units := get_curated_unit_ids (ws k) sorting_id in
                    let metrics :=
                      compute_metrics (cluster_metrics_list_name k) recording_id
                                      sorting_units in
                    let w1 :=
                      log_metrics (cluster_metrics_list_name k, recording_id, sorting_units) w in
                    match loc_rows metrics accepted_units with
                    | Raise e => (Raise e, w1)
                    | Ok metrics =>
                        (* [orig_units.iloc[1]] *)
                        if (orig_units_rows k <? 2)%nat then (Raise IndexError, w1)
                        else
                          let units :=
                            List.filter (fun u => bool_decide (u ∈ accepted_units))
                                        sorting_units in
                          (Ok tt,
                           save_curated k
                             {| nu_units := units; nu_metrics := metrics;
                                nu_labels := labels_concat |} w1)
                    end
                end
          end
      end
  end.
End Make.

Arguments nwb_units M : clear implicits.
Arguments world M : clear implicits.

(** *** [CuratedSpikeSorting.insert_manual_curation] of
    [spikesorting_curation.py] *)

(** [json.load(metrics_path)]: metric name, then unit, then value. *)
Definition quality_metrics : Type := list (string * list (Z * Q)).

Record curated_sorting : Type := {
  sorting_id : string;
  parent_sorting_id : string;
  cs_labels : sorting_curation;
  cs_metrics : quality_metrics;
  description : string
}.

Record curation_store : Type := {
  curated_sortings : list curated_sorting;
  engine_metric_calls : nat
}.

(** Lines 308-311: every non-primary unit is removed from [unit_ids]
    and from [labels['labelsByUnit']], with no test of membership. *)
Definition drop_merged (st : list Z * list (Z * list string)) (m : list Z)
  : result (list Z * list (Z * list string)) :=
  for_each
    (fun st merged_unit =>
       unit_ids ← list_remove merged_unit (fst st);
       unit_labels ← dict_del (snd st) merged_unit;
       Ok (unit_ids, unit_labels))
    (non_primary m) st.

Section InsertManualCuration.
(** ['S_' + str(uuid.uuid4())[:8]] *)
Variable new_sorting_id : list string -> string.

(** [insert_sorting]: [None] metrics become [{}]. *)
Definition insert_sorting (parent : string) (labels : sorting_curation)
           (metrics : option quality_metrics) (descr : string) (s : curation_store)
  : string * curation_store :=
  let metrics := default [] metrics in
  let id := new_sorting_id (map sorting_id (curated_sortings s)) in
  (id,
   {| curated_sortings := curated_sortings s ++
        [{| sorting_id := id; parent_sorting_id := parent; cs_labels := labels;
            cs_metrics := metrics; description := descr |}];
      engine_metric_calls := engine_metric_calls s |}).

Definition insert_manual_curation (parent : string) (labels : sorting_curation)
           (parent_metrics : quality_metrics) (descr : string) (s : curation_store)
  : result string * curation_store :=
  let unit_labels := labelsByUnit labels in
  let unit_ids := dict_keys unit_labels in
  let clusters_merged :=
    match mergeGroups labels with [] => false | _ => true end in
  let after_merge :=
    if clusters_merged
    then st ← for_each drop_merged (mergeGroups labels) (unit_ids, unit_labels);
         Ok ({| labelsByUnit := snd st; mergeGroups := mergeGroups labels |}, None)
    else Ok (labels, Some parent_metrics) in
  match after_merge with
  | Raise e => (Raise e, s)
  | Ok (labels, metrics) =>
      let (id, s') := insert_sorting parent labels metrics descr s in
      (Ok id, s')
  end.
End InsertManualCuration.

(** *** Sample curations *)

(** Units 1 and 2 accepted, unit 3 unlabelled, no merge group. *)
Definition two_accepted : workspace :=
  {| sorting_ids := ["S1"];
     recording_ids := ["R1"];
     get_sorting_curation := fun _ =>
       {| labelsByUnit := [(1, ["accept"]); (2, ["accept"])]; mergeGroups := [] |};
     get_curated_unit_ids := fun _ => [1; 2; 3] |}.

(** No unit carries the label ['accept']. *)
Definition none_accepted : workspace :=
  {| sorting_ids := ["S1"];
     recording_ids := ["R1"];
     get_sorting_curation := fun _ =>
       {| labelsByUnit := [(1, ["reject"]); (2, ["noise"; "mua"])]; mergeGroups := [] |};
     get_curated_unit_ids := fun _ => [1; 2] |}.

(** Units 1 and 2 accepted and merged into unit 1, unit 3 noise. *)
Definition merged_pair : workspace :=
  {| sorting_ids := ["S1"];
     recording_ids := ["R1"];
     get_sorting_curation := fun _ =>
       {| labelsByUnit := [(1, ["accept"]); (2, ["accept"; "mua"]); (3, ["noise"])];
          mergeGroups := [[1; 2]] |};
     get_curated_unit_ids := fun _ => [1; 2; 3] |}.

Definition key_for (w : workspace) : make_key :=
  {| key := "run-1"; nwb_file_name := "s.nwb"; cluster_metrics_list_name := "default";
     ws := w; orig_units_rows := 3 |}.

(** An engine that scores every unit [0]. *)
Definition flat_metrics (metrics_key recording : string) (units : list Z) : list (Z * Q) :=
  map (fun u => (u, 0%Q)) units.

Definition analysis_name (nwb : string) (used : list string) : string :=
  nwb +:+ "_" +:+ pretty (length used).

Definition empty_world : world Q :=
  {| AnalysisNwbfile := []; CuratedSpikeSorting := []; Unit := [];
     metric_computations := [] |}.

Definition parent_metrics : quality_metrics :=
  [("isi_violation", [(1, 0%Q); (2, (1 # 10)%Q); (3, (1 # 2)%Q)])].

Definition empty_store : curation_store :=
  {| curated_sortings := []; engine_metric_calls := 0 |}.

Definition sorting_name (used : list string) : string := "S_" +:+ pretty (length used).

End Curation.

(** ** Probe geometry: [SortGroup.get_geometry] *)

Module Geometry.

(** One row of [tmp_geom]: [rel_x, rel_y, rel_z] of a channel. *)
Definition position : Type := (Q * Q * Q)%type.

Definition axis (i : nat) (p : position) : Q :=
  match i with
  | O => fst (fst p)
  | S O => snd (fst p)
  | _ => snd p
  end.

(** [np.nonzero(col)]: the indices of the non-zero entries. *)
Definition np_nonzero (col : list Q) : list nat :=
  List.filter (fun i => negb (Qeq_bool (nth i col 0%Q) 0)) (seq 0 (length col)).

(** [np.any(np.nonzero(col))]: [np.any] is applied to the index array,
    so it asks whether some non-zero entry sits at a non-zero index. *)
Definition has_coordinates (col : list Q) : bool :=
  existsb (fun i => negb (i =? 0)%nat) (np_nonzero col).

Record column_state : Type := {
  n_found : nat;
  geometry : list (list Q)
}.

(** The body of [for i in range(3)]; a third column with coordinates
    only builds a [Warning] object that is dropped. *)
Definition take_column (tmp_geom : list position) (st : column_state) (i : nat)
  : column_state :=
  let col := map (axis i) tmp_geom in
  if has_coordinates col then
    if (n_found st <? 2)%nat then
      {| n_found := n_found st + 1;
         geometry := zip_with (fun row v => <[n_found st := v]> row) (geometry st) col |}
    else let _unraised := "Warning" in st
  else st.

(** Lines 207 and 221-231: from [tmp_geom] to the returned list. *)
Definition geometry_of (tmp_geom : list position) : list (list Q) :=
  geometry
    (fold_left (take_column tmp_geom) [0; 1; 2]%nat
               {| n_found := 0; geometry := replicate (length tmp_geom) [0; 0]%Q |}).

Section GetGeometry.
(** The [ElectrodeGroup] and [Probe] look-ups: the probe type of an
    electrode group, and the position of a channel on that probe type;
    each fails unless exactly one row matches. *)
Variable probe_type_of : string -> result string.
Variable position_of : string -> Z -> result position.

Definition get_geometry (sort_group_id : Z) (nwb : string) (d : Grouping.db)
  : result (list (list Q)) :=
  let sort_group_list := map Grouping.sg_sort_group_id (Grouping.group_rows nwb d) in
  max_group ← Grouping.np_max sort_group_list;
  let sort_group_electrodes :=
    List.filter (fun r => bool_decide (Grouping.sge_sort_group_id r = sort_group_id))
                (Grouping.member_rows nwb d) in
  electrode_group_name ←
    Grouping.first (map Grouping.sge_electrode_group_name sort_group_electrodes);
  probe_type ← probe_type_of electrode_group_name;
  let channels := map Grouping.sge_electrode_id sort_group_electrodes in
  tmp_geom ← collect (position_of probe_type) channels;
  Ok (geometry_of tmp_geom).
End GetGeometry.

(** The axes that carry coordinates, in the order x, y, z. *)
Definition informative_axes (tmp_geom : list position) : list nat :=
  List.filter (fun i => has_coordinates (map (axis i) tmp_geom)) [0; 1; 2]%nat.

(** Coordinate [k] of the output for a channel. *)
Definition kept (axes : list nat) (k : nat) (p : position) : Q :=
  match axes !! k with
  | Some i => axis i p
  | None => 0%Q
  end.

End Geometry.

(** ** Unit inclusion: [UnitInclusionParameters.get_included_units] *)

Module Inclusion.

Record Unit_row : Type := {
  unit_id : Z;
  label : string;
  noise_overlap : Q;
  nn_hit_rate : Q;
  isi_violation : Q;
  firing_rate : Q;
  num_spikes : Z
}.

Record UnitInclusionParameters_row : Type := {
  max_noise_overlap : Q;
  min_nn_hit_rate : Q;
  max_isi_violation : Q;
  min_firing_rate : Q;
  max_firing_rate : Q;
  min_num_spikes : Z;
  (** [NULL] in the table is [None] *)
  exclude_label_list : option (list string)
}.

(** [s.split(',')]: an empty string gives one empty piece. *)
Fixpoint split_on (sep : Ascii.ascii) (s : string) : list string :=
  match s with
  | EmptyString => [EmptyString]
  | String c s' =>
      if bool_decide (c = sep) then EmptyString :: split_on sep s'
      else match split_on sep s' with
           | piece :: pieces => String c piece :: pieces
           | [] => [String c EmptyString]
           end
  end.

(** The six restrictions of the query. *)
Definition within_thresholds (k : UnitInclusionParameters_row) (u : Unit_row) : bool :=
  Qle_bool (noise_overlap u) (max_noise_overlap k)
  && Qle_bool (min_nn_hit_rate k) (nn_hit_rate u)
  && Qle_bool (isi_violation u) (max_isi_violation k)
  && Qle_bool (min_firing_rate k) (firing_rate u)
  && Qle_bool (firing_rate u) (max_firing_rate k)
  && (min_num_spikes k <=? num_spikes u).

(** The inner loop: [exclude] is set by any label found in the list. *)
Definition excluded (exclude_labels : list string) (u : Unit_row) : bool :=
  fold_left (fun exclude l => if bool_decide (l ∈ exclude_labels) then true else exclude)
            (split_on ","%char (label u)) false.

(** [units] are the [Unit] rows of the selected curated sortings. *)
Definition get_included_units (units : list Unit_row) (k : UnitInclusionParameters_row)
  : list Unit_row :=
  let units := List.filter (within_thresholds k) units in
  match exclude_label_list k with
  | Some exclude_labels =>
      fold_left (fun included_units unit =>
                   if negb (excluded exclude_labels unit)
                   then (included_units ++ [unit])%list else included_units)
                units []
  | None => units
  end.

(** No comma inside the label. *)
Definition comma_free (s : string) : Prop :=
  ~ In ","%char (String.list_ascii_of_string s).

(** A unit labelled accept and mua, and thresholds it passes. *)
Definition sample_unit : Unit_row :=
  {| unit_id := 1; label := "accept,mua"; noise_overlap := 1 # 100; nn_hit_rate := 9 # 10;
     isi_violation := 0; firing_rate := 5; num_spikes := 1200 |}.

Definition sample_inclusion (exclude : option (list string)) : UnitInclusionParameters_row :=
  {| max_noise_overlap := 1; min_nn_hit_rate := -1; max_isi_violation := 100;
     min_firing_rate := 0; max_firing_rate := 100000; min_num_spikes := 0;
     exclude_label_list := exclude |}.

End Inclusion.

(** ** Metric lists: [SpikeSortingMetrics] *)

Module Metrics.

(** A Python dict from metric name to flag, in insertion order. *)
Definition metric_dict : Type := list (string * bool).

(** [d[k] = v]: an existing key keeps its place. *)
Fixpoint dict_set (d : metric_dict) (k : string) (v : bool) : metric_dict :=
  match d with
  | [] => [(k, v)]
  | (k', v') :: d' =>
      if bool_decide (k' = k) then (k, v) :: d' else (k', v') :: dict_set d' k v
  end.

(** [get_metric_dict]: [{metric: False for metric in metrics_list}],
    where [metrics_list] is the catalog the sorting engine reports. *)
Definition get_metric_dict (metrics_list : list string) : metric_dict :=
  fold_left (fun d metric => dict_set d metric false) metrics_list [].

(** The dictionary [get_default_metrics_entry] inserts. *)
Definition default_metric_dict (metrics_list : list string) : metric_dict :=
  dict_set (dict_set (dict_set (get_metric_dict metrics_list) "firing_rate" true)
                     "nn_hit_rate" true)
           "noise_overlap" true.

(** [selected_metrics_list] *)
Definition selected_metrics_list (d : metric_dict) : list string :=
  map fst (List.filter (fun kv => snd kv) d).

(** [validate_metrics_list], for the stored dictionary [d]. *)
Definition validate_metrics_list (metrics_list : list string) (d : metric_dict) : bool :=
  let valid_metrics := get_metric_dict metrics_list in
  fold_left (fun valid metric =>
               if negb (bool_decide (metric ∈ map fst valid_metrics)) then false else valid)
            (map fst d) true.

End Metrics.

(** ** Sorter catalogue: [SpikeSorter] and [SpikeSorterParameters] *)

Module Sorters.

(** The filter parameters written by
    [SpikeSorterParameters.insert_from_spikeinterface]. *)
Definition default_filter_parameters : list (string * Z) :=
  [("frequency_min", 300); ("frequency_max", 6000); ("filter_width", 1000);
   ("filter_chunk_size", 2000000)].

Section Catalogue.
(** A sorter's parameter dictionary. *)
Context {P : Type}.

(** [ss.get_default_params(sorter)] *)
Variable get_default_params : string -> P.

Record SpikeSorterParameters_row : Type := {
  sorter_name : string;
  parameter_set_name : string;
  parameter_dict : P;
  filter_parameter_dict : list (string * Z)
}.

Record db : Type := {
  SpikeSorter : list string;
  SpikeSorterParameters : list SpikeSorterParameters_row
}.

(** Equality of primary keys. *)
Definition same_key (r r' : SpikeSorterParameters_row) : bool :=
  bool_decide (sorter_name r' = sorter_name r)
  && bool_decide (parameter_set_name r' = parameter_set_name r).

(** [insert1(row, skip_duplicates=True)]: a stored row with the same
    primary key stays as it is. *)
Definition insert1_sorter (rows : list string) (sorter : string) : list string :=
  if bool_decide (sorter ∈ rows) then rows else (rows ++ [sorter])%list.

Definition insert1_parameters (rows : list SpikeSorterParameters_row)
           (r : SpikeSorterParameters_row) : list SpikeSorterParameters_row :=
  if existsb (same_key r) rows then rows else (rows ++ [r])%list.

(** The row built in [sort_param_dict] for one sorter. *)
Definition default_row (sorter : string) : SpikeSorterParameters_row :=
  {| sorter_name := sorter; parameter_set_name := "default";
     parameter_dict := get_default_params sorter;
     filter_parameter_dict := default_filter_parameters |}.

(** [SpikeSorter.insert_from_spikeinterface], for the list [sorters]
    that [ss.available_sorters()] returns. *)
Definition SpikeSorter_insert_from_spikeinterface (sorters : list string) (d : db) : db :=
  fold_left (fun d sorter =>
               {| SpikeSorter := insert1_sorter (SpikeSorter d) sorter;
                  SpikeSorterParameters := SpikeSorterParameters d |})
            sorters d.

(** [SpikeSorterParameters.insert_from_spikeinterface] *)
Definition SpikeSorterParameters_insert_from_spikeinterface (sorters : list string) (d : db)
  : db :=
  fold_left (fun d sorter =>
               if negb (length (List.filter (fun n => bool_decide (n = sorter))
                                            (SpikeSorter d)) =? 0)%nat
               then {| SpikeSorter := SpikeSorter d;
                       SpikeSorterParameters :=
                         insert1_parameters (SpikeSorterParameters d) (default_row sorter) |}
               else d)
            sorters d.

(** The primary key of a parameter row. *)
Definition key_of (r : SpikeSorterParameters_row) : string * string :=
  (sorter_name r, parameter_set_name r).
End Catalogue.

Arguments SpikeSorterParameters_row P : clear implicits.
Arguments db P : clear implicits.

End Sorters.

(** * Properties *)

Local Open Scope list_scope.

(** ** Access control gate *)

Module AccessProofs.
Import Access.

Lemma sum_Z_app (l1 l2 : list Z) : sum_Z (l1 ++ l2) = sum_Z l1 + sum_Z l2.
Proof. unfold sum_Z. induction l1 as [|x l1 IH]; simpl; lia. Qed.

Lemma sum_b2z_bounds (bs : list bool) :
  0 <= sum_Z (map Z.b2z bs) <= Z.of_nat (length bs).
Proof.
  unfold sum_Z. induction bs as [|b bs IH]; simpl length; simpl fold_right.
  - lia.
  - destruct b; simpl Z.b2z; lia.
Qed.

Lemma sum_b2z_full (bs : list bool) :
  sum_Z (map Z.b2z bs) = Z.of_nat (length bs) <-> Forall (fun b => b = true) bs.
Proof.
  induction bs as [|b bs IH].
  - split; [constructor | reflexivity].
  - pose proof (sum_b2z_bounds bs) as Hb.
    change (sum_Z (map Z.b2z (b :: bs))) with (Z.b2z b + sum_Z (map Z.b2z bs)).
    simpl length. split.
    + intros H. destruct b; simpl Z.b2z in H.
      * constructor; [reflexivity | apply IH; lia].
      * lia.
    + intros H. inversion H as [|? ? Hb1 Hrest]; subst. simpl Z.b2z.
      apply IH in Hrest. lia.
Qed.

Lemma collect_member {A B : Type} (f : A -> result B) (l : list A) (bs : list B) (b : B) :
  collect f l = Ok bs -> b ∈ bs -> exists a, a ∈ l /\ f a = Ok b.
Proof.
  revert bs. induction l as [|a l IH]; intros bs H Hb; simpl in H.
  - injection H as <-. inversion Hb.
  - destruct (f a) as [b0|] eqn:Ha; simpl in H; [|discriminate].
    destruct (collect f l) as [bs0|]; simpl in H; [|discriminate].
    injection H as <-. apply elem_of_cons in Hb as [->|Hb].
    + exists a. split; [left | exact Ha].
    + destruct (IH bs0 eq_refl Hb) as (a' & Ha' & Hfa'). exists a'. split; [right|]; assumption.
Qed.

Lemma collect_image {A B : Type} (f : A -> result B) (l : list A) (bs : list B) (a : A) :
  collect f l = Ok bs -> a ∈ l -> exists b, f a = Ok b /\ b ∈ bs.
Proof.
  revert bs. induction l as [|a0 l IH]; intros bs H Ha; simpl in H; [inversion Ha|].
  destruct (f a0) as [b0|] eqn:Ha0; simpl in H; [|discriminate].
  destruct (collect f l) as [bs0|]; simpl in H; [|discriminate].
  injection H as <-. apply elem_of_cons in Ha as [->|Ha].
  - exists b0. split; [exact Ha0 | left].
  - destruct (IH bs0 eq_refl Ha) as (b & Hb & Hin). exists b. split; [exact Hb | right; exact Hin].
Qed.

Lemma collect_succeeds {A B : Type} (f : A -> result B) (l : list A) :
  (forall a, a ∈ l -> exists b, f a = Ok b) -> exists bs, collect f l = Ok bs.
Proof.
  induction l as [|a l IH]; intros H; simpl; [eexists; reflexivity|].
  destruct (H a) as [b Hb]; [left|]. rewrite Hb. simpl.
  destruct IH as [bs Hbs]; [intros a' Ha'; apply H; right; exact Ha'|].
  rewrite Hbs. simpl. eexists; reflexivity.
Qed.

Lemma fetch1_singleton {A : Type} (rows : list A) (x : A) :
  fetch1 rows = Ok x <-> rows = [x].
Proof.
  unfold fetch1. destruct rows as [|y [|z rows]]; split; intros H; try discriminate.
  - injection H as ->. reflexivity.
  - injection H as ->. reflexivity.
Qed.

Lemma elem_of_filter_rows {A : Type} (p : A -> bool) (l : list A) (x : A) :
  x ∈ List.filter p l <-> x ∈ l /\ p x = true.
Proof. rewrite !list_elem_of_In. apply filter_In. Qed.

Lemma fetch_team_name_spec (d : db) (k : run_key) (team : string) :
  fetch_team_name d k = Ok team
  <-> exists p, List.filter (fun r => bool_decide (ssp_key r = k)) (SpikeSortingParameters d)
                = [p] /\ team_name p = team.
Proof.
  unfold fetch_team_name. split.
  - destruct (fetch1 _) as [p|] eqn:Hp; simpl; [|discriminate].
    intros H. injection H as <-. apply fetch1_singleton in Hp. exists p. auto.
  - intros (p & Hf & <-). rewrite Hf. reflexivity.
Qed.

Lemma fetch_datajoint_user_name_spec (d : db) (m user : string) :
  fetch_datajoint_user_name d m = Ok user
  <-> exists i, List.filter (fun r => bool_decide (lab_member_name r = m)) (LabMemberInfo d)
                = [i] /\ datajoint_user_name i = user.
Proof.
  unfold fetch_datajoint_user_name. split.
  - destruct (fetch1 _) as [i|] eqn:Hi; simpl; [|discriminate].
    intros H. injection H as <-. apply fetch1_singleton in Hi. exists i. auto.
  - intros (i & Hf & <-). rewrite Hf. reflexivity.
Qed.

(** What the gate resolves are members of the owning team. *)
Lemma listed_sound (d : db) (user : string) (k : run_key) :
  listed_by_gate d user k -> requester_in_team d user k.
Proof.
  intros (names & Hr & Hin). unfold resolve_datajoint_user_names in Hr.
  destruct (fetch_team_name d k) as [team|] eqn:Ht; simpl in Hr; [|discriminate].
  apply fetch_team_name_spec in Ht as (p & Hp & <-).
  destruct (collect_member _ _ _ _ Hr Hin) as (mn & Hmn & Hdj).
  unfold fetch_lab_member_names in Hmn.
  apply list_elem_of_fmap in Hmn as (m & -> & Hm).
  apply elem_of_filter_rows in Hm as [Hm Hteam]. apply bool_decide_eq_true in Hteam.
  apply fetch_datajoint_user_name_spec in Hdj as (i & Hi & Hu).
  assert (Hi' : i ∈ List.filter (fun r => bool_decide (lab_member_name r = ltm_lab_member_name m))
                               (LabMemberInfo d)) by (rewrite Hi; left).
  apply elem_of_filter_rows in Hi' as [Hi' Hname]. apply bool_decide_eq_true in Hname.
  assert (Hp' : p ∈ List.filter (fun r => bool_decide (ssp_key r = k))
                               (SpikeSortingParameters d)) by (rewrite Hp; left).
  apply elem_of_filter_rows in Hp' as [Hp' Hkey]. apply bool_decide_eq_true in Hkey.
  exists (team_name p). split.
  - exists p. auto.
  - exists m, i. auto.
Qed.

(** On tables that resolve, the gate's list is defined. *)
Lemma resolvable_resolves (d : db) (k : run_key) :
  resolvable d k -> exists names, resolve_datajoint_user_names d k = Ok names.
Proof.
  intros [(p & Hp) Hinfo]. unfold resolve_datajoint_user_names.
  rewrite (proj2 (fetch_team_name_spec d k (team_name p))) by (exists p; auto). simpl.
  apply collect_succeeds. intros mn Hmn.
  unfold fetch_lab_member_names in Hmn.
  apply list_elem_of_fmap in Hmn as (m & -> & Hm).
  apply elem_of_filter_rows in Hm as [Hm Hteam]. apply bool_decide_eq_true in Hteam.
  assert (Hp' : p ∈ List.filter (fun r => bool_decide (ssp_key r = k))
                               (SpikeSortingParameters d)) by (rewrite Hp; left).
  apply elem_of_filter_rows in Hp' as [Hp' Hkey]. apply bool_decide_eq_true in Hkey.
  destruct (Hinfo m Hm) as [i Hi]; [exists p; auto|].
  exists (datajoint_user_name i). apply fetch_datajoint_user_name_spec. exists i. auto.
Qed.

(** On tables that resolve, every member of the owning team is on the
    gate's list. *)
Lemma listed_complete (d : db) (user : string) (k : run_key) :
  resolvable d k -> requester_in_team d user k -> listed_by_gate d user k.
Proof.
  intros Hres (team & (p' & Hp'in & Hp'key & Hp'team) & (m & i & Hm & Hmteam & Hi & Hiname & Hu)).
  destruct (resolvable_resolves d k Hres) as [names Hr].
  exists names. split; [exact Hr|].
  destruct Hres as [(p & Hp) Hinfo].
  unfold resolve_datajoint_user_names in Hr.
  rewrite (proj2 (fetch_team_name_spec d k (team_name p))) in Hr by (exists p; auto).
  simpl in Hr.
  assert (Hsame : p' = p).
  { assert (H : p' ∈ List.filter (fun r => bool_decide (ssp_key r = k))
                                 (SpikeSortingParameters d)).
    { apply elem_of_filter_rows. split; [exact Hp'in | apply bool_decide_eq_true; exact Hp'key]. }
    rewrite Hp in H. apply list_elem_of_singleton in H. exact H. }
  subst p'.
  assert (Hmn : ltm_lab_member_name m ∈ fetch_lab_member_names d (team_name p)).
  { unfold fetch_lab_member_names. apply list_elem_of_fmap. exists m. split; [reflexivity|].
    apply elem_of_filter_rows. split; [exact Hm|]. apply bool_decide_eq_true. congruence. }
  destruct (collect_image _ _ _ _ Hr Hmn) as (b & Hb & Hbin).
  apply fetch_datajoint_user_name_spec in Hb as (i' & Hi' & Hb).
  assert (Hii : i ∈ List.filter (fun r => bool_decide (lab_member_name r = ltm_lab_member_name m))
                               (LabMemberInfo d)).
  { apply elem_of_filter_rows. split; [exact Hi | apply bool_decide_eq_true; exact Hiname]. }
  rewrite Hi' in Hii. apply list_elem_of_singleton in Hii. subst i'. congruence.
Qed.

Section Gate.
Context {E : Type} (key_of : E -> run_key).

Lemma entry_permission_ok d user (e : E) names :
  resolve_datajoint_user_names d (key_of e) = Ok names ->
  entry_permission key_of d user e = Ok (bool_decide (user ∈ names)).
Proof. intros H. unfold entry_permission. rewrite H. reflexivity. Qed.

Lemma entry_permission_raise d user (e : E) err :
  resolve_datajoint_user_names d (key_of e) = Raise err ->
  entry_permission key_of d user e = Raise err.
Proof. intros H. unfold entry_permission. rewrite H. reflexivity. Qed.

Lemma permission_loop_collect d user (todo : list E) :
  forall (finished : list E) (bs : list bool),
    length bs = length finished ->
    permission_loop key_of d user (finished ++ todo)
      (seq (length finished) (length todo))
      (map Z.b2z bs ++ replicate (length todo) 0)
    = bs' ← collect (entry_permission key_of d user) todo; Ok (map Z.b2z (bs ++ bs')).
Proof.
  induction todo as [|e todo IH]; intros finished bs Hlen.
  - simpl. rewrite !app_nil_r. reflexivity.
  - simpl seq. simpl permission_loop.
    rewrite lookup_app_r by lia. rewrite Nat.sub_diag. simpl lookup.
    simpl collect.
    destruct (resolve_datajoint_user_names d (key_of e)) as [names|err] eqn:Hr;
      [rewrite (entry_permission_ok _ _ _ _ Hr), ?Hr
      |rewrite (entry_permission_raise _ _ _ _ Hr), ?Hr; reflexivity].
    simpl.
    replace (<[length finished:=Z.b2z (bool_decide (user ∈ names))]>
               (map Z.b2z bs ++ 0 :: replicate (length todo) 0))
      with (map Z.b2z (bs ++ [bool_decide (user ∈ names)]) ++ replicate (length todo) 0).
    2:{ rewrite map_app. simpl map. rewrite <- app_assoc. simpl.
        rewrite insert_app_r_alt by (rewrite length_map; lia).
        rewrite length_map, Hlen, Nat.sub_diag. reflexivity. }
    specialize (IH (finished ++ [e]) (bs ++ [bool_decide (user ∈ names)])).
    rewrite <- app_assoc in IH. simpl app in IH.
    rewrite !length_app in IH. simpl length in IH.
    replace (length finished + 1)%nat with (S (length finished)) in IH by lia.
    rewrite IH by lia.
    destruct (collect (entry_permission key_of d user) todo) as [bs'|err]; simpl; [|reflexivity].
    rewrite <- app_assoc. reflexivity.
Qed.

Lemma collect_length {A B : Type} (f : A -> result B) (l : list A) (bs : list B) :
  collect f l = Ok bs -> length bs = length l.
Proof.
  revert bs. induction l as [|a l IH]; intros bs H; simpl in H.
  - injection H as <-. reflexivity.
  - destruct (f a) as [b|]; simpl in H; [|discriminate].
    destruct (collect f l) as [bs0|]; simpl in H; [|discriminate].
    injection H as <-. simpl. f_equal. apply IH. reflexivity.
Qed.

Lemma collect_all_true d user (entries : list E) :
  (exists bs, collect (entry_permission key_of d user) entries = Ok bs
              /\ Forall (fun b => b = true) bs)
  <-> Forall (fun e => listed_by_gate d user (key_of e)) entries.
Proof.
  induction entries as [|e entries IH].
  - split; [constructor | exists []; split; [reflexivity | constructor]].
  - simpl collect. split.
    + intros (bs & Hc & Hall).
      destruct (resolve_datajoint_user_names d (key_of e)) as [names|err] eqn:Hr;
        [rewrite (entry_permission_ok _ _ _ _ Hr) in Hc
        |rewrite (entry_permission_raise _ _ _ _ Hr) in Hc; discriminate].
      simpl in Hc.
      destruct (collect (entry_permission key_of d user) entries) as [bs0|]; simpl in Hc;
        [|discriminate].
      injection Hc as <-. inversion Hall as [|? ? Hb Hrest]; subst.
      constructor.
      * exists names. split; [exact Hr|]. apply bool_decide_eq_true in Hb. exact Hb.
      * apply IH. exists bs0. split; [reflexivity | exact Hrest].
    + intros H. inversion H as [|? ? (names & Hn & Hin) Hrest]; subst.
      apply IH in Hrest as (bs0 & Hc0 & Hall0).
      rewrite (entry_permission_ok _ _ _ _ Hn). simpl. rewrite Hc0. simpl.
      eexists. split; [reflexivity|].
      constructor; [apply bool_decide_eq_true; exact Hin | exact Hall0].
Qed.

Lemma check_permission_collect d user (entries : list E) :
  check_permission key_of d user entries
  = bs ← collect (entry_permission key_of d user) entries;
    Ok (sum_Z (map Z.b2z bs) =? Z.of_nat (length entries)).
Proof.
  unfold check_permission.
  pose proof (permission_loop_collect d user entries [] [] eq_refl) as H.
  simpl in H. rewrite H.
  destruct (collect (entry_permission key_of d user) entries); reflexivity.
Qed.

Lemma check_permission_granted d user (entries : list E) :
  check_permission key_of d user entries = Ok true
  <-> Forall (fun e => listed_by_gate d user (key_of e)) entries.
Proof.
  rewrite check_permission_collect, <- collect_all_true.
  destruct (collect (entry_permission key_of d user) entries) as [bs|err] eqn:Hc; simpl.
  - pose proof (collect_length _ _ _ Hc) as Hlen. rewrite <- Hlen. split.
    + intros H. exists bs. split; [reflexivity|].
      apply sum_b2z_full. injection H as H. apply Z.eqb_eq. exact H.
    + intros (bs' & Hbs & Hall). injection Hbs as <-.
      f_equal. apply Z.eqb_eq. apply sum_b2z_full. exact Hall.
  - split; [discriminate | intros (bs' & Hbs & _); discriminate].
Qed.
(** The permission check against the tables: approval implies that the
    requester is in the owning team of every entry; on tables that
    resolve, it is approval exactly then, and refusal otherwise. *)
Lemma gate_decides d user (entries : list E) :
  (check_permission key_of d user entries = Ok true ->
   Forall (fun e => requester_in_team d user (key_of e)) entries)
  /\ (Forall (fun e => resolvable d (key_of e)) entries ->
      (Forall (fun e => requester_in_team d user (key_of e)) entries ->
       check_permission key_of d user entries = Ok true)
      /\ (~ Forall (fun e => requester_in_team d user (key_of e)) entries ->
          check_permission key_of d user entries = Ok false)).
Proof.
  assert (Hsound : check_permission key_of d user entries = Ok true ->
                   Forall (fun e => requester_in_team d user (key_of e)) entries).
  { intros H. apply check_permission_granted in H.
    eapply Forall_impl; [exact H|]. intros e. apply listed_sound. }
  split; [exact Hsound|]. intros Hres.
  assert (Hdef : exists b, check_permission key_of d user entries = Ok b).
  { rewrite check_permission_collect.
    destruct (collect_succeeds (entry_permission key_of d user) entries) as [bs Hbs].
    - intros e He. rewrite Forall_forall in Hres.
      destruct (resolvable_resolves d (key_of e) (Hres e He)) as [names Hn].
      rewrite (entry_permission_ok _ _ _ _ Hn). eexists; reflexivity.
    - rewrite Hbs. simpl. eexists; reflexivity. }
  split.
  - intros Hall. apply check_permission_granted.
    rewrite Forall_forall in Hres, Hall. apply Forall_forall. intros e He.
    apply listed_complete; [apply Hres | apply Hall]; exact He.
  - intros Hnot. destruct Hdef as [[|] Hb]; [|exact Hb].
    exfalso. apply Hnot, Hsound, Hb.
Qed.
End Gate.

Lemma filter_none_selected {A : Type} (sel : A -> bool) (l : list A) :
  List.filter sel l = [] -> List.filter (fun r => negb (sel r)) l = l.
Proof.
  induction l as [|a l IH]; simpl; [reflexivity|].
  destruct (sel a); simpl; [discriminate|].
  intros H. f_equal. apply IH. exact H.
Qed.

Lemma cascade_nothing (l : list CuratedSpikeSorting_row) :
  List.filter (fun c => negb (depends_on [] c)) l = l.
Proof.
  assert (Hnone : forall c, negb (depends_on [] c) = true).
  { intros c. unfold depends_on. cbn [map].
    rewrite bool_decide_eq_false_2 by (intros H; inversion H). reflexivity. }
  induction l as [|c l IH]; [reflexivity|].
  cbn [List.filter]. rewrite Hnone, IH. reflexivity.
Qed.

(** C1 as stated fails when the tables do not resolve: alice is a
    member of the team that owns the sorting, but her team mate has no
    information row, [fetch1] raises and her delete does not go
    through. *)
Lemma member_refused_unresolved :
  let d := {| SpikeSortingParameters := [ {| ssp_key := sample_key 0; team_name := "alpha" |} ];
              LabTeamMember :=
                [ {| ltm_team_name := "alpha"; ltm_lab_member_name := "Alice A" |};
                  {| ltm_team_name := "alpha"; ltm_lab_member_name := "Carol C" |} ];
              LabMemberInfo :=
                [ {| lab_member_name := "Alice A"; google_user_name := "alice@lab";
                     datajoint_user_name := "alice" |} ];
              SpikeSorting := [sample_sorting 0];
              CuratedSpikeSorting := [] |} in
  requester_in_team d "alice" (ss_key (sample_sorting 0))
  /\ SpikeSorting_delete "alice" (fun _ => true) d = (Raise DataJointError, d).
Proof.
  cbv zeta. split; [|vm_compute; reflexivity].
  exists "alpha". split.
  - exists {| ssp_key := sample_key 0; team_name := "alpha" |}.
    split; [left | split; reflexivity].
  - exists {| ltm_team_name := "alpha"; ltm_lab_member_name := "Alice A" |},
           {| lab_member_name := "Alice A"; google_user_name := "alice@lab";
              datajoint_user_name := "alice" |}.
    repeat split; left.
Qed.

(** C1 as the code has it.  A permission-gated delete that goes
    through has found the requester among the members of the owning team
    of every candidate row, membership being read off the team tables.
    On tables that resolve (one parameter row per candidate key, one
    information row per member of its team) the delete goes through
    exactly when the requester is such a member for every candidate row,
    and is refused with the permission error otherwise.  An approved
    delete drops the candidate rows (and, for [SpikeSorting], the curated
    sortings that depend on them); any other outcome leaves every table
    as it was.  Both [SpikeSorting.delete] and
    [CuratedSpikeSorting.delete]. *)
Theorem delete_all_or_nothing (user : string) (d : db) :
  (forall sel : SpikeSorting_row -> bool,
      let entries := List.filter sel (SpikeSorting d) in
      let out := SpikeSorting_delete user sel d in
      (fst out = Ok tt -> Forall (fun e => requester_in_team d user (ss_key e)) entries)
      /\ (Forall (fun e => resolvable d (ss_key e)) entries ->
          (Forall (fun e => requester_in_team d user (ss_key e)) entries -> fst out = Ok tt)
          /\ (~ Forall (fun e => requester_in_team d user (ss_key e)) entries ->
              out = (Raise no_permission, d)))
      /\ (fst out = Ok tt ->
          snd out
          = {| SpikeSortingParameters := SpikeSortingParameters d;
               LabTeamMember := LabTeamMember d;
               LabMemberInfo := LabMemberInfo d;
               SpikeSorting := List.filter (fun r => negb (sel r)) (SpikeSorting d);
               CuratedSpikeSorting :=
                 List.filter (fun c => negb (bool_decide (css_key c ∈ map ss_key entries)))
                             (CuratedSpikeSorting d) |})
      /\ (fst out <> Ok tt -> snd out = d))
  /\
  (forall sel : CuratedSpikeSorting_row -> bool,
      let entries := List.filter sel (CuratedSpikeSorting d) in
      let out := CuratedSpikeSorting_delete user sel d in
      (fst out = Ok tt -> Forall (fun e => requester_in_team d user (css_key e)) entries)
      /\ (Forall (fun e => resolvable d (css_key e)) entries ->
          (Forall (fun e => requester_in_team d user (css_key e)) entries -> fst out = Ok tt)
          /\ (~ Forall (fun e => requester_in_team d user (css_key e)) entries ->
              out = (Raise no_permission, d)))
      /\ (fst out = Ok tt ->
          snd out
          = {| SpikeSortingParameters := SpikeSortingParameters d;
               LabTeamMember := LabTeamMember d;
               LabMemberInfo := LabMemberInfo d;
               SpikeSorting := SpikeSorting d;
               CuratedSpikeSorting :=
                 List.filter (fun r => negb (sel r)) (CuratedSpikeSorting d) |})
      /\ (fst out <> Ok tt -> snd out = d)).
Proof.
  split; intros sel; cbv zeta.
  - unfold SpikeSorting_delete.
    destruct (gate_decides ss_key d user (List.filter sel (SpikeSorting d)))
      as [Hsound Hdecide].
    destruct (check_permission ss_key d user (List.filter sel (SpikeSorting d)))
      as [[|]|err] eqn:Hc; simpl.
    + split; [intros _; apply Hsound; reflexivity|].
      split; [|split; [reflexivity | congruence]].
      intros Hres. destruct (Hdecide Hres) as [_ Hno].
      split; [reflexivity|]. intros Hnot. specialize (Hno Hnot). discriminate.
    + split; [discriminate|]. split; [|split; [discriminate | reflexivity]].
      intros Hres. destruct (Hdecide Hres) as [Hyes _].
      split; [intros Hall; specialize (Hyes Hall); discriminate | reflexivity].
    + split; [discriminate|]. split; [|split; [discriminate | reflexivity]].
      intros Hres. destruct (Hdecide Hres) as [Hyes Hno].
      split; [intros Hall; specialize (Hyes Hall); discriminate|].
      intros Hnot. specialize (Hno Hnot). discriminate.
  - unfold CuratedSpikeSorting_delete.
    destruct (gate_decides css_key d user (List.filter sel (CuratedSpikeSorting d)))
      as [Hsound Hdecide].
    destruct (check_permission css_key d user (List.filter sel (CuratedSpikeSorting d)))
      as [[|]|err] eqn:Hc; simpl.
    + split; [intros _; apply Hsound; reflexivity|].
      split; [|split; [reflexivity | congruence]].
      intros Hres. destruct (Hdecide Hres) as [_ Hno].
      split; [reflexivity|]. intros Hnot. specialize (Hno Hnot). discriminate.
    + split; [discriminate|]. split; [|split; [discriminate | reflexivity]].
      intros Hres. destruct (Hdecide Hres) as [Hyes _].
      split; [intros Hall; specialize (Hyes Hall); discriminate | reflexivity].
    + split; [discriminate|]. split; [|split; [discriminate | reflexivity]].
      intros Hres. destruct (Hdecide Hres) as [Hyes Hno].
      split; [intros Hall; specialize (Hyes Hall); discriminate|].
      intros Hnot. specialize (Hno Hnot). discriminate.
Qed.

(** Alice deletes the sortings of her own team (sort groups 0 and 1):
    approved, and the curated sorting of group 0 goes with them.  Asking
    for all three sortings is refused, group 2 belonging to a team
    without her. *)
Lemma delete_all_or_nothing_witness :
  let own := fun r : SpikeSorting_row => bool_decide (sort_group_id (ss_key r) < 2) in
  Forall (fun e => resolvable curated_db (ss_key e))
         (List.filter own (SpikeSorting curated_db))
  /\ Forall (fun e => requester_in_team curated_db "alice" (ss_key e))
            (List.filter own (SpikeSorting curated_db))
  /\ fst (SpikeSorting_delete "alice" own curated_db) = Ok tt
  /\ SpikeSorting (snd (SpikeSorting_delete "alice" own curated_db)) = [sample_sorting 2]
  /\ CuratedSpikeSorting (snd (SpikeSorting_delete "alice" own curated_db))
     = [sample_curated 2]
  /\ SpikeSorting_delete "alice" (fun _ => true) curated_db
     = (Raise no_permission, curated_db).
Proof.
  cbv zeta.
  assert (Hresolve : forall g, resolvable curated_db (sample_key g) \/ ~ (0 <= g <= 2)).
  { intros g. destruct (decide (g = 0)) as [->|H0]; [|destruct (decide (g = 1)) as [->|H1];
      [|destruct (decide (g = 2)) as [->|H2]; [|right; lia]]];
      left; (split; [eexists; vm_compute; reflexivity|]);
      intros m Hm _; apply list_elem_of_In in Hm; simpl in Hm;
      destruct Hm as [<-|[<-|[<-|[]]]]; eexists; vm_compute; reflexivity. }
  assert (Hres : forall g, 0 <= g <= 2 -> resolvable curated_db (sample_key g)).
  { intros g Hg. destruct (Hresolve g) as [H|H]; [exact H | contradiction]. }
  assert (Halice : forall g, g = 0 \/ g = 1 ->
                             requester_in_team curated_db "alice" (sample_key g)).
  { intros g Hg. exists "alpha". split.
    - exists {| ssp_key := sample_key g; team_name := "alpha" |}.
      split; [|split; reflexivity].
      apply list_elem_of_In. destruct Hg as [-> | ->]; simpl; auto.
    - exists {| ltm_team_name := "alpha"; ltm_lab_member_name := "Alice A" |},
             {| lab_member_name := "Alice A"; google_user_name := "alice@lab";
                datajoint_user_name := "alice" |}.
      repeat split; apply list_elem_of_In; simpl; auto. }
  assert (Hown : Forall (fun e => resolvable curated_db (ss_key e))
                        (List.filter (fun r : SpikeSorting_row =>
                                        bool_decide (sort_group_id (ss_key r) < 2))
                                     (SpikeSorting curated_db))).
  { repeat constructor; apply Hres; lia. }
  assert (Hmem : Forall (fun e => requester_in_team curated_db "alice" (ss_key e))
                        (List.filter (fun r : SpikeSorting_row =>
                                        bool_decide (sort_group_id (ss_key r) < 2))
                                     (SpikeSorting curated_db))).
  { repeat constructor; apply Halice; auto. }
  split; [exact Hown|]. split; [exact Hmem|].
  destruct (proj1 (delete_all_or_nothing "alice" curated_db)
                  (fun r => bool_decide (sort_group_id (ss_key r) < 2)))
    as (_ & Hdecide & Hstate & _).
  destruct (Hdecide Hown) as [Hyes _]. specialize (Hyes Hmem).
  split; [exact Hyes|]. rewrite (Hstate Hyes).
  split; [reflexivity|]. split; [reflexivity|].
  destruct (proj1 (delete_all_or_nothing "alice" curated_db) (fun _ => true))
    as (_ & Hall & _).
  apply Hall.
  - repeat constructor; apply Hres; lia.
  - intros H. rewrite Forall_forall in H.
    destruct (H (sample_sorting 2))
      as (team & (p & Hp & Hk & Ht) & (m & i & Hm & Hmt & Hi & Hn & Hu)).
    { apply list_elem_of_In. simpl. auto. }
    apply list_elem_of_In in Hp. simpl in Hp.
    destruct Hp as [<-|[<-|[<-|[]]]]; try discriminate Hk.
    simpl in Ht. subst team.
    apply list_elem_of_In in Hm. simpl in Hm.
    destruct Hm as [<-|[<-|[<-|[]]]]; try discriminate Hmt.
    apply list_elem_of_In in Hi. simpl in Hi.
    destruct Hi as [<-|[<-|[]]]; [discriminate Hn | discriminate Hu].
Defined.

(** C9: on a selection with no entries the permission check passes
    vacuously (the sum over zero entries equals zero) and the delete
    goes through, whatever the team tables hold. *)
Theorem delete_empty_selection (user : string) (d : db)
        (ssel : SpikeSorting_row -> bool) (csel : CuratedSpikeSorting_row -> bool) :
  List.filter ssel (SpikeSorting d) = [] ->
  List.filter csel (CuratedSpikeSorting d) = [] ->
  check_permission ss_key d user (List.filter ssel (SpikeSorting d)) = Ok true
  /\ SpikeSorting_delete user ssel d = (Ok tt, d)
  /\ CuratedSpikeSorting_delete user csel d = (Ok tt, d)
  /\ (forall d' : db,
         SpikeSorting d' = SpikeSorting d ->
         CuratedSpikeSorting d' = CuratedSpikeSorting d ->
         fst (SpikeSorting_delete user ssel d') = Ok tt
         /\ fst (CuratedSpikeSorting_delete user csel d') = Ok tt).
Proof.
  intros Hs Hc.
  assert (Hss : forall d', SpikeSorting d' = SpikeSorting d ->
                           SpikeSorting_delete user ssel d' = (Ok tt, d')).
  { intros d' E. unfold SpikeSorting_delete. rewrite E, Hs. simpl.
    rewrite <- E, filter_none_selected by (rewrite E; exact Hs).
    rewrite cascade_nothing. destruct d'; reflexivity. }
  assert (Hcs : forall d', CuratedSpikeSorting d' = CuratedSpikeSorting d ->
                           CuratedSpikeSorting_delete user csel d' = (Ok tt, d')).
  { intros d' E. unfold CuratedSpikeSorting_delete. rewrite E, Hc. simpl.
    rewrite <- E, filter_none_selected by (rewrite E; exact Hc).
    destruct d'; reflexivity. }
  split; [rewrite Hs; reflexivity|].
  split; [apply Hss; reflexivity|].
  split; [apply Hcs; reflexivity|].
  intros d' E1 E2. rewrite (Hss d' E1), (Hcs d' E2). split; reflexivity.
Qed.

(** A table with one sorting whose team cannot be resolved (the team
    tables are empty), and a selection that matches nothing. *)
Lemma delete_empty_selection_witness :
  let d := {| SpikeSortingParameters := [];
              LabTeamMember := [];
              LabMemberInfo := [];
              SpikeSorting := [ArtifactStore.run "a.nwb"];
              CuratedSpikeSorting := [] |} in
  SpikeSorting_delete "alice" (fun _ => false) d = (Ok tt, d)
  /\ fst (SpikeSorting_delete "alice" (fun _ => true) d) = Raise DataJointError.
Proof.
  cbv zeta. split.
  - apply (delete_empty_selection "alice" _ (fun _ => false) (fun _ => false));
      reflexivity.
  - reflexivity.
Defined.

(** The batch of the specification: of three candidate rows one
    belongs to a team without alice, so her delete is refused and nothing
    is removed; bob is in every team and his delete removes all three. *)
Lemma delete_three_rows_example :
  SpikeSorting_delete "alice" (fun _ => true) sample_db = (Raise no_permission, sample_db)
  /\ fst (SpikeSorting_delete "bob" (fun _ => true) sample_db) = Ok tt
  /\ SpikeSorting (snd (SpikeSorting_delete "bob" (fun _ => true) sample_db)) = []
  /\ fst (SpikeSorting_delete "alice"
             (fun r => bool_decide (sort_group_id (ss_key r) < 2)) sample_db) = Ok tt.
Proof. repeat split; vm_compute; reflexivity. Qed.

End AccessProofs.

(** ** Identity and grouping service *)

Module GroupingProofs.
Import Grouping.

Lemma insert_unique_elem {A : Type} (ltb : A -> A -> bool) (x y : A) (l : list A) :
  y ∈ insert_unique ltb x l -> y = x \/ y ∈ l.
Proof.
  induction l as [|z l IH]; simpl.
  - intros H. apply list_elem_of_singleton in H. left. exact H.
  - destruct (ltb x z).
    + intros H. apply elem_of_cons in H. exact H.
    + destruct (ltb z x).
      * intros H. apply elem_of_cons in H as [->|H].
        -- right. left.
        -- destruct (IH H) as [->|Hin]; [left; reflexivity | right; right; exact Hin].
      * intros H. right. exact H.
Qed.

Lemma np_unique_elem {A : Type} (ltb : A -> A -> bool) (y : A) (l : list A) :
  y ∈ np_unique ltb l -> y ∈ l.
Proof.
  induction l as [|x l IH]; simpl.
  - intros H. exact H.
  - intros H. apply insert_unique_elem in H as [->|H]; [left | right; apply IH; exact H].
Qed.

(** Forming a group of at least one electrode always succeeds, equal
    references or not. *)
Lemma form_group_ok nwb e_group (members : list Electrode_row) st :
  members <> [] -> exists st', form_group nwb e_group members st = Ok st'.
Proof.
  intros Hne. destruct members as [|e members]; [congruence|].
  unfold form_group. simpl map. simpl np_max. simpl np_min. simpl.
  destruct (_ =? _); simpl; eexists; reflexivity.
Qed.

Lemma for_each_ok {A S : Type} (body : S -> A -> result S) (l : list A) :
  (forall a s, a ∈ l -> exists s', body s a = Ok s') ->
  forall s, exists s', for_each body l s = Ok s'.
Proof.
  induction l as [|a l IH]; intros Hbody s; simpl.
  - eexists; reflexivity.
  - destruct (Hbody a s) as [s1 H1]; [left|]. rewrite H1. simpl.
    apply IH. intros a' s' Hin. apply Hbody. right. exact Hin.
Qed.

Lemma filter_nonempty {A : Type} (p : A -> bool) (l : list A) (x : A) :
  x ∈ l -> p x = true -> List.filter p l <> [].
Proof.
  intros Hin Hp Hnil.
  assert (H : In x (List.filter p l)).
  { apply filter_In. split; [apply list_elem_of_In; exact Hin | exact Hp]. }
  rewrite Hnil in H. exact H.
Qed.

(** Neither grouping function can raise: the only [ValueError] in
    their text is never thrown. *)
Lemma grouping_never_raises (nwb : string) (d : db) :
  (exists d', set_group_by_shank nwb d = Ok d')
  /\ (exists d', set_group_by_electrode_group nwb d = Ok d').
Proof.
  split.
  - unfold set_group_by_shank.
    match goal with
    | |- exists d', (for_each ?body ?l ?s ≫= _) = _ =>
        assert (Hloop : exists st, for_each body l s = Ok st);
        [apply for_each_ok | destruct Hloop as [st Hst]]
    end.
    + intros e_group st Hg.
      apply np_unique_elem in Hg. apply list_elem_of_fmap in Hg as (e & -> & He).
      apply for_each_ok. intros shank st' Hs.
      apply np_unique_elem in Hs. apply list_elem_of_fmap in Hs as (e' & -> & He').
      apply form_group_ok.
      apply list_elem_of_In, filter_In in He' as [He' Hname].
      apply filter_nonempty with (x := e'); [apply list_elem_of_In; exact He'|].
      rewrite Hname. simpl. apply bool_decide_eq_true. reflexivity.
    + rewrite Hst. simpl. eexists; reflexivity.
  - unfold set_group_by_electrode_group.
    match goal with
    | |- exists d', (for_each ?body ?l ?s ≫= _) = _ =>
        assert (Hloop : exists st, for_each body l s = Ok st);
        [apply for_each_ok | destruct Hloop as [st Hst]]
    end.
    + intros e_group st Hg.
      apply np_unique_elem in Hg. apply list_elem_of_fmap in Hg as (e & -> & He).
      apply form_group_ok.
      apply filter_nonempty with (x := e); [exact He|].
      apply bool_decide_eq_true. reflexivity.
    + rewrite Hst. simpl. eexists; reflexivity.
Qed.

(** C2, on a session whose two electrodes share group and shank and
    name different references: both grouping functions return
    normally and persist sort group 0 with the default reference [-1]
    and both electrodes. *)
Theorem set_group_mismatched_session :
  (exists e1 e2, e1 ∈ Electrode mismatched_session /\ e2 ∈ Electrode mismatched_session
                 /\ inconsistent_reference e1 e2)
  /\ set_group_by_shank "s.nwb" mismatched_session
     = Ok {| Electrode := Electrode mismatched_session;
             SortGroup := [ {| sg_nwb_file_name := "s.nwb"; sg_sort_group_id := 0;
                               sort_reference_electrode_id := -1 |} ];
             SortGroupElectrode :=
               [ {| sge_nwb_file_name := "s.nwb"; sge_sort_group_id := 0;
                    sge_electrode_group_name := "0"; sge_electrode_id := 0 |};
                 {| sge_nwb_file_name := "s.nwb"; sge_sort_group_id := 0;
                    sge_electrode_group_name := "0"; sge_electrode_id := 1 |} ] |}
  /\ set_group_by_electrode_group "s.nwb" mismatched_session
     = set_group_by_shank "s.nwb" mismatched_session.
Proof.
  split; [|split; vm_compute; reflexivity].
  eexists _, _. split; [left|]. split; [right; left|].
  unfold inconsistent_reference. simpl. repeat split. discriminate.
Qed.

End GroupingProofs.

(** ** Recording preparation: interval resolution *)

Module PreparationProofs.
Import Preparation.

Lemma Qlt_bool_iff (a b : Q) : Qlt_bool a b = true <-> (a < b)%Q.
Proof.
  unfold Qlt_bool. rewrite negb_true_iff, <- not_true_iff_false, Qle_bool_iff.
  split; [apply Qnot_le_lt | apply Qlt_not_le].
Qed.

Lemma Qlt_bool_false (a b : Q) : Qlt_bool a b = false <-> (b <= a)%Q.
Proof.
  unfold Qlt_bool. rewrite negb_false_iff. apply Qle_bool_iff.
Qed.

Lemma below_none (v t : Q) (ts : list Q) :
  (v <= t)%Q -> Forall (Qle t) ts -> below v ts = 0%nat.
Proof.
  intros Hv Hall. unfold below. induction Hall as [|u ts Hu Hall IH]; simpl.
  - reflexivity.
  - assert (Hf : Qlt_bool u v = false).
    { apply Qlt_bool_false. apply Qle_trans with t; assumption. }
    rewrite Hf. exact IH.
Qed.

(** On an ascending array the scan finds numpy's insertion point: the
    number of entries below [v]. *)
Lemma searchsorted_below (ts : list Q) (v : Q) :
  StronglySorted Qle ts -> searchsorted ts v = Z.of_nat (below v ts).
Proof.
  intros Hs. induction Hs as [|t ts Hs IH Hall]; simpl.
  - reflexivity.
  - unfold below. simpl. destruct (Qlt_bool t v) eqn:Ht.
    + simpl length. fold (below v ts). rewrite IH. lia.
    + fold (below v ts). apply Qlt_bool_false in Ht.
      rewrite (below_none v t ts Ht) by exact Hall. reflexivity.
Qed.

Lemma below_split (lo hi : Q) (ts : list Q) :
  (lo <= hi)%Q ->
  (below hi ts
   = below lo ts
     + length (List.filter (fun t => Qle_bool lo t && Qlt_bool t hi) ts))%nat.
Proof.
  intros Hle. unfold below. induction ts as [|t ts IH]; simpl; [reflexivity|].
  destruct (Qlt_bool t lo) eqn:Hlo.
  - assert (Hhi : Qlt_bool t hi = true).
    { apply Qlt_bool_iff. apply Qlt_bool_iff in Hlo.
      apply Qlt_le_trans with lo; assumption. }
    assert (Hl : Qle_bool lo t = false).
    { apply not_true_iff_false. rewrite Qle_bool_iff.
      apply Qlt_not_le. apply Qlt_bool_iff. exact Hlo. }
    rewrite Hhi, Hl. simpl. rewrite IH. reflexivity.
  - assert (Hl : Qle_bool lo t = true).
    { apply Qle_bool_iff. apply Qlt_bool_false. exact Hlo. }
    rewrite Hl. simpl. destruct (Qlt_bool t hi); simpl; rewrite IH; lia.
Qed.

Lemma below_mono (lo hi : Q) (ts : list Q) :
  (hi <= lo)%Q -> (below hi ts <= below lo ts)%nat.
Proof.
  intros Hle. rewrite (below_split hi lo ts Hle). lia.
Qed.

Lemma inside_empty (lo hi : Q) (ts : list Q) :
  (hi <= lo)%Q ->
  List.filter (fun t => Qle_bool lo t && Qlt_bool t hi) ts = [].
Proof.
  intros Hle. induction ts as [|t ts IH]; simpl; [reflexivity|].
  destruct (Qle_bool lo t) eqn:Hl; simpl; [|exact IH].
  assert (Hh : Qlt_bool t hi = false).
  { apply Qlt_bool_false. apply Qle_bool_iff in Hl. apply Qle_trans with lo; assumption. }
  rewrite Hh. exact IH.
Qed.

(** The difference of the two indices is the number of samples in the
    interval, or not positive when the interval is reversed. *)
Lemma index_span (ts : list Q) (iv : Q * Q) :
  StronglySorted Qle ts ->
  let span := searchsorted ts (snd iv) - searchsorted ts (fst iv) in
  (span <= 1000 <-> samples_inside ts iv <= 1000).
Proof.
  intros Hs. cbv zeta. rewrite !searchsorted_below by exact Hs.
  unfold samples_inside. destruct iv as [lo hi]. simpl fst. simpl snd.
  destruct (Qlt_le_dec hi lo) as [Hrev|Hord].
  - apply Qlt_le_weak in Hrev.
    pose proof (below_mono lo hi ts Hrev). rewrite (inside_empty lo hi ts Hrev).
    simpl. lia.
  - rewrite (below_split lo hi ts Hord). lia.
Qed.

(** C5 as the code has it: on an ascending timestamp array the
    resolution fails when 1000 samples or fewer fall inside the
    interval and returns the two indices when more than 1000 do. *)
Theorem sort_indices_floor (ts : list Q) (iv : Q * Q) :
  StronglySorted Qle ts ->
  (samples_inside ts iv <= 1000 -> sort_indices ts iv = Raise AssertionError)
  /\ (1000 < samples_inside ts iv ->
      sort_indices ts iv = Ok (searchsorted ts (fst iv), searchsorted ts (snd iv))).
Proof.
  intros Hs. pose proof (index_span ts iv Hs) as Hspan. cbv zeta in Hspan.
  unfold sort_indices. split; intros H.
  - apply Hspan in H.
    destruct (Z.gtb_spec (searchsorted ts (snd iv) - searchsorted ts (fst iv)) 1000);
      [lia | reflexivity].
  - destruct (Z.gtb_spec (searchsorted ts (snd iv) - searchsorted ts (fst iv)) 1000);
      [reflexivity | lia].
Qed.

Lemma ramp_sorted_from (n k : nat) :
  StronglySorted Qle (map (fun i => inject_Z (Z.of_nat i)) (seq k n)).
Proof.
  revert k. induction n as [|n IH]; intros k; simpl; constructor.
  - apply IH.
  - apply Forall_forall. intros q Hq.
    apply list_elem_of_fmap in Hq as (i & -> & Hi).
    apply list_elem_of_In, in_seq in Hi.
    rewrite <- Zle_Qle. lia.
Qed.

Lemma ramp_sorted (n : nat) : StronglySorted Qle (ramp n).
Proof. apply ramp_sorted_from. Qed.

Lemma sort_indices_floor_witness :
  StronglySorted Qle (ramp 1500)
  /\ sort_indices (ramp 1500) (0, 1001)%Q = Ok (0, 1001)
  /\ sort_indices (ramp 1500) (0, 1000)%Q = Raise AssertionError.
Proof.
  split; [apply ramp_sorted|].
  destruct (sort_indices_floor (ramp 1500) (0, 1001)%Q (ramp_sorted 1500)) as [_ Hok].
  destruct (sort_indices_floor (ramp 1500) (0, 1000)%Q (ramp_sorted 1500)) as [Hfail _].
  split.
  - rewrite Hok; [vm_compute; reflexivity | vm_compute; reflexivity].
  - apply Hfail. vm_compute. discriminate.
Defined.

(** C5 as stated fails: with timestamps 0, 1, ..., 1499 and the sort
    interval [0, 999.5], exactly 1000 samples fall inside (end
    included or not) and the resolution raises. *)
Lemma sort_indices_exactly_1000 :
  samples_inside (ramp 1500) (0, 1999 # 2)%Q = 1000
  /\ samples_inside_closed (ramp 1500) (0, 1999 # 2)%Q = 1000
  /\ sort_indices (ramp 1500) (0, 1999 # 2)%Q = Raise AssertionError.
Proof. repeat split; vm_compute; reflexivity. Qed.

End PreparationProofs.

(** ** Artifact detection *)

Module ArtifactProofs.
Import Preparation Artifact.

Lemma searchsorted_range (ts : list Q) (v : Q) :
  0 <= searchsorted ts v <= Z.of_nat (length ts).
Proof.
  induction ts as [|t ts IH]; simpl searchsorted; simpl length; [lia|].
  destruct (Qlt_bool t v); lia.
Qed.

(** The recording handed on by [get_filtered_recording_extractor]
    carries exactly [get_num_frames()] timestamps. *)
Lemma extractor_frames ts iv fs ids filtered h r h' :
  get_filtered_recording_extractor ts iv fs ids filtered h = (Ok r, h') ->
  num_frames r = Z.of_nat (length (h' !!! _timestamps r)).
Proof.
  unfold get_filtered_recording_extractor, sort_indices.
  pose proof (searchsorted_range ts (fst iv)) as H0.
  pose proof (searchsorted_range ts (snd iv)) as H1.
  destruct (Z.gtb_spec (searchsorted ts (snd iv) - searchsorted ts (fst iv)) 1000)
    as [Hgt|Hle]; [|discriminate].
  intros H. injection H as <- <-. simpl. unfold heap, loc in *.
  rewrite lookup_total_insert_eq. unfold slice.
  rewrite length_take, length_drop. lia.
Qed.

Lemma np_index_past_end (a : list Q) : np_index a (Z.of_nat (length a)) = Raise IndexError.
Proof.
  unfold np_index.
  destruct (Z.ltb_spec (Z.of_nat (length a)) 0) as [Hneg|_]; [lia|].
  destruct (Z.ltb_spec (Z.of_nat (length a)) (Z.of_nat (length a))) as [Hlt|_]; [lia|].
  rewrite andb_false_r. reflexivity.
Qed.

Lemma np_index_raises (a : list Q) (i : Z) (e : exn) :
  np_index a i = Raise e -> e = IndexError.
Proof.
  unfold np_index. destruct (_ && _); [destruct (a !! _)|]; congruence.
Qed.

(** A recording as the preparation stage hands it on, probed with
    both thresholds off, always fails on the read past the end. *)
Lemma prepared_recording_index_error
      (zscore : list Q -> list Q) (gvi : list Q -> Q -> Q -> Q -> list (Q * Q))
      ts iv fs ids filtered h r h' p zero_window_len skip :
  get_filtered_recording_extractor ts iv fs ids filtered h = (Ok r, h') ->
  get_no_artifact_times zscore gvi r (-1) (-1) p zero_window_len skip h'
  = (Raise IndexError, h').
Proof.
  intros Hr. apply extractor_frames in Hr.
  unfold get_no_artifact_times. simpl andb. cbv iota.
  rewrite Hr, np_index_past_end.
  destruct (np_index (h' !!! _timestamps r) 0) as [t|e] eqn:H0; [reflexivity|].
  apply np_index_raises in H0 as ->. reflexivity.
Qed.

(** C7, what the code does: with both thresholds non-positive, on a
    recording that carries one timestamp per frame, the second read
    [recording._timestamps[recording.get_num_frames()]] is one past the
    end, so the call raises [IndexError] instead of returning the first
    and last timestamps. *)
Theorem no_threshold_index_error
        (zscore : list Q -> list Q) (get_valid_intervals : list Q -> Q -> Q -> Q -> list (Q * Q))
        (recording : Recording) (zscore_thresh amplitude_thresh p zero_window_len : Q)
        (skip : bool) (h : heap) :
  (zscore_thresh <= 0)%Q -> (amplitude_thresh <= 0)%Q ->
  num_frames recording = Z.of_nat (length (h !!! _timestamps recording)) ->
  get_no_artifact_times zscore get_valid_intervals recording
                        zscore_thresh amplitude_thresh p zero_window_len skip h
  = (Raise IndexError, h).
Proof.
  intros Hz Ha Hn. unfold get_no_artifact_times.
  apply Qle_bool_iff in Hz, Ha. rewrite Hz, Ha. simpl andb. cbv iota.
  rewrite Hn, np_index_past_end.
  destruct (np_index (h !!! _timestamps recording) 0) as [t|e] eqn:H0; [reflexivity|].
  apply np_index_raises in H0 as ->. reflexivity.
Qed.

(** Three frames stamped 10, 20, 30 and the default thresholds. *)
Lemma no_threshold_index_error_witness :
  let h : heap := {[ 0%nat := [10; 20; 30]%Q ]} in
  let recording := {| _timestamps := 0%nat; num_frames := 3; sampling_frequency := 30000;
                      channel_ids := [0]; traces := [[0; 0; 0]%Q] |} in
  get_no_artifact_times (fun row => row) (fun _ _ _ _ => []) recording
                        (-1) (-1) 1 1 true h
  = (Raise IndexError, h).
Proof.
  cbv zeta.
  apply (no_threshold_index_error (fun row => row) (fun _ _ _ _ => [])).
  - vm_compute. discriminate.
  - vm_compute. discriminate.
  - vm_compute. reflexivity.
Defined.

(** C10, what the code does: with a threshold enabled the call reads
    the local [data] before it is assigned and raises
    [UnboundLocalError]; the store, and with it the recording's
    timestamp array, is left as it was. *)
Theorem threshold_enabled_raises_unbound
        (zscore : list Q -> list Q) (get_valid_intervals : list Q -> Q -> Q -> Q -> list (Q * Q))
        (recording : Recording) (zscore_thresh amplitude_thresh p zero_window_len : Q)
        (skip : bool) (h : heap) :
  threshold_enabled zscore_thresh amplitude_thresh ->
  get_no_artifact_times zscore get_valid_intervals recording
                        zscore_thresh amplitude_thresh p zero_window_len skip h
  = (Raise UnboundLocalError, h).
Proof.
  intros Hen. unfold get_no_artifact_times.
  assert (Hc : Qle_bool zscore_thresh 0 && Qle_bool amplitude_thresh 0 = false).
  { apply andb_false_iff. destruct Hen as [Hz|Ha]; [left|right];
      apply not_true_iff_false; rewrite Qle_bool_iff; apply Qlt_not_le; assumption. }
  rewrite Hc. reflexivity.
Qed.

(** Five frames, z-score threshold 3. *)
Lemma threshold_enabled_raises_unbound_witness :
  let h : heap := {[ 0%nat := [0; 1; 2; 3; 4]%Q ]} in
  let recording := {| _timestamps := 0%nat; num_frames := 5; sampling_frequency := 1;
                      channel_ids := [0]; traces := [[0; 0; 9; 0; 0]%Q] |} in
  get_no_artifact_times (fun row => row) (fun _ _ _ _ => []) recording
                        3 (-1) 1 1 false h
  = (Raise UnboundLocalError, h)
  /\ h !!! _timestamps recording = [0; 1; 2; 3; 4]%Q.
Proof.
  cbv zeta. split.
  - apply (threshold_enabled_raises_unbound (fun row => row) (fun _ _ _ _ => [])).
    left. vm_compute. reflexivity.
  - vm_compute. reflexivity.
Defined.

(** The masking loop of lines 486-490, had it been reached, stops at
    the first crossing: the slice bounds are floats, numpy raises
    [TypeError] and nothing is written. *)
Lemma blank_windows_type_error (valid_timestamps : loc) (half_window_points : Q)
      (a : Z) (crossings : list Z) (h : heap) :
  blank_windows valid_timestamps half_window_points [] h = Ok h
  /\ blank_windows valid_timestamps half_window_points (a :: crossings) h = Raise TypeError.
Proof. split; reflexivity. Qed.

End ArtifactProofs.

(** ** Artifact store *)

Module ArtifactStoreProofs.
Import ArtifactStore.

Lemma child_name_spec (root q : path) (name : string) :
  child_name root q = Some name <-> q = root ++ [name].
Proof.
  revert q. induction root as [|r root IH]; intros q; simpl.
  - destruct q as [|c [|c' q]]; split; intros H; try discriminate; congruence.
  - destruct q as [|c q]; [split; discriminate|].
    destruct (bool_decide_reflect (r = c)) as [->|Hne].
    + rewrite IH. split; [intros ->; reflexivity | intros H; injection H as ->; reflexivity].
    + split; [discriminate | intros H; injection H as <- _; contradiction].
Qed.

Lemma elem_of_subdirs (root : path) (fs : gset path) (name : string) :
  name ∈ subdirs root fs <-> root ++ [name] ∈ fs.
Proof.
  unfold subdirs. rewrite list_elem_of_omap. split.
  - intros (q & Hq & Hc). apply child_name_spec in Hc as ->. apply elem_of_elements. exact Hq.
  - intros H. exists (root ++ [name]). split; [apply elem_of_elements; exact H|].
    apply child_name_spec. reflexivity.
Qed.

Lemma NoDup_omap_inj {A B : Type} (f : A -> option B) (l : list A) :
  (forall x y z, f x = Some z -> f y = Some z -> x = y) -> NoDup l -> NoDup (omap f l).
Proof.
  intros Hinj Hnd. induction Hnd as [|a l Ha Hnd IH]; simpl; [constructor|].
  destruct (f a) as [b|] eqn:Hfa; [|exact IH].
  constructor; [|exact IH].
  intros Hb. apply list_elem_of_omap in Hb as (a' & Ha' & Hfa').
  rewrite (Hinj a a' b Hfa Hfa') in Ha. contradiction.
Qed.

Lemma NoDup_subdirs (root : path) (fs : gset path) : NoDup (subdirs root fs).
Proof.
  apply NoDup_omap_inj; [|apply NoDup_elements].
  intros x y z Hx Hy. apply child_name_spec in Hx, Hy. congruence.
Qed.

Lemma rmtree_spec (p : path) (fs : gset path) :
  (p ∈ fs ->
   exists fs', rmtree p fs = Ok fs'
               /\ forall q, q ∈ fs' <-> q ∈ fs /\ ~ p `prefix_of` q)
  /\ (p ∉ fs -> rmtree p fs = Raise file_not_found).
Proof.
  unfold rmtree. split; intros H.
  - rewrite bool_decide_eq_true_2 by exact H. eexists. split; [reflexivity|].
    intros q. rewrite elem_of_filter. tauto.
  - rewrite bool_decide_eq_false_2 by exact H. reflexivity.
Qed.

(** Two children of one directory: one is below the other only if
    they are the same. *)
Lemma sibling_prefix (root : path) (n m : string) :
  (root ++ [n]) `prefix_of` (root ++ [m]) -> n = m.
Proof.
  intros H. apply prefix_app_inv in H. destruct H as [k Hk].
  simpl in Hk. injection Hk as -> _. reflexivity.
Qed.

(** Removing the children [names] of [cwd], all present: every
    removal succeeds, and what is left is what was not below one of
    them. *)
Lemma rmtree_each_spec (cwd : path) (names : list string) :
  forall fs : gset path,
    NoDup names -> (forall n, n ∈ names -> cwd ++ [n] ∈ fs) ->
    exists fs',
      rmtree_each cwd names fs = (Ok tt, fs')
      /\ forall q, q ∈ fs' <-> q ∈ fs /\ forall n, n ∈ names -> ~ (cwd ++ [n]) `prefix_of` q.
Proof.
  induction names as [|n names IH]; intros fs Hnd Hall; simpl.
  - exists fs. split; [reflexivity|]. intros q. split; [|tauto].
    intros H. split; [exact H|]. intros n Hn. inversion Hn.
  - apply NoDup_cons in Hnd as [Hfresh Hnd].
    destruct (proj1 (rmtree_spec (cwd ++ [n]) fs)) as (fs1 & Hrm & Hfs1); [apply Hall; left|].
    rewrite Hrm.
    destruct (IH fs1 Hnd) as (fs' & Hrun & Hfs').
    { intros m Hm. apply Hfs1. split; [apply Hall; right; exact Hm|].
      intros Hp. apply sibling_prefix in Hp. subst m. contradiction. }
    exists fs'. split; [exact Hrun|]. intros q. rewrite Hfs', Hfs1. split.
    + intros [[Hq Hn] Hrest]. split; [exact Hq|]. intros m Hm.
      apply elem_of_cons in Hm as [->|Hm]; [exact Hn | apply Hrest; exact Hm].
    + intros [Hq Hnone]. split; [split; [exact Hq | apply Hnone; left]|].
      intros m Hm. apply Hnone. right. exact Hm.
Qed.

(** Whatever happens, removal only removes, and only below a listed
    child of [cwd]. *)
Lemma rmtree_each_removes (cwd : path) (names : list string) :
  forall (fs : gset path) (q : path),
    (q ∈ snd (rmtree_each cwd names fs) -> q ∈ fs)
    /\ (q ∈ fs -> q ∉ snd (rmtree_each cwd names fs) ->
        exists n, n ∈ names /\ (cwd ++ [n]) `prefix_of` q).
Proof.
  induction names as [|n names IH]; intros fs q; simpl.
  - split; [tauto | intros H Hn; contradiction].
  - destruct (decide (cwd ++ [n] ∈ fs)) as [Hin|Hout].
    + destruct (proj1 (rmtree_spec (cwd ++ [n]) fs) Hin) as (fs1 & Hrm & Hfs1).
      rewrite Hrm. destruct (IH fs1 q) as [Hsub Hgone]. split.
      * intros H. apply Hsub, Hfs1 in H. tauto.
      * intros Hq Hnot. destruct (decide ((cwd ++ [n]) `prefix_of` q)) as [Hp|Hp].
        -- exists n. split; [left | exact Hp].
        -- destruct Hgone as (m & Hm & Hpm); [apply Hfs1; tauto | exact Hnot|].
           exists m. split; [right; exact Hm | exact Hpm].
    + rewrite (proj2 (rmtree_spec (cwd ++ [n]) fs) Hout). simpl.
      split; [tauto | intros H Hn; contradiction].
Qed.

Lemma cleanup_loop_filtered (root : path) (live names : list string) :
  forall fs : gset path,
    cleanup_loop root live names fs
    = rmtree_each root (List.filter (fun n => negb (bool_decide (n ∈ live))) names) fs.
Proof.
  induction names as [|n names IH]; intros fs; simpl; [reflexivity|].
  destruct (bool_decide (n ∈ live)); simpl; [apply IH|].
  destruct (rmtree (root ++ [n]) fs); [apply IH | reflexivity].
Qed.

Lemma orphans_spec (root : path) (live : list string) (fs : gset path) (n : string) :
  n ∈ List.filter (fun n => negb (bool_decide (n ∈ live))) (subdirs root fs)
  <-> root ++ [n] ∈ fs /\ n ∉ live.
Proof.
  rewrite list_elem_of_In, filter_In, <- list_elem_of_In, elem_of_subdirs.
  rewrite negb_true_iff, bool_decide_eq_false. tauto.
Qed.

Lemma NoDup_orphans (root : path) (live : list string) (fs : gset path) :
  NoDup (List.filter (fun n => negb (bool_decide (n ∈ live))) (subdirs root fs)).
Proof. apply NoDup_ListNoDup, List.NoDup_filter, NoDup_ListNoDup, NoDup_subdirs. Qed.

(** C8: the cleanup of an existing storage root succeeds; it keeps
    exactly the subdirectories whose name is an analysis file name of the
    table and removes the others with everything below them; every
    directory that is not inside a removed subdirectory, under the root
    or elsewhere, is left as it was. *)
Theorem nightly_cleanup_removes_orphans
        (table : list Access.SpikeSorting_row) (root : path) (fs : gset path) :
  root ∈ fs ->
  exists fs',
    nightly_cleanup table root fs = (Ok tt, fs')
    /\ (forall name, root ++ [name] ∈ fs'
                     <-> root ++ [name] ∈ fs
                         /\ name ∈ map Access.ss_analysis_file_name table)
    /\ (forall name q, root ++ [name] ∈ fs ->
                       name ∉ map Access.ss_analysis_file_name table ->
                       (root ++ [name]) `prefix_of` q -> q ∉ fs')
    /\ (forall q, q ∈ fs'
                  <-> q ∈ fs
                      /\ forall name, root ++ [name] ∈ fs -> (root ++ [name]) `prefix_of` q ->
                                      name ∈ map Access.ss_analysis_file_name table).
Proof.
  intros Hroot. unfold nightly_cleanup. rewrite bool_decide_eq_true_2 by exact Hroot.
  rewrite cleanup_loop_filtered.
  set (live := map Access.ss_analysis_file_name table).
  destruct (rmtree_each_spec root
              (List.filter (fun n => negb (bool_decide (n ∈ live))) (subdirs root fs)) fs)
    as (fs' & Hrun & Hfs').
  { apply NoDup_orphans. }
  { intros n Hn. apply orphans_spec in Hn. tauto. }
  assert (Hchar : forall q, q ∈ fs'
                            <-> q ∈ fs
                                /\ forall name, root ++ [name] ∈ fs ->
                                                (root ++ [name]) `prefix_of` q -> name ∈ live).
  { intros q. rewrite Hfs'. split; intros [Hq Hall]; (split; [exact Hq|]).
    - intros name Hname Hp. destruct (decide (name ∈ live)) as [Hl|Hl]; [exact Hl|].
      exfalso. apply (Hall name); [apply orphans_spec; tauto | exact Hp].
    - intros n Hn Hp. apply orphans_spec in Hn as [Hn Hdead]. apply Hdead, (Hall n Hn Hp). }
  exists fs'. split; [exact Hrun|]. split; [|split; [|exact Hchar]].
  - intros name. rewrite Hchar. split.
    + intros [Hin Hall]. split; [exact Hin|]. apply (Hall name Hin). reflexivity.
    + intros [Hin Hlive]. split; [exact Hin|]. intros m _ Hp.
      apply sibling_prefix in Hp. subst m. exact Hlive.
  - intros name q Hin Hdead Hp Hq. apply Hchar in Hq as [_ Hall].
    apply Hdead, (Hall name Hin Hp).
Qed.

(** Live runs r1 and r3; directories r1 to r4 on disk, r2 with a
    subdirectory. *)
Lemma nightly_cleanup_removes_orphans_witness :
  ["store"] ∈ sample_store
  /\ exists fs',
      nightly_cleanup [run "r1"; run "r3"] ["store"] sample_store = (Ok tt, fs')
      /\ ["store"; "r1"] ∈ fs' /\ ["store"; "r3"] ∈ fs'
      /\ (["store"; "r2"] ∉ fs') /\ (["store"; "r2"; "sub"] ∉ fs')
      /\ (["store"; "r4"] ∉ fs')
      /\ ["home"; "notes"] ∈ fs'.
Proof.
  assert (Hroot : ["store"] ∈ sample_store)
    by (apply (bool_decide_unpack _); vm_compute; exact I).
  split; [exact Hroot|].
  destruct (nightly_cleanup_removes_orphans [run "r1"; run "r3"] ["store"] sample_store Hroot)
    as (fs' & Hrun & Hkeep & Hgone & Hframe).
  assert (Hin : forall q, bool_decide (q ∈ sample_store) = true -> q ∈ sample_store)
    by (intros q; apply bool_decide_eq_true).
  exists fs'. split; [exact Hrun|].
  split; [apply (Hkeep "r1"); split; [apply Hin; vm_compute; reflexivity | left]|].
  split; [apply (Hkeep "r3"); split; [apply Hin; vm_compute; reflexivity | right; left]|].
  assert (Hr2 : "r2" ∉ map Access.ss_analysis_file_name [run "r1"; run "r3"]).
  { simpl. intros H. apply list_elem_of_In in H. simpl in H.
    destruct H as [H|[H|[]]]; discriminate H. }
  assert (Hr4 : "r4" ∉ map Access.ss_analysis_file_name [run "r1"; run "r3"]).
  { simpl. intros H. apply list_elem_of_In in H. simpl in H.
    destruct H as [H|[H|[]]]; discriminate H. }
  split; [apply (Hgone "r2"); [apply Hin; vm_compute; reflexivity | exact Hr2 | reflexivity]|].
  split; [apply (Hgone "r2"); [apply Hin; vm_compute; reflexivity | exact Hr2
                              | exists ["sub"]; reflexivity]|].
  split; [apply (Hgone "r4"); [apply Hin; vm_compute; reflexivity | exact Hr4 | reflexivity]|].
  apply Hframe. split; [apply Hin; vm_compute; reflexivity|].
  intros name _ [k Hk]. discriminate Hk.
Defined.

(** The example of the specification, evaluated: of r1 to r4 only r2
    (with its subdirectory) and r4 go. *)
Lemma nightly_cleanup_example :
  nightly_cleanup [run "r1"; run "r3"] ["store"] sample_store
  = (Ok tt, {[ ["store"]; ["store"; "r1"]; ["store"; "r3"]; ["home"]; ["home"; "notes"] ]}).
Proof. vm_compute. reflexivity. Qed.

End ArtifactStoreProofs.

(** ** Curation stage *)

Module CurationProofs.
Import Curation.

Lemma filter_all {A : Type} (p : A -> bool) (l : list A) :
  (forall x, x ∈ l -> p x = true) -> List.filter p l = l.
Proof.
  induction l as [|a l IH]; intros H; simpl; [reflexivity|].
  rewrite (H a) by left. f_equal. apply IH. intros x Hx. apply H. right. exact Hx.
Qed.

(** On a list without repetition, [remove] is a filter. *)
Lemma list_remove_NoDup (x : Z) (l : list Z) :
  NoDup l -> x ∈ l -> list_remove x l = Ok (List.filter (outside [x]) l).
Proof.
  intros Hnd. induction Hnd as [|y l Hy Hnd IH]; intros Hin.
  - inversion Hin.
  - simpl. unfold outside at 1.
    destruct (bool_decide_reflect (y = x)) as [->|Hne].
    + rewrite bool_decide_eq_true_2 by left. simpl.
      f_equal. symmetry. apply filter_all. intros z Hz. unfold outside.
      apply negb_true_iff, bool_decide_eq_false_2. intros Hzx.
      apply list_elem_of_singleton in Hzx as ->. contradiction.
    + rewrite bool_decide_eq_false_2
        by (intros Hyx; apply list_elem_of_singleton in Hyx; contradiction).
      simpl. apply elem_of_cons in Hin as [->|Hin]; [congruence|].
      rewrite (IH Hin). reflexivity.
Qed.

Lemma list_remove_absent (x : Z) (l : list Z) :
  x ∉ l -> list_remove x l = Raise ValueError.
Proof.
  induction l as [|y l IH]; intros Hx; simpl; [reflexivity|].
  rewrite bool_decide_eq_false_2 by (intros ->; apply Hx; left).
  rewrite IH by (intros H; apply Hx; right; exact H). reflexivity.
Qed.

Lemma elem_of_filter_bool (p : Z -> bool) (l : list Z) (x : Z) :
  x ∈ List.filter p l <-> x ∈ l /\ p x = true.
Proof. rewrite !list_elem_of_In. apply filter_In. Qed.

Lemma filter_NoDup (p : Z -> bool) (l : list Z) : NoDup l -> NoDup (List.filter p l).
Proof.
  intros Hnd. induction Hnd as [|y l Hy Hnd IH]; simpl; [constructor|].
  destruct (p y); [|exact IH]. constructor; [|exact IH].
  intros H. apply Hy. apply elem_of_filter_bool in H as [H _]. exact H.
Qed.

Lemma outside_cons (c : Z) (cells : list Z) (a : Z) :
  outside [c] a && outside cells a = outside (c :: cells) a.
Proof.
  apply eq_true_iff_eq. unfold outside.
  rewrite andb_true_iff, !negb_true_iff, !bool_decide_eq_false.
  rewrite list_elem_of_singleton, elem_of_cons. tauto.
Qed.

Lemma filter_twice (p q : Z -> bool) (l : list Z) :
  List.filter q (List.filter p l) = List.filter (fun a => p a && q a) l.
Proof.
  induction l as [|a l IH]; simpl; [reflexivity|].
  destruct (p a); simpl; [destruct (q a); simpl; rewrite IH; reflexivity | exact IH].
Qed.

Lemma remove_cells_filter (cells : list Z) :
  forall acc : list Z,
    NoDup acc -> NoDup cells -> (forall c, c ∈ cells -> c ∈ acc) ->
    for_each (fun acc cell => list_remove cell acc) cells acc
    = Ok (List.filter (outside cells) acc).
Proof.
  induction cells as [|c cells IH]; intros acc Hacc Hcells Hsub; simpl.
  - f_equal. symmetry. apply filter_all. intros x _. unfold outside.
    apply negb_true_iff, bool_decide_eq_false_2. intros H. inversion H.
  - apply NoDup_cons in Hcells as [Hc Hcells].
    rewrite (list_remove_NoDup c acc Hacc) by (apply Hsub; left). simpl.
    rewrite IH.
    + f_equal. rewrite filter_twice. apply filter_ext. intros a. apply outside_cons.
    + apply filter_NoDup. exact Hacc.
    + exact Hcells.
    + intros c' Hc'. apply elem_of_filter_bool. split; [apply Hsub; right; exact Hc'|].
      unfold outside. apply negb_true_iff, bool_decide_eq_false_2.
      intros H. apply list_elem_of_singleton in H as ->. contradiction.
Qed.

Lemma issubset_spec (cells acc : list Z) :
  forallb (fun cell => bool_decide (cell ∈ acc)) cells = true
  <-> (forall c, c ∈ cells -> c ∈ acc).
Proof.
  rewrite forallb_forall. split.
  - intros H c Hc. apply list_elem_of_In in Hc. apply H in Hc.
    apply bool_decide_eq_true in Hc. exact Hc.
  - intros H c Hc. apply bool_decide_eq_true. apply H, list_elem_of_In. exact Hc.
Qed.

(** The accepted list built from the label dictionary has no
    repetition, and collapsing a group keeps it so. *)
Lemma accepted_by_label_NoDup (unit_labels : list (Z * list string)) :
  dict_wf unit_labels -> NoDup (accepted_by_label unit_labels).
Proof.
  unfold dict_wf, accepted_by_label, dict_keys.
  induction unit_labels as [|[u ls] d IH]; simpl; intros H; [constructor|].
  apply NoDup_cons in H as [Hu Hd].
  destruct (bool_decide _); simpl; [|apply IH; exact Hd].
  constructor; [|apply IH; exact Hd].
  intros Hin. apply Hu. apply list_elem_of_fmap in Hin as (kv & -> & Hkv).
  apply list_elem_of_In, filter_In in Hkv as [Hkv _].
  apply list_elem_of_fmap. exists kv. split; [reflexivity | apply list_elem_of_In; exact Hkv].
Qed.

(** The merge group of the specification, through the whole rule. *)
Lemma accepted_units_of_example :
  accepted_units_of
    {| labelsByUnit := [(1, ["accept"]); (2, ["accept"; "mua"]); (3, ["noise"])];
       mergeGroups := [[1; 2]] |}
  = Ok [1].
Proof. reflexivity. Qed.

(** A repeated non-primary id makes the second [remove] fail. *)
Lemma collapse_repeated_member :
  collapse_merge_group [1; 2] [1; 2; 2] = Raise ValueError.
Proof. reflexivity. Qed.

Lemma collapse_rule_NoDup (accepted m : list Z) :
  NoDup accepted -> NoDup (collapse_rule accepted m).
Proof.
  intros H. unfold collapse_rule. destruct (bool_decide _); [|exact H].
  apply filter_NoDup. exact H.
Qed.

(** One group: the loop of [remove] calls does what the rule says. *)
Lemma collapse_merge_group_rule (accepted m : list Z) :
  NoDup accepted -> NoDup (non_primary m) ->
  collapse_merge_group accepted m = Ok (collapse_rule accepted m).
Proof.
  intros Hacc Hm. unfold collapse_merge_group, collapse_rule.
  destruct (forallb _ (non_primary m)) eqn:Hf.
  - pose proof (proj1 (issubset_spec _ _) Hf) as Hsub.
    rewrite bool_decide_eq_true_2 by (apply Forall_forall; exact Hsub).
    rewrite (remove_cells_filter _ _ Hacc Hm Hsub). f_equal.
    apply filter_ext. intros u. unfold outside.
    destruct (decide (u ∈ non_primary m)) as [Hu|Hu].
    + rewrite bool_decide_eq_true_2 by exact Hu.
      rewrite bool_decide_eq_false_2 by (intros H; contradiction). reflexivity.
    + rewrite bool_decide_eq_false_2 by exact Hu.
      rewrite bool_decide_eq_true_2 by exact Hu. reflexivity.
  - rewrite bool_decide_eq_false_2; [reflexivity|].
    intros Hall. rewrite Forall_forall in Hall.
    apply (proj2 (issubset_spec _ _)) in Hall. congruence.
Qed.

(** All groups in order, each against the list the previous ones
    left. *)
Lemma remove_non_primary_rule (groups : list (list Z)) :
  forall accepted : list Z,
    NoDup accepted -> Forall (fun m => NoDup (non_primary m)) groups ->
    remove_non_primary groups accepted = Ok (fold_left collapse_rule groups accepted).
Proof.
  assert (Hloop : forall accepted : list Z,
             NoDup accepted -> Forall (fun m => NoDup (non_primary m)) groups ->
             for_each collapse_merge_group groups accepted
             = Ok (fold_left collapse_rule groups accepted)).
  { induction groups as [|m groups IH]; intros accepted Hacc Hgroups; [reflexivity|].
    apply Forall_cons in Hgroups as [Hm Hgroups]. simpl.
    rewrite (collapse_merge_group_rule accepted m Hacc Hm). simpl.
    apply IH; [apply collapse_rule_NoDup; exact Hacc | exact Hgroups]. }
  intros accepted Hacc Hgroups. unfold remove_non_primary.
  destruct groups; [reflexivity | apply Hloop; assumption].
Qed.

Lemma app_snoc_neq {A : Type} (l : list A) (x : A) : l <> l ++ [x].
Proof.
  intros H. apply (f_equal length) in H. rewrite length_app in H. simpl in H. lia.
Qed.

(** C3, as the code has it in [CuratedSpikeSorting.make].  With one
    sorting in the workspace, a label dictionary with distinct keys and
    merge groups whose non-primary ids are distinct, the accepted units
    after lines 1097-1101 are those the collapsing rule gives, the groups
    being taken in order and each against the units the earlier groups
    left; a file that [make] stores holds exactly the units of the
    curated sorting that are accepted in this sense; and the single
    group [[A, B]] with both accepted keeps [A] and drops just [B]. *)
Theorem merge_groups_collapse {M : Type}
        (compute_metrics : string -> string -> list Z -> list (Z * M))
        (create : string -> list string -> string)
        (k : make_key) (w : world M) (sid : string) :
  sorting_ids (ws k) = [sid] ->
  let labels := get_sorting_curation (ws k) sid in
  let by_label := accepted_by_label (labelsByUnit labels) in
  dict_wf (labelsByUnit labels) ->
  Forall (fun m => NoDup (non_primary m)) (mergeGroups labels) ->
  let accepted := fold_left collapse_rule (mergeGroups labels) by_label in
  remove_non_primary (mergeGroups labels) by_label = Ok accepted
  /\ (forall name content,
        AnalysisNwbfile (snd (make compute_metrics create k w))
        = AnalysisNwbfile w ++ [(name, content)] ->
        nu_units content
        = List.filter (fun u => bool_decide (u ∈ accepted)) (get_curated_unit_ids (ws k) sid))
  /\ (forall A B, mergeGroups labels = [[A; B]] -> A <> B ->
        A ∈ by_label -> B ∈ by_label ->
        A ∈ accepted /\ (B ∉ accepted)
        /\ forall u, u ∈ accepted <-> u ∈ by_label /\ u <> B).
Proof.
  intros Hsid labels by_label Hwf Hgroups accepted.
  assert (Hacc : remove_non_primary (mergeGroups labels) by_label = Ok accepted).
  { apply remove_non_primary_rule; [apply accepted_by_label_NoDup; exact Hwf | exact Hgroups]. }
  split; [exact Hacc|]. split.
  - intros name content. unfold make. rewrite Hsid.
    fold labels. fold by_label. rewrite Hacc.
    destruct (collect _ accepted) as [labels_concat|e]; [|intros H; apply app_snoc_neq in H as []].
    destruct (_ || _); [intros H; apply app_snoc_neq in H as []|].
    destruct (recording_ids (ws k)) as [|recording_id rest];
      [intros H; apply app_snoc_neq in H as []|].
    destruct (loc_rows _ accepted) as [metrics|e];
      [|intros H; apply app_snoc_neq in H as []].
    destruct (orig_units_rows k <? 2)%nat; [intros H; apply app_snoc_neq in H as []|].
    simpl. intros H. apply app_inv_head in H. injection H as _ <-. reflexivity.
  - intros A B Hm Hne HA HB.
    assert (Hchar : forall u, u ∈ accepted <-> u ∈ by_label /\ u <> B).
    { intros u. unfold accepted. rewrite Hm. simpl fold_left. unfold collapse_rule.
      change (non_primary [A; B]) with [B].
      rewrite bool_decide_eq_true_2 by (constructor; [exact HB | constructor]).
      rewrite elem_of_filter_bool, bool_decide_eq_true, list_elem_of_singleton. tauto. }
    split; [apply Hchar; split; assumption|].
    split; [intros H; apply Hchar in H as [_ H]; congruence | exact Hchar].
Qed.

(** Units 1 and 2 accepted with merge group [[1, 2]]: unit 1 alone is
    stored. *)
Lemma merge_groups_collapse_witness :
  sorting_ids (ws (key_for merged_pair)) = ["S1"]
  /\ dict_wf (labelsByUnit (get_sorting_curation merged_pair "S1"))
  /\ Forall (fun m => NoDup (non_primary m)) (mergeGroups (get_sorting_curation merged_pair "S1"))
  /\ remove_non_primary [[1; 2]] [1; 2] = Ok [1]
  /\ exists name content,
      AnalysisNwbfile (snd (make flat_metrics analysis_name (key_for merged_pair) empty_world))
      = [(name, content)]
      /\ nu_units content = [1].
Proof.
  assert (Hwf : dict_wf (labelsByUnit (get_sorting_curation merged_pair "S1")))
    by (apply (bool_decide_unpack _); reflexivity).
  assert (Hnd : Forall (fun m => NoDup (non_primary m))
                       (mergeGroups (get_sorting_curation merged_pair "S1"))).
  { repeat constructor. intros H. inversion H. }
  split; [reflexivity|]. split; [exact Hwf|]. split; [exact Hnd|].
  destruct (merge_groups_collapse flat_metrics analysis_name (key_for merged_pair) empty_world
                                  "S1" eq_refl Hwf Hnd) as (Hacc & Hunits & _).
  split; [exact Hacc|].
  assert (Hfile : exists name content,
             AnalysisNwbfile (snd (make flat_metrics analysis_name (key_for merged_pair)
                                        empty_world))
             = AnalysisNwbfile empty_world ++ [(name, content)])
    by (eexists _, _; vm_compute; reflexivity).
  destruct Hfile as (name & content & Hfile).
  exists name, content. split; [exact Hfile|].
  rewrite (Hunits name content Hfile). reflexivity.
Defined.

(** C3 as stated fails outside these conditions.  In [make], a merge
    group that repeats a non-primary id whose members are all accepted
    raises [ValueError] at the second [remove].  In
    [insert_manual_curation] there is no test of membership: for the
    group [[4, 2, 3]] with unit 2 unknown, [make] leaves the accepted
    units as they are, and [insert_manual_curation] raises [ValueError]
    and stores nothing. *)
Lemma merge_rule_not_universal :
  accepted_units_of {| labelsByUnit := [(1, ["accept"]); (2, ["accept"])];
                       mergeGroups := [[1; 2; 2]] |}
  = Raise ValueError
  /\ accepted_units_of {| labelsByUnit := [(1, ["accept"]); (3, ["accept"])];
                          mergeGroups := [[4; 2; 3]] |}
     = Ok [1; 3]
  /\ insert_manual_curation sorting_name "S_0"
       {| labelsByUnit := [(1, ["accept"]); (3, ["accept"])]; mergeGroups := [[4; 2; 3]] |}
       parent_metrics "" empty_store
     = (Raise ValueError, empty_store).
Proof. repeat split; vm_compute; reflexivity. Qed.

(** C6: when no accepted unit results, [make] returns normally and
    leaves the files, the tables and the engine log as they were. *)
Theorem make_no_accepted_units {M : Type}
        (compute_metrics : string -> string -> list Z -> list (Z * M))
        (create : string -> list string -> string)
        (k : make_key) (w : world M) :
  (forall sid, sorting_ids (ws k) = [sid] ->
               accepted_units_of (get_sorting_curation (ws k) sid) = Ok []) ->
  make compute_metrics create k w = (Ok tt, w).
Proof.
  intros Hempty. unfold make.
  destruct (sorting_ids (ws k)) as [|sid [|sid' rest]]; [reflexivity | | reflexivity].
  specialize (Hempty sid eq_refl). unfold accepted_units_of in Hempty.
  rewrite Hempty. simpl. rewrite orb_true_r. reflexivity.
Qed.

Lemma make_no_accepted_units_witness :
  (forall sid, sorting_ids (ws (key_for none_accepted)) = [sid] ->
               accepted_units_of (get_sorting_curation (ws (key_for none_accepted)) sid)
               = Ok [])
  /\ make flat_metrics analysis_name (key_for none_accepted) empty_world
     = (Ok tt, empty_world).
Proof.
  assert (H : forall sid, sorting_ids (ws (key_for none_accepted)) = [sid] ->
              accepted_units_of (get_sorting_curation (ws (key_for none_accepted)) sid)
              = Ok []) by (intros sid _; reflexivity).
  split; [exact H|].
  apply (make_no_accepted_units flat_metrics analysis_name (key_for none_accepted)
                                empty_world H).
Defined.

Lemma for_each_inv {A S : Type} (P : S -> Prop) (body : S -> A -> result S) (l : list A) :
  (forall s a s', P s -> body s a = Ok s' -> P s') ->
  forall s s', P s -> for_each body l s = Ok s' -> P s'.
Proof.
  intros Hstep. induction l as [|a l IH]; intros s s' Hs H; simpl in H.
  - injection H as <-. exact Hs.
  - destruct (body s a) as [s1|] eqn:Hb; simpl in H; [|discriminate].
    apply (IH s1 s'); [apply (Hstep s a s1 Hs Hb) | exact H].
Qed.

Lemma list_remove_subset (x : Z) (l l' : list Z) :
  list_remove x l = Ok l' -> forall u, u ∈ l' -> u ∈ l.
Proof.
  revert l'. induction l as [|y l IH]; intros l' H; simpl in H; [discriminate|].
  destruct (bool_decide (y = x)).
  - injection H as <-. intros u Hu. right. exact Hu.
  - destruct (list_remove x l) as [l0|]; simpl in H; [|discriminate].
    injection H as <-. intros u Hu.
    apply elem_of_cons in Hu as [->|Hu]; [left | right; apply (IH l0 eq_refl); exact Hu].
Qed.

(** Collapsing merge groups only ever shrinks the accepted list. *)
Lemma remove_non_primary_subset (groups : list (list Z)) (acc acc' : list Z) :
  remove_non_primary groups acc = Ok acc' -> forall u, u ∈ acc' -> u ∈ acc.
Proof.
  assert (Hgen : for_each collapse_merge_group groups acc = Ok acc' ->
                 forall u, u ∈ acc' -> u ∈ acc).
  { apply (for_each_inv (fun a => forall u, u ∈ a -> u ∈ acc)); [|auto].
    intros a m a' Ha Hm. unfold collapse_merge_group in Hm.
    destruct (forallb _ _).
    - revert Hm.
      apply (for_each_inv (fun b => forall u, u ∈ b -> u ∈ acc)); [|exact Ha].
      intros b c b' Hb Hc u Hu. apply Hb. apply (list_remove_subset c b b' Hc). exact Hu.
    - injection Hm as <-. exact Ha. }
  unfold remove_non_primary. destruct groups; [|exact Hgen].
  intros H. injection H as <-. auto.
Qed.






(** [insert_manual_curation] drops the non-primary unit of [[1, 2]]
    from the labels and leaves the metrics empty; a non-primary unit
    that has no label entry makes it fail. *)
Lemma insert_manual_curation_merge_example :
  let labels := {| labelsByUnit := [(1, ["accept"]); (2, ["accept"])];
                   mergeGroups := [[1; 2]] |} in
  (exists row,
      last (curated_sortings
              (snd (insert_manual_curation sorting_name "S_0" labels parent_metrics
                                           "" empty_store))) = Some row
      /\ labelsByUnit (cs_labels row) = [(1, ["accept"])]
      /\ cs_metrics row = [])
  /\ insert_manual_curation sorting_name "S_0"
       {| labelsByUnit := [(1, ["accept"])]; mergeGroups := [[1; 2]] |}
       parent_metrics "" empty_store
     = (Raise ValueError, empty_store).
Proof.
  cbv zeta. split; [|reflexivity].
  eexists. split; [reflexivity|]. split; reflexivity.
Qed.

End CurationProofs.

(** ** Grouping: what the two functions persist *)

Module GroupingTables.
Import Grouping.

Lemma for_each_app {A S : Type} (body : S -> A -> result S) (l1 l2 : list A) (s : S) :
  for_each body (l1 ++ l2) s = s' ← for_each body l1 s; for_each body l2 s'.
Proof.
  revert s. induction l1 as [|a l1 IH]; intros s; simpl; [reflexivity|].
  destruct (body s a) as [s1|e]; simpl; [apply IH | reflexivity].
Qed.

(** Nested loops run the flattened list of their bodies. *)
Lemma for_each_nested {A B S : Type} (inner : A -> list B) (body : A -> S -> B -> result S)
      (l : list A) (s : S) :
  for_each (fun s a => for_each (body a) (inner a) s) l s
  = for_each (fun s ab => body (fst ab) s (snd ab))
             (concat (map (fun a => map (fun b => (a, b)) (inner a)) l)) s.
Proof.
  revert s. induction l as [|a l IH]; intros s; simpl; [reflexivity|].
  rewrite for_each_app.
  assert (Hin : forall s0, for_each (body a) (inner a) s0
                = for_each (fun s ab => body (fst ab) s (snd ab))
                           (map (fun b => (a, b)) (inner a)) s0).
  { intros s0. revert s0. induction (inner a) as [|b bs IHb]; intros s0; simpl; [reflexivity|].
    destruct (body a s0 b); simpl; [apply IHb | reflexivity]. }
  rewrite Hin.
  destruct (for_each _ (map _ (inner a)) s) as [s1|e]; simpl; [apply IH | reflexivity].
Qed.

Lemma set_group_by_electrode_group_jobs (nwb : string) (d : db) :
  set_group_by_electrode_group nwb d
  = st ← run_jobs nwb (group_jobs (fetch_electrodes nwb (delete_groups nwb d)))
           {| sort_group := 0; sg_key_reference := None; tables := delete_groups nwb d |};
    Ok (tables st).
Proof.
  unfold set_group_by_electrode_group, run_jobs, group_jobs. cbv zeta.
  f_equal.
  generalize ({| sort_group := 0; sg_key_reference := None; tables := delete_groups nwb d |}).
  induction (np_unique String.ltb _) as [|g gs IH]; intros st; simpl; [reflexivity|].
  destruct (form_group _ _ _ _); simpl; [apply IH | reflexivity].
Qed.

Lemma for_each_map {A B S : Type} (f : A -> B) (body : S -> B -> result S)
      (l : list A) (s : S) :
  for_each body (map f l) s = for_each (fun s a => body s (f a)) l s.
Proof.
  revert s. induction l as [|a l IH]; intros s; simpl; [reflexivity|].
  destruct (body s (f a)); simpl; [apply IH | reflexivity].
Qed.

Lemma concat_map_pairs {A B C : Type} (inner : A -> list B) (F : A * B -> C) (l : list A) :
  concat (map (fun a => map (fun b => F (a, b)) (inner a)) l)
  = map F (concat (map (fun a => map (fun b => (a, b)) (inner a)) l)).
Proof.
  induction l as [|a l IH]; simpl; [reflexivity|].
  rewrite map_app, map_map, IH. reflexivity.
Qed.

Lemma shank_jobs_flat (electrodes : list Electrode_row) :
  shank_jobs electrodes
  = map (fun gs : string * Z =>
           (fst gs,
            List.filter (fun e => bool_decide (electrode_group_name e = fst gs)
                                  && bool_decide (probe_shank e = snd gs))
                        electrodes))
        (concat
           (map (fun g =>
                   map (fun shank => (g, shank))
                       (np_unique Z.ltb
                          (map probe_shank
                               (List.filter
                                  (fun e => bool_decide (electrode_group_name e = g))
                                  electrodes))))
                (np_unique String.ltb (map electrode_group_name electrodes)))).
Proof.
  unfold shank_jobs.
  induction (np_unique String.ltb _) as [|g gs IH]; simpl; [reflexivity|].
  rewrite map_app, map_map, IH. reflexivity.
Qed.

Lemma set_group_by_shank_jobs (nwb : string) (d : db) :
  set_group_by_shank nwb d
  = st ← run_jobs nwb (shank_jobs (fetch_electrodes nwb (delete_groups nwb d)))
           {| sort_group := 0; sg_key_reference := None; tables := delete_groups nwb d |};
    Ok (tables st).
Proof.
  unfold set_group_by_shank, run_jobs. cbv zeta.
  rewrite shank_jobs_flat, for_each_map.
  f_equal.
  set (electrodes := fetch_electrodes nwb (delete_groups nwb d)).
  apply (for_each_nested
           (fun e_group =>
              np_unique Z.ltb
                (map probe_shank
                     (List.filter (fun e => bool_decide (electrode_group_name e = e_group))
                                  electrodes)))
           (fun e_group st shank =>
              form_group nwb e_group
                (List.filter (fun e => bool_decide (electrode_group_name e = e_group)
                                       && bool_decide (probe_shank e = shank))
                             electrodes) st)).
Qed.

Lemma fold_insert_members nwb id g (ids : list Z) (d : db) :
  fold_left (insert1_SortGroupElectrode nwb id g) ids d
  = {| Electrode := Electrode d;
       SortGroup := SortGroup d;
       SortGroupElectrode :=
         SortGroupElectrode d
         ++ map (fun elect => {| sge_nwb_file_name := nwb; sge_sort_group_id := id;
                                 sge_electrode_group_name := g; sge_electrode_id := elect |})
                ids |}.
Proof.
  revert d. induction ids as [|i ids IH]; intros d; simpl.
  - rewrite app_nil_r. destruct d; reflexivity.
  - rewrite IH. simpl. rewrite <- app_assoc. reflexivity.
Qed.

(** One group formed: one [SortGroup] row with the running id, one
    member row per electrode, the counter advanced by one. *)
Lemma form_group_effect nwb g (members : list Electrode_row) (st st' : loop_state) :
  form_group nwb g members st = Ok st' ->
  sort_group st' = sort_group st + 1
  /\ Electrode (tables st') = Electrode (tables st)
  /\ (exists ref,
        SortGroup (tables st')
        = SortGroup (tables st)
          ++ [{| sg_nwb_file_name := nwb; sg_sort_group_id := sort_group st;
                 sort_reference_electrode_id := ref |}])
  /\ SortGroupElectrode (tables st')
     = SortGroupElectrode (tables st)
       ++ map (fun e => {| sge_nwb_file_name := nwb; sge_sort_group_id := sort_group st;
                           sge_electrode_group_name := g;
                           sge_electrode_id := electrode_id e |}) members.
Proof.
  unfold form_group.
  destruct (np_max _) as [hi|]; simpl; [|discriminate].
  destruct (np_min _) as [lo|]; simpl; [|discriminate].
  destruct (if hi =? lo then _ else _) as [ref|]; simpl; [|discriminate].
  intros H. injection H as <-. simpl.
  rewrite fold_insert_members. simpl. rewrite map_map.
  repeat split. eexists. reflexivity.
Qed.

(** What a run of jobs adds to the tables. *)
Lemma run_jobs_effect nwb (jobs : list (string * list Electrode_row)) :
  forall st st',
    run_jobs nwb jobs st = Ok st' ->
    sort_group st' = sort_group st + Z.of_nat (length jobs)
    /\ Electrode (tables st') = Electrode (tables st)
    /\ exists new_groups new_members,
        SortGroup (tables st') = SortGroup (tables st) ++ new_groups
        /\ SortGroupElectrode (tables st') = SortGroupElectrode (tables st) ++ new_members
        /\ Forall (fun r => sg_nwb_file_name r = nwb) new_groups
        /\ Forall (fun r => sge_nwb_file_name r = nwb) new_members
        /\ map sg_sort_group_id new_groups
           = map (fun i => sort_group st + Z.of_nat i) (seq 0 (length jobs))
        /\ map member_key new_members
           = concat (map (fun job => map (fun e => (fst job, electrode_id e)) (snd job)) jobs).
Proof.
  unfold run_jobs. induction jobs as [|[g members] jobs IH]; intros st st' H; simpl in H.
  - injection H as <-. split; [simpl; lia|]. split; [reflexivity|].
    exists [], []. rewrite !app_nil_r. repeat split; constructor.
  - destruct (form_group nwb g members st) as [st1|] eqn:Hg; simpl in H; [|discriminate].
    apply form_group_effect in Hg as (Hn & He & (ref & Hsg) & Hsge).
    apply IH in H as (Hn' & He' & new_groups & new_members & H1 & H2 & H3 & H4 & H5 & H6).
    split; [rewrite Hn', Hn; simpl length; lia|].
    split; [congruence|].
    eexists (_ :: new_groups), (_ ++ new_members).
    split; [rewrite H1, Hsg, <- app_assoc; reflexivity|].
    split; [rewrite H2, Hsge, <- app_assoc; reflexivity|].
    split; [constructor; [reflexivity | exact H3]|].
    split.
    { apply Forall_app. split; [|exact H4].
      apply Forall_forall. intros r Hr. apply list_elem_of_fmap in Hr as (e & -> & _).
      reflexivity. }
    split.
    { simpl. f_equal; [lia|]. rewrite H5, Hn.
      rewrite <- seq_shift, map_map. apply map_ext. intros i. lia. }
    simpl. rewrite map_app, map_map, H6. reflexivity.
Qed.

Lemma filter_app_bool {A : Type} (p : A -> bool) (l1 l2 : list A) :
  List.filter p (l1 ++ l2) = List.filter p l1 ++ List.filter p l2.
Proof. induction l1 as [|a l1 IH]; simpl; [reflexivity|]. destruct (p a); simpl; congruence. Qed.

Lemma filter_keep_all {A : Type} (p : A -> bool) (l : list A) :
  Forall (fun a => p a = true) l -> List.filter p l = l.
Proof. induction 1 as [|a l Ha _ IH]; simpl; [reflexivity|]. rewrite Ha, IH. reflexivity. Qed.

Lemma filter_drop_all {A : Type} (p : A -> bool) (l : list A) :
  Forall (fun a => p a = false) l -> List.filter p l = [].
Proof. induction 1 as [|a l Ha _ IH]; simpl; [reflexivity|]. rewrite Ha, IH. reflexivity. Qed.

Lemma filter_negb_then {A : Type} (p : A -> bool) (l : list A) :
  List.filter p (List.filter (fun a => negb (p a)) l) = [].
Proof.
  apply filter_drop_all. apply Forall_forall. intros a Ha.
  apply list_elem_of_In, filter_In in Ha as [_ Ha]. apply negb_true_iff. exact Ha.
Qed.

Lemma filter_idem {A : Type} (p : A -> bool) (l : list A) :
  List.filter p (List.filter p l) = List.filter p l.
Proof.
  apply filter_keep_all. apply Forall_forall. intros a Ha.
  apply list_elem_of_In, filter_In in Ha as [_ Ha]. exact Ha.
Qed.

(** The tables after forming [jobs] on a session whose groups were
    just deleted. *)
Lemma grouping_result nwb (d : db) (jobs : list (string * list Electrode_row)) st :
  run_jobs nwb jobs
    {| sort_group := 0; sg_key_reference := None; tables := delete_groups nwb d |} = Ok st ->
  delete_groups nwb (tables st) = delete_groups nwb d
  /\ map sg_sort_group_id (group_rows nwb (tables st))
     = map Z.of_nat (seq 0 (length jobs))
  /\ map member_key (member_rows nwb (tables st))
     = concat (map (fun job => map (fun e => (fst job, electrode_id e)) (snd job)) jobs).
Proof.
  intros H. apply run_jobs_effect in H
    as (_ & He & new_groups & new_members & H1 & H2 & H3 & H4 & H5 & H6).
  simpl in *.
  assert (Hg_keep : Forall (fun r => bool_decide (sg_nwb_file_name r = nwb) = true) new_groups).
  { eapply Forall_impl; [exact H3|]. intros r Hr. apply bool_decide_eq_true. exact Hr. }
  assert (Hm_keep : Forall (fun r => bool_decide (sge_nwb_file_name r = nwb) = true)
                           new_members).
  { eapply Forall_impl; [exact H4|]. intros r Hr. apply bool_decide_eq_true. exact Hr. }
  split; [|split].
  - unfold delete_groups. rewrite He, H1, H2. simpl. rewrite !filter_app_bool.
    rewrite !filter_idem.
    rewrite (filter_drop_all _ new_groups), (filter_drop_all _ new_members), !app_nil_r.
    + reflexivity.
    + eapply Forall_impl; [exact Hm_keep|]. intros r Hr. simpl. rewrite Hr. reflexivity.
    + eapply Forall_impl; [exact Hg_keep|]. intros r Hr. simpl. rewrite Hr. reflexivity.
  - unfold group_rows. rewrite H1, filter_app_bool, filter_negb_then. simpl.
    rewrite (filter_keep_all _ _ Hg_keep), H5. apply map_ext. intros i. lia.
  - unfold member_rows. rewrite H2, filter_app_bool, filter_negb_then. simpl.
    rewrite (filter_keep_all _ _ Hm_keep). exact H6.
Qed.

Lemma delete_groups_idem nwb (d : db) :
  delete_groups nwb (delete_groups nwb d) = delete_groups nwb d.
Proof. unfold delete_groups. simpl. rewrite !filter_idem. reflexivity. Qed.

(** Running either grouping function touches nothing but the session's
    own groups: the electrode table and the rows of every other session
    are as before. *)
Theorem grouping_other_sessions_untouched (nwb : string) (d d' : db) :
  set_group_by_shank nwb d = Ok d' \/ set_group_by_electrode_group nwb d = Ok d' ->
  Electrode d' = Electrode d
  /\ List.filter (fun r => negb (bool_decide (sg_nwb_file_name r = nwb))) (SortGroup d')
     = List.filter (fun r => negb (bool_decide (sg_nwb_file_name r = nwb))) (SortGroup d)
  /\ List.filter (fun r => negb (bool_decide (sge_nwb_file_name r = nwb)))
                 (SortGroupElectrode d')
     = List.filter (fun r => negb (bool_decide (sge_nwb_file_name r = nwb)))
                   (SortGroupElectrode d).
Proof.
  intros H.
  assert (Hd : delete_groups nwb d' = delete_groups nwb d).
  { destruct H as [H|H];
      [rewrite set_group_by_shank_jobs in H | rewrite set_group_by_electrode_group_jobs in H];
      destruct (run_jobs _ _ _) as [st|] eqn:Hrun; simpl in H; try discriminate;
      injection H as <-; apply (grouping_result _ _ _ _ Hrun). }
  unfold delete_groups in Hd. injection Hd as H1 H2 H3. auto.
Qed.

Lemma grouping_other_sessions_untouched_witness :
  exists d',
    set_group_by_shank "s.nwb" two_probe_session = Ok d'
    /\ Electrode d' = Electrode two_probe_session
    /\ List.filter (fun r => negb (bool_decide (sg_nwb_file_name r = "s.nwb"))) (SortGroup d')
       = [ {| sg_nwb_file_name := "t.nwb"; sg_sort_group_id := 0;
              sort_reference_electrode_id := -1 |} ].
Proof.
  destruct (set_group_by_shank "s.nwb" two_probe_session) as [d'|e] eqn:Hd';
    [|vm_compute in Hd'; discriminate].
  exists d'. split; [reflexivity|].
  destruct (grouping_other_sessions_untouched "s.nwb" two_probe_session d' (or_introl Hd'))
    as (He & Hg & _).
  split; [exact He|]. rewrite Hg. reflexivity.
Defined.

(** The session's sort groups are numbered 0, 1, 2, ... in the order
    they were formed, whatever ids the session had before. *)
Theorem grouping_ids_dense (nwb : string) (d d' : db) :
  set_group_by_shank nwb d = Ok d' \/ set_group_by_electrode_group nwb d = Ok d' ->
  map sg_sort_group_id (group_rows nwb d')
  = map Z.of_nat (seq 0 (length (group_rows nwb d'))).
Proof.
  intros H.
  assert (Hex : exists n, map sg_sort_group_id (group_rows nwb d') = map Z.of_nat (seq 0 n)).
  { destruct H as [H|H];
      [rewrite set_group_by_shank_jobs in H | rewrite set_group_by_electrode_group_jobs in H];
      destruct (run_jobs _ _ _) as [st|] eqn:Hrun; simpl in H; try discriminate;
      injection H as <-; eexists; apply (grouping_result _ _ _ _ Hrun). }
  destruct Hex as [n Hn]. rewrite Hn. f_equal. f_equal.
  apply (f_equal (@length Z)) in Hn. rewrite !length_map, length_seq in Hn. lia.
Qed.

Lemma grouping_ids_dense_witness :
  exists d',
    set_group_by_shank "s.nwb" two_probe_session = Ok d'
    /\ map sg_sort_group_id (group_rows "s.nwb" d') = [0; 1; 2].
Proof.
  destruct (set_group_by_shank "s.nwb" two_probe_session) as [d'|e] eqn:Hd';
    [|vm_compute in Hd'; discriminate].
  exists d'. split; [reflexivity|].
  rewrite (grouping_ids_dense "s.nwb" two_probe_session d' (or_introl Hd')).
  vm_compute in Hd'. injection Hd' as <-. reflexivity.
Defined.

(** Grouping is an overwrite: running the same function again on its
    own result gives that result back. *)
Theorem grouping_idempotent (nwb : string) (d d' : db) :
  (set_group_by_shank nwb d = Ok d' -> set_group_by_shank nwb d' = Ok d')
  /\ (set_group_by_electrode_group nwb d = Ok d' ->
      set_group_by_electrode_group nwb d' = Ok d').
Proof.
  split; intros H.
  - assert (Hd : delete_groups nwb d' = delete_groups nwb d).
    { rewrite set_group_by_shank_jobs in H.
      destruct (run_jobs _ _ _) as [st|] eqn:Hrun; simpl in H; [|discriminate].
      injection H as <-. apply (grouping_result _ _ _ _ Hrun). }
    rewrite set_group_by_shank_jobs, Hd, <- set_group_by_shank_jobs. exact H.
  - assert (Hd : delete_groups nwb d' = delete_groups nwb d).
    { rewrite set_group_by_electrode_group_jobs in H.
      destruct (run_jobs _ _ _) as [st|] eqn:Hrun; simpl in H; [|discriminate].
      injection H as <-. apply (grouping_result _ _ _ _ Hrun). }
    rewrite set_group_by_electrode_group_jobs, Hd, <- set_group_by_electrode_group_jobs.
    exact H.
Qed.

Lemma grouping_idempotent_witness :
  exists d',
    set_group_by_electrode_group "s.nwb" two_probe_session = Ok d'
    /\ set_group_by_electrode_group "s.nwb" d' = Ok d'
    /\ d' <> two_probe_session.
Proof.
  destruct (set_group_by_electrode_group "s.nwb" two_probe_session) as [d'|e] eqn:Hd';
    [|vm_compute in Hd'; discriminate].
  exists d'. split; [reflexivity|].
  split; [apply (proj2 (grouping_idempotent "s.nwb" two_probe_session d') Hd')|].
  vm_compute in Hd'. injection Hd' as <-. discriminate.
Defined.

Section UniqueOrder.
Context {A : Type} (ltb : A -> A -> bool).
Hypothesis ltb_irrefl : forall x, ltb x x = false.
Hypothesis ltb_trans : forall x y z, ltb x y = true -> ltb y z = true -> ltb x z = true.
Hypothesis ltb_total : forall x y, ltb x y = false -> ltb y x = false -> x = y.

Lemma insert_unique_elem_iff (x y : A) (l : list A) :
  y ∈ insert_unique ltb x l <-> y = x \/ y ∈ l.
Proof.
  induction l as [|z l IH]; simpl.
  - rewrite list_elem_of_singleton. split; [auto | intros [H|H]; [exact H | inversion H]].
  - destruct (ltb x z) eqn:Hxz.
    + rewrite !elem_of_cons. tauto.
    + destruct (ltb z x) eqn:Hzx.
      * rewrite !elem_of_cons, IH. tauto.
      * rewrite (ltb_total x z Hxz Hzx). rewrite !elem_of_cons. tauto.
Qed.

Lemma insert_unique_sorted (x : A) (l : list A) :
  StronglySorted (fun a b => ltb a b = true) l ->
  StronglySorted (fun a b => ltb a b = true) (insert_unique ltb x l).
Proof.
  intros Hs. induction Hs as [|z l Hs IH Hall]; simpl.
  - constructor; constructor.
  - destruct (ltb x z) eqn:Hxz.
    + constructor; [constructor; assumption|].
      constructor; [exact Hxz|].
      eapply Forall_impl; [exact Hall|]. intros a Ha. simpl in Ha.
      apply (ltb_trans x z a Hxz Ha).
    + destruct (ltb z x) eqn:Hzx.
      * constructor; [exact IH|].
        apply Forall_forall. intros a Ha. apply insert_unique_elem_iff in Ha as [->|Ha].
        -- exact Hzx.
        -- rewrite Forall_forall in Hall. apply Hall. exact Ha.
      * constructor; assumption.
Qed.

Lemma np_unique_sorted (l : list A) :
  StronglySorted (fun a b => ltb a b = true) (np_unique ltb l).
Proof.
  induction l as [|x l IH]; simpl; [constructor | apply insert_unique_sorted; exact IH].
Qed.

Lemma np_unique_NoDup (l : list A) : NoDup (np_unique ltb l).
Proof.
  pose proof (np_unique_sorted l) as Hs.
  induction Hs as [|z u Hs IH Hall]; constructor; [|exact IH].
  intros Hin. rewrite Forall_forall in Hall. apply Hall in Hin.
  rewrite ltb_irrefl in Hin. discriminate.
Qed.

Lemma np_unique_complete (l : list A) (x : A) : x ∈ l -> x ∈ np_unique ltb l.
Proof.
  induction l as [|y l IH]; intros H; [inversion H|]. simpl.
  apply insert_unique_elem_iff. apply elem_of_cons in H as [->|H]; [left; reflexivity|].
  right. apply IH. exact H.
Qed.
End UniqueOrder.

Lemma string_ltb_irrefl (s : string) : String.ltb s s = false.
Proof.
  unfold String.ltb.
  rewrite (proj2 (String_as_OT.cmp_eq s s) eq_refl : String.compare s s = Eq). reflexivity.
Qed.

Lemma string_ltb_lt (s t : string) : String.ltb s t = true <-> String_as_OT.lt s t.
Proof.
  unfold String.ltb. rewrite <- String_as_OT.cmp_lt. unfold String_as_OT.cmp.
  destruct (String.compare s t); split; congruence.
Qed.

Lemma string_ltb_trans (x y z : string) :
  String.ltb x y = true -> String.ltb y z = true -> String.ltb x z = true.
Proof. rewrite !string_ltb_lt. apply String_as_OT.lt_trans. Qed.

Lemma string_ltb_total (x y : string) :
  String.ltb x y = false -> String.ltb y x = false -> x = y.
Proof.
  unfold String.ltb. rewrite (String.compare_antisym y x).
  destruct (String.compare x y) eqn:Hc; simpl; try discriminate.
  intros _ _. apply String.compare_eq_iff. exact Hc.
Qed.

Section PartitionByKey.
Context {A K : Type} `{EqDecision K} (key : A -> K).

Lemma buckets_cons_absent (a : A) (l : list A) (keys : list K) :
  key a ∉ keys ->
  concat (map (bucket key (a :: l)) keys) = concat (map (bucket key l) keys).
Proof.
  induction keys as [|k keys IH]; intros Hk; simpl; [reflexivity|].
  rewrite bool_decide_eq_false_2 by (intros E; apply Hk; rewrite E; left).
  fold (bucket key l k). rewrite IH; [reflexivity|]. intros H. apply Hk. right. exact H.
Qed.

Lemma buckets_cons_present (a : A) (l : list A) (keys : list K) :
  NoDup keys -> key a ∈ keys ->
  Permutation (concat (map (bucket key (a :: l)) keys)) (a :: concat (map (bucket key l) keys)).
Proof.
  induction keys as [|k keys IH]; intros Hnd Hk; [inversion Hk|].
  apply NoDup_cons in Hnd as [Hk' Hnd]. simpl.
  destruct (bool_decide_reflect (key a = k)) as [E|E].
  - fold (bucket key l k). rewrite buckets_cons_absent by (rewrite E; exact Hk'). reflexivity.
  - fold (bucket key l k). apply elem_of_cons in Hk as [Hk|Hk]; [contradiction|].
    rewrite (IH Hnd Hk). symmetry. apply Permutation_middle.
Qed.

(** Splitting a list into the buckets of its distinct keys and gluing
    them back loses and repeats nothing. *)
Lemma buckets_permutation (l : list A) (keys : list K) :
  NoDup keys -> (forall a, a ∈ l -> key a ∈ keys) ->
  Permutation (concat (map (bucket key l) keys)) l.
Proof.
  intros Hnd. induction l as [|a l IH]; intros Hcover.
  - replace (concat (map (bucket key []) keys)) with (@nil A); [reflexivity|].
    clear. induction keys as [|k keys IH]; simpl; [reflexivity | exact IH].
  - rewrite buckets_cons_present; [|exact Hnd | apply Hcover; left].
    constructor. apply IH. intros a' Ha'. apply Hcover. right. exact Ha'.
Qed.
End PartitionByKey.

Lemma filter_both {A : Type} (p q : A -> bool) (l : list A) :
  List.filter (fun a => p a && q a) l = List.filter q (List.filter p l).
Proof.
  induction l as [|a l IH]; simpl; [reflexivity|].
  destruct (p a); simpl; [destruct (q a); simpl; rewrite IH; reflexivity | exact IH].
Qed.

Lemma concat_map_concat {A B : Type} (F : A -> list B) (ll : list (list A)) :
  concat (map F (concat ll)) = concat (map (fun l => concat (map F l)) ll).
Proof.
  induction ll as [|l ll IH]; simpl; [reflexivity|].
  rewrite map_app, concat_app, IH. reflexivity.
Qed.

Lemma Permutation_concat_map {K B : Type} (f g : K -> list B) (ks : list K) :
  (forall k, Permutation (f k) (g k)) ->
  Permutation (concat (map f ks)) (concat (map g ks)).
Proof.
  intros H. induction ks as [|k ks IH]; simpl; [reflexivity|].
  apply Permutation_app; [apply H | exact IH].
Qed.

Lemma bucket_keys (els : list Electrode_row) (g : string) :
  map (fun e => (g, electrode_id e)) (bucket electrode_group_name els g)
  = map electrode_key (bucket electrode_group_name els g).
Proof.
  apply map_ext_in. intros e He. unfold bucket in He. apply filter_In in He as [_ He].
  apply bool_decide_eq_true in He. unfold electrode_key. rewrite He. reflexivity.
Qed.

Lemma group_buckets_permutation (els : list Electrode_row) :
  Permutation
    (concat (map (fun g => map electrode_key (bucket electrode_group_name els g))
                 (np_unique String.ltb (map electrode_group_name els))))
    (map electrode_key els).
Proof.
  rewrite <- (map_map (bucket electrode_group_name els) (map electrode_key)).
  rewrite <- concat_map. apply Permutation_map.
  apply buckets_permutation.
  - apply (np_unique_NoDup String.ltb string_ltb_irrefl string_ltb_trans string_ltb_total).
  - intros e He. apply (np_unique_complete String.ltb string_ltb_total).
    apply list_elem_of_fmap. exists e. split; [reflexivity | exact He].
Qed.

Lemma group_jobs_keys (els : list Electrode_row) :
  Permutation
    (concat (map (fun job => map (fun e => (fst job, electrode_id e)) (snd job))
                 (group_jobs els)))
    (map electrode_key els).
Proof.
  unfold group_jobs. rewrite map_map. simpl.
  rewrite <- (group_buckets_permutation els).
  apply Permutation_concat_map. intros g. fold (bucket electrode_group_name els g).
  rewrite bucket_keys. reflexivity.
Qed.

Lemma Z_ltb_total (x y : Z) : (x <? y) = false -> (y <? x) = false -> x = y.
Proof. intros H1 H2. apply Z.ltb_ge in H1, H2. lia. Qed.

Lemma Z_ltb_trans (x y z : Z) : (x <? y) = true -> (y <? z) = true -> (x <? z) = true.
Proof. rewrite !Z.ltb_lt. lia. Qed.

Lemma shank_jobs_keys (els : list Electrode_row) :
  Permutation
    (concat (map (fun job => map (fun e => (fst job, electrode_id e)) (snd job))
                 (shank_jobs els)))
    (map electrode_key els).
Proof.
  unfold shank_jobs. rewrite concat_map_concat, map_map.
  rewrite <- (group_buckets_permutation els).
  apply Permutation_concat_map. intros g.
  fold (bucket electrode_group_name els g).
  rewrite map_map. simpl.
  transitivity
    (concat (map (fun s => map electrode_key
                               (bucket probe_shank (bucket electrode_group_name els g) s))
                 (np_unique Z.ltb (map probe_shank (bucket electrode_group_name els g))))).
  - apply Permutation_concat_map. intros sh.
    rewrite (filter_both (fun e => bool_decide (electrode_group_name e = g))
                         (fun e => bool_decide (probe_shank e = sh))).
    fold (bucket electrode_group_name els g).
    fold (bucket probe_shank (bucket electrode_group_name els g) sh).
    erewrite map_ext_in; [reflexivity|].
    intros e He. unfold bucket in He. apply filter_In in He as [He _].
    apply filter_In in He as [_ He]. apply bool_decide_eq_true in He.
    unfold electrode_key. rewrite He. reflexivity.
  - rewrite <- (map_map (bucket probe_shank (bucket electrode_group_name els g))
                        (map electrode_key)).
    rewrite <- concat_map. apply Permutation_map.
    apply buckets_permutation.
    + apply (np_unique_NoDup Z.ltb Z.ltb_irrefl Z_ltb_trans Z_ltb_total).
    + intros e He. apply (np_unique_complete Z.ltb Z_ltb_total).
      apply list_elem_of_fmap. exists e. split; [reflexivity | exact He].
Qed.

(** Both grouping functions put every good electrode of the session
    into exactly one sort group: the member rows of the session are the
    fetched electrodes, each once. *)
Theorem grouping_partitions_electrodes (nwb : string) (d d' : db) :
  set_group_by_shank nwb d = Ok d' \/ set_group_by_electrode_group nwb d = Ok d' ->
  Permutation (map member_key (member_rows nwb d'))
              (map electrode_key (fetch_electrodes nwb d)).
Proof.
  change (fetch_electrodes nwb d) with (fetch_electrodes nwb (delete_groups nwb d)).
  intros [H|H].
  - rewrite set_group_by_shank_jobs in H.
    destruct (run_jobs _ _ _) as [st|] eqn:Hrun; simpl in H; [|discriminate].
    injection H as <-. apply grouping_result in Hrun as (_ & _ & Hkeys).
    rewrite Hkeys. apply shank_jobs_keys.
  - rewrite set_group_by_electrode_group_jobs in H.
    destruct (run_jobs _ _ _) as [st|] eqn:Hrun; simpl in H; [|discriminate].
    injection H as <-. apply grouping_result in Hrun as (_ & _ & Hkeys).
    rewrite Hkeys. apply group_jobs_keys.
Qed.

Lemma grouping_partitions_electrodes_witness :
  exists d',
    set_group_by_shank "s.nwb" two_probe_session = Ok d'
    /\ Permutation (map member_key (member_rows "s.nwb" d')) [("1", 4); ("0", 0); ("1", 3)].
Proof.
  destruct (set_group_by_shank "s.nwb" two_probe_session) as [d'|e] eqn:Hd';
    [|vm_compute in Hd'; discriminate].
  exists d'. split; [reflexivity|].
  apply (grouping_partitions_electrodes "s.nwb" two_probe_session d' (or_introl Hd')).
Defined.

Lemma fold_max_const (x : Z) (l : list Z) :
  Forall (fun y => y = x) l -> fold_left Z.max l x = x.
Proof. induction 1 as [|y l -> _ IH]; simpl; [reflexivity|]. rewrite Z.max_id. exact IH. Qed.

Lemma fold_min_const (x : Z) (l : list Z) :
  Forall (fun y => y = x) l -> fold_left Z.min l x = x.
Proof. induction 1 as [|y l -> _ IH]; simpl; [reflexivity|]. rewrite Z.min_id. exact IH. Qed.

(** Members that agree on their reference hand it to the group. *)
Lemma form_group_reference nwb g (members : list Electrode_row) (st st' : loop_state) :
  form_group nwb g members st = Ok st' ->
  (forall e1 e2, e1 ∈ members -> e2 ∈ members ->
                 original_reference_electrode e1 = original_reference_electrode e2) ->
  forall e, e ∈ members ->
    SortGroup (tables st')
    = SortGroup (tables st)
      ++ [{| sg_nwb_file_name := nwb; sg_sort_group_id := sort_group st;
             sort_reference_electrode_id := original_reference_electrode e |}].
Proof.
  intros H Hsame e He. unfold form_group in H.
  destruct members as [|m members]; [inversion He|].
  assert (Hall : Forall (fun y => y = original_reference_electrode m)
                        (map original_reference_electrode members)).
  { apply Forall_forall. intros y Hy. apply list_elem_of_fmap in Hy as (e' & -> & He').
    apply Hsame; [right; exact He' | left]. }
  simpl in H. rewrite (fold_max_const _ _ Hall), (fold_min_const _ _ Hall) in H.
  rewrite Z.eqb_refl in H. simpl in H. injection H as <-. simpl.
  rewrite fold_insert_members. simpl.
  rewrite (Hsame e m He); [reflexivity | left].
Qed.

Lemma run_jobs_references nwb (jobs : list (string * list Electrode_row)) :
  (forall job e1 e2, job ∈ jobs -> e1 ∈ snd job -> e2 ∈ snd job ->
                     original_reference_electrode e1 = original_reference_electrode e2) ->
  forall st st',
    run_jobs nwb jobs st = Ok st' ->
    exists new_groups new_members,
      SortGroup (tables st') = SortGroup (tables st) ++ new_groups
      /\ SortGroupElectrode (tables st') = SortGroupElectrode (tables st) ++ new_members
      /\ forall r, r ∈ new_members ->
           exists job e0 row,
             job ∈ jobs /\ e0 ∈ snd job
             /\ member_key r = (fst job, electrode_id e0)
             /\ row ∈ new_groups
             /\ sg_nwb_file_name row = nwb
             /\ sg_sort_group_id row = sge_sort_group_id r
             /\ sort_reference_electrode_id row = original_reference_electrode e0.
Proof.
  unfold run_jobs. induction jobs as [|[g members] jobs IH]; intros Hsame st st' H; simpl in H.
  - injection H as <-. exists [], []. rewrite !app_nil_r.
    repeat split. intros r Hr. inversion Hr.
  - destruct (form_group nwb g members st) as [st1|] eqn:Hg; simpl in H; [|discriminate].
    pose proof (form_group_effect _ _ _ _ _ Hg) as (Hn & _ & (ref & Hsg) & Hsge).
    assert (Href0 : forall e0, e0 ∈ members -> ref = original_reference_electrode e0).
    { intros e0 He0.
      pose proof (form_group_reference _ _ _ _ _ Hg) as Hr.
      specialize (Hr (fun e1 e2 => Hsame (g, members) e1 e2 ltac:(left)) e0 He0).
      rewrite Hsg in Hr. apply app_inv_head in Hr. congruence. }
    apply IH in H as (new_groups & new_members & H1 & H2 & H3);
      [|intros job e1 e2 Hj; apply (Hsame job); right; exact Hj].
    eexists (_ :: new_groups), (_ ++ new_members).
    split; [rewrite H1, Hsg, <- app_assoc; reflexivity|].
    split; [rewrite H2, Hsge, <- app_assoc; reflexivity|].
    intros r Hr. apply elem_of_app in Hr as [Hr|Hr].
    + apply list_elem_of_fmap in Hr as (e0 & -> & He0).
      exists (g, members), e0. eexists. split; [left|]. split; [exact He0|].
      split; [reflexivity|]. split; [left|]. split; [reflexivity|].
      split; [reflexivity|]. simpl. apply Href0. exact He0.
    + apply H3 in Hr as (job & e0 & row & Hj & He0 & Hk & Hrow & Hnwb & Hid & Href).
      exists job, e0, row. split; [right; exact Hj|]. split; [exact He0|].
      split; [exact Hk|]. split; [right; exact Hrow|]. auto.
Qed.

Lemma key_injective (els : list Electrode_row) (e1 e2 : Electrode_row) :
  NoDup (map electrode_key els) -> e1 ∈ els -> e2 ∈ els ->
  electrode_key e1 = electrode_key e2 -> e1 = e2.
Proof.
  induction els as [|e els IH]; intros Hnd H1 H2 Hk; [inversion H1|].
  simpl in Hnd. apply NoDup_cons in Hnd as [Hfresh Hnd].
  apply elem_of_cons in H1 as [->|H1]; apply elem_of_cons in H2 as [->|H2].
  - reflexivity.
  - exfalso. apply Hfresh. rewrite Hk. apply list_elem_of_fmap. eauto.
  - exfalso. apply Hfresh. rewrite <- Hk. apply list_elem_of_fmap. eauto.
  - apply IH; assumption.
Qed.

(** When the electrodes of every (electrode group, shank) agree on
    their reference and electrode keys are unique, [set_group_by_shank]
    gives each electrode's sort group the reference that electrode
    declares. *)
Theorem shank_groups_carry_reference (nwb : string) (d d' : db) :
  set_group_by_shank nwb d = Ok d' ->
  consistent_references (fetch_electrodes nwb d) ->
  NoDup (map electrode_key (fetch_electrodes nwb d)) ->
  forall e r,
    e ∈ fetch_electrodes nwb d -> r ∈ member_rows nwb d' ->
    member_key r = electrode_key e ->
    exists row,
      row ∈ group_rows nwb d'
      /\ sg_sort_group_id row = sge_sort_group_id r
      /\ sort_reference_electrode_id row = original_reference_electrode e.
Proof.
  change (fetch_electrodes nwb d) with (fetch_electrodes nwb (delete_groups nwb d)).
  set (els := fetch_electrodes nwb (delete_groups nwb d)).
  intros H Hcons Hnd e r He Hr Hkey.
  rewrite set_group_by_shank_jobs in H. fold els in H.
  destruct (run_jobs _ _ _) as [st|] eqn:Hrun; simpl in H; [|discriminate].
  injection H as <-.
  assert (Hmem : forall job e0, job ∈ shank_jobs els -> e0 ∈ snd job ->
                 e0 ∈ els /\ electrode_group_name e0 = fst job
                 /\ exists sh, forall e1, e1 ∈ snd job -> probe_shank e1 = sh).
  { intros job e0 Hj He0. rewrite shank_jobs_flat in Hj.
    apply list_elem_of_fmap in Hj as ([g sh] & -> & _). simpl in *.
    apply list_elem_of_In, filter_In in He0 as [Hin Hb].
    apply andb_true_iff in Hb as [Hg Hs]. apply bool_decide_eq_true in Hg.
    split; [apply list_elem_of_In; exact Hin|]. split; [exact Hg|].
    exists sh. intros e1 He1. apply list_elem_of_In, filter_In in He1 as [_ Hb1].
    apply andb_true_iff in Hb1 as [_ Hs1]. apply bool_decide_eq_true in Hs1. exact Hs1. }
  apply run_jobs_references in Hrun as (new_groups & new_members & H1 & H2 & H3).
  - simpl in H1, H2. unfold member_rows in Hr. rewrite H2, filter_app_bool in Hr.
    rewrite filter_negb_then in Hr. simpl in Hr.
    apply list_elem_of_In, filter_In in Hr as [Hr _]. apply list_elem_of_In in Hr.
    apply H3 in Hr as (job & e0 & row & Hj & He0 & Hk & Hrow & Hnwb & Hid & Href).
    destruct (Hmem job e0 Hj He0) as (He0' & Hg0 & _).
    assert (e0 = e) as ->.
    { apply (key_injective els); try assumption.
      unfold electrode_key at 1. rewrite Hg0, <- Hk. exact Hkey. }
    exists row. split; [|split; assumption].
    unfold group_rows. rewrite H1, filter_app_bool. apply elem_of_app. right.
    apply list_elem_of_In, filter_In. split; [apply list_elem_of_In; exact Hrow|].
    apply bool_decide_eq_true. exact Hnwb.
  - intros job e1 e2 Hj He1 He2.
    destruct (Hmem job e1 Hj He1) as (Hin1 & Hg1 & sh & Hsh).
    destruct (Hmem job e2 Hj He2) as (Hin2 & Hg2 & _).
    apply Hcons; try assumption; [congruence|].
    rewrite (Hsh e1 He1), (Hsh e2 He2). reflexivity.
Qed.

Lemma shank_groups_carry_reference_witness :
  consistent_references (fetch_electrodes "s.nwb" two_probe_session)
  /\ NoDup (map electrode_key (fetch_electrodes "s.nwb" two_probe_session))
  /\ exists d' row,
      set_group_by_shank "s.nwb" two_probe_session = Ok d'
      /\ row ∈ group_rows "s.nwb" d'
      /\ sg_sort_group_id row = 2
      /\ sort_reference_electrode_id row = 9.
Proof.
  assert (Hcons : consistent_references (fetch_electrodes "s.nwb" two_probe_session)).
  { intros e1 e2 H1 H2 Hg Hs.
    apply list_elem_of_In in H1, H2. vm_compute in H1, H2.
    destruct H1 as [<-|[<-|[<-|[]]]]; destruct H2 as [<-|[<-|[<-|[]]]];
      simpl in *; congruence. }
  assert (Hnd : NoDup (map electrode_key (fetch_electrodes "s.nwb" two_probe_session)))
    by (apply (bool_decide_unpack _); vm_compute; reflexivity).
  split; [exact Hcons|]. split; [exact Hnd|].
  destruct (set_group_by_shank "s.nwb" two_probe_session) as [d'|err] eqn:Hd';
    [|vm_compute in Hd'; discriminate].
  destruct (shank_groups_carry_reference "s.nwb" two_probe_session d' Hd' Hcons Hnd
              {| nwb_file_name := "s.nwb"; electrode_group_name := "1"; electrode_id := 4;
                 probe_shank := 1; original_reference_electrode := 9;
                 bad_channel := "False" |}
              {| sge_nwb_file_name := "s.nwb"; sge_sort_group_id := 2;
                 sge_electrode_group_name := "1"; sge_electrode_id := 4 |})
    as (row & Hrow & Hid & Href).
  - apply list_elem_of_In. vm_compute. auto.
  - vm_compute in Hd'. injection Hd' as <-. apply list_elem_of_In. vm_compute. auto.
  - reflexivity.
  - exists d', row. split; [reflexivity|]. split; [exact Hrow|]. split; assumption.
Defined.

End GroupingTables.

(** ** Probe geometry *)

Module GeometryProofs.
Import Geometry.

Lemma zip_with_set_column {A : Type} (k : nat) (F : A -> list Q) (c : A -> Q) (l : list A) :
  zip_with (fun row v => <[k := v]> row) (map F l) (map c l)
  = map (fun a => <[k := c a]> (F a)) l.
Proof. induction l as [|a l IH]; simpl; [reflexivity|]. rewrite IH. reflexivity. Qed.

Lemma replicate_map {A B : Type} (b : B) (l : list A) :
  replicate (length l) b = map (fun _ => b) l.
Proof. induction l as [|a l IH]; simpl; [reflexivity|]. rewrite IH. reflexivity. Qed.

(** The returned geometry keeps, for every channel, the first two axes
    that carry coordinates, in the order x, y, z, padded with zeros; a
    third axis with coordinates is dropped without any error. *)
Theorem geometry_of_keeps_two_axes (tmp_geom : list position) :
  geometry_of tmp_geom
  = map (fun p => [kept (informative_axes tmp_geom) 0 p;
                   kept (informative_axes tmp_geom) 1 p]) tmp_geom.
Proof.
  unfold geometry_of, informative_axes. simpl fold_left. simpl List.filter.
  unfold take_column at 3. simpl n_found. simpl geometry.
  rewrite (replicate_map [0; 0]%Q tmp_geom).
  destruct (has_coordinates (map (axis 0) tmp_geom)) eqn:H0.
  - simpl Nat.ltb. cbv iota. rewrite zip_with_set_column.
    unfold take_column at 2. simpl n_found. simpl geometry.
    destruct (has_coordinates (map (axis 1) tmp_geom)) eqn:H1.
    + simpl Nat.ltb. cbv iota. rewrite zip_with_set_column.
      unfold take_column. simpl n_found. simpl geometry.
      destruct (has_coordinates (map (axis 2) tmp_geom)); reflexivity.
    + unfold take_column. simpl n_found. simpl geometry.
      destruct (has_coordinates (map (axis 2) tmp_geom)) eqn:H2.
      * simpl Nat.ltb. cbv iota. rewrite zip_with_set_column. reflexivity.
      * reflexivity.
  - unfold take_column at 2. simpl n_found. simpl geometry.
    destruct (has_coordinates (map (axis 1) tmp_geom)) eqn:H1.
    + simpl Nat.ltb. cbv iota. rewrite zip_with_set_column.
      unfold take_column. simpl n_found. simpl geometry.
      destruct (has_coordinates (map (axis 2) tmp_geom)) eqn:H2.
      * simpl Nat.ltb. cbv iota. rewrite zip_with_set_column. reflexivity.
      * reflexivity.
    + unfold take_column. simpl n_found. simpl geometry.
      destruct (has_coordinates (map (axis 2) tmp_geom)) eqn:H2.
      * simpl Nat.ltb. cbv iota. rewrite zip_with_set_column. reflexivity.
      * reflexivity.
Qed.

Lemma existsb_filter_seq (p q : nat -> bool) (n k : nat) :
  existsb q (List.filter p (seq k n)) = true
  <-> exists i, (k <= i < k + n)%nat /\ p i = true /\ q i = true.
Proof.
  rewrite existsb_exists. split.
  - intros (i & Hi & Hq). apply filter_In in Hi as [Hi Hp]. apply in_seq in Hi.
    exists i. auto.
  - intros (i & Hi & Hp & Hq). exists i. split; [|exact Hq].
    apply filter_In. split; [apply in_seq; exact Hi | exact Hp].
Qed.

(** An axis counts as carrying coordinates only when some channel
    other than the first has a non-zero value on it. *)
Theorem has_coordinates_iff (col : list Q) :
  has_coordinates col = true
  <-> exists i, (0 < i < length col)%nat /\ ~ (nth i col 0 == 0)%Q.
Proof.
  unfold has_coordinates, np_nonzero. rewrite existsb_filter_seq. split.
  - intros (i & Hi & Hnz & Hpos). exists i.
    apply negb_true_iff, Nat.eqb_neq in Hpos. split; [lia|].
    apply negb_true_iff in Hnz. intros Heq. apply Qeq_bool_iff in Heq. congruence.
  - intros (i & Hi & Hnz). exists i. split; [lia|]. split.
    + apply negb_true_iff. apply not_true_iff_false. intros Heq.
      apply Hnz. apply Qeq_bool_iff. exact Heq.
    + apply negb_true_iff, Nat.eqb_neq. lia.
Qed.

(** A sort group of a single channel always gets the geometry
    [[0, 0]], wherever the channel sits on the probe. *)
Theorem single_channel_geometry (p : position) : geometry_of [p] = [[0; 0]%Q].
Proof.
  assert (Hnone : forall v, has_coordinates [v] = false).
  { intros v. unfold has_coordinates, np_nonzero. simpl.
    destruct (Qeq_bool v 0); reflexivity. }
  unfold geometry_of. cbn [fold_left]. unfold take_column. cbn [map].
  rewrite !Hnone. reflexivity.
Qed.

Lemma take_column_shape (tmp_geom : list position) (st : column_state) (i : nat) :
  length (geometry st) = length tmp_geom ->
  Forall (fun row => length row = 2%nat) (geometry st) ->
  length (geometry (take_column tmp_geom st i)) = length tmp_geom
  /\ Forall (fun row => length row = 2%nat) (geometry (take_column tmp_geom st i)).
Proof.
  intros Hlen Hrows. unfold take_column.
  destruct (has_coordinates _); [|split; assumption].
  destruct (n_found st <? 2)%nat; [|split; assumption].
  cbn [geometry]. split.
  - rewrite length_zip_with, length_map. lia.
  - generalize (map (axis i) tmp_geom). intros col.
    clear Hlen. revert col. induction Hrows as [|row rows Hrow Hrows IH]; intros col.
    + constructor.
    + destruct col as [|v col]; [constructor|]. cbn [zip_with].
      constructor; [rewrite length_insert; exact Hrow | apply IH].
Qed.

Lemma geometry_of_shape (tmp_geom : list position) :
  length (geometry_of tmp_geom) = length tmp_geom
  /\ Forall (fun row => length row = 2%nat) (geometry_of tmp_geom).
Proof.
  unfold geometry_of. cbn [fold_left].
  assert (H0 : length (replicate (length tmp_geom) [0; 0]%Q) = length tmp_geom
               /\ Forall (fun row : list Q => length row = 2%nat)
                         (replicate (length tmp_geom) [0; 0]%Q)).
  { split; [apply length_replicate|]. apply Forall_replicate. reflexivity. }
  destruct H0 as [Hl Hr].
  destruct (take_column_shape tmp_geom
              {| n_found := 0; geometry := replicate (length tmp_geom) [0; 0]%Q |} 0%nat
              Hl Hr) as [Hl0 Hr0].
  destruct (take_column_shape tmp_geom _ 1%nat Hl0 Hr0) as [Hl1 Hr1].
  apply (take_column_shape tmp_geom _ 2%nat Hl1 Hr1).
Qed.

Section GetGeometry.
Variable probe_type_of : string -> result string.
Variable position_of : string -> Z -> result position.

Lemma collect_length_eq {A B : Type} (f : A -> result B) (l : list A) (bs : list B) :
  collect f l = Ok bs -> length bs = length l.
Proof.
  revert bs. induction l as [|a l IH]; intros bs H; simpl in H.
  - injection H as <-. reflexivity.
  - destruct (f a) as [b|]; simpl in H; [|discriminate].
    destruct (collect f l) as [bs0|]; simpl in H; [|discriminate].
    injection H as <-. simpl. f_equal. apply IH. reflexivity.
Qed.

(** The geometry has one row per electrode of the sort group, each
    with exactly two coordinates. *)
Theorem get_geometry_shape (sort_group_id : Z) (nwb : string) (d : Grouping.db)
        (g : list (list Q)) :
  get_geometry probe_type_of position_of sort_group_id nwb d = Ok g ->
  length g
  = length (List.filter (fun r => bool_decide (Grouping.sge_sort_group_id r = sort_group_id))
                        (Grouping.member_rows nwb d))
  /\ Forall (fun row => length row = 2%nat) g.
Proof.
  unfold get_geometry.
  destruct (Grouping.np_max _) as [mx|]; simpl; [|discriminate].
  destruct (Grouping.first _) as [name|]; simpl; [|discriminate].
  destruct (probe_type_of name) as [pt|]; simpl; [|discriminate].
  destruct (collect _ _) as [tmp|] eqn:Hc; simpl; [|discriminate].
  intros H. injection H as <-. apply collect_length_eq in Hc.
  rewrite length_map in Hc. destruct (geometry_of_shape tmp) as [Hlen Hrows].
  split; [congruence | exact Hrows].
Qed.

(** Asking for the geometry of a session without sort groups raises
    [ValueError]; asking for a sort group that has no electrodes (an
    unknown id, say) raises [IndexError]. *)
Theorem get_geometry_missing_group (sort_group_id : Z) (nwb : string) (d : Grouping.db) :
  (Grouping.group_rows nwb d = [] ->
   get_geometry probe_type_of position_of sort_group_id nwb d = Raise ValueError)
  /\ (Grouping.group_rows nwb d <> [] ->
      (forall r, r ∈ Grouping.member_rows nwb d ->
                 Grouping.sge_sort_group_id r <> sort_group_id) ->
      get_geometry probe_type_of position_of sort_group_id nwb d = Raise IndexError).
Proof.
  unfold get_geometry. split.
  - intros ->. reflexivity.
  - intros Hne Hnone. destruct (Grouping.group_rows nwb d) as [|r rs]; [congruence|].
    simpl Grouping.np_max. simpl mbind.
    rewrite GroupingTables.filter_drop_all; [reflexivity|].
    apply Forall_forall. intros r' Hr'. apply bool_decide_eq_false. apply Hnone. exact Hr'.
Qed.
End GetGeometry.

Lemma get_geometry_missing_group_witness :
  let d := {| Grouping.Electrode := [];
              Grouping.SortGroup :=
                [ {| Grouping.sg_nwb_file_name := "s.nwb"; Grouping.sg_sort_group_id := 0;
                     Grouping.sort_reference_electrode_id := -1 |} ];
              Grouping.SortGroupElectrode :=
                [ {| Grouping.sge_nwb_file_name := "s.nwb"; Grouping.sge_sort_group_id := 0;
                     Grouping.sge_electrode_group_name := "0";
                     Grouping.sge_electrode_id := 4 |} ] |} in
  get_geometry (fun _ => Ok "tetrode") (fun _ _ => Ok (0, 0, 0)%Q) 0 "t.nwb" d
  = Raise ValueError
  /\ get_geometry (fun _ => Ok "tetrode") (fun _ _ => Ok (0, 0, 0)%Q) 5 "s.nwb" d
     = Raise IndexError.
Proof.
  cbv zeta. split.
  - apply (proj1 (get_geometry_missing_group (fun _ => Ok "tetrode")
                    (fun _ _ => Ok (0, 0, 0)%Q) 0 "t.nwb" _)).
    reflexivity.
  - apply (proj2 (get_geometry_missing_group (fun _ => Ok "tetrode")
                    (fun _ _ => Ok (0, 0, 0)%Q) 5 "s.nwb" _)).
    + vm_compute. discriminate.
    + intros r Hr. apply list_elem_of_In in Hr. vm_compute in Hr.
      destruct Hr as [<-|[]]. discriminate.
Defined.

Lemma get_geometry_shape_witness :
  exists g,
    get_geometry (fun _ => Ok "tetrode") (fun _ i => Ok (inject_Z i, 0%Q, (2 # 1) * inject_Z i)%Q)
                 0 "s.nwb"
                 {| Grouping.Electrode := [];
                    Grouping.SortGroup :=
                      [ {| Grouping.sg_nwb_file_name := "s.nwb"; Grouping.sg_sort_group_id := 0;
                           Grouping.sort_reference_electrode_id := -1 |} ];
                    Grouping.SortGroupElectrode :=
                      map (fun i => {| Grouping.sge_nwb_file_name := "s.nwb";
                                       Grouping.sge_sort_group_id := 0;
                                       Grouping.sge_electrode_group_name := "0";
                                       Grouping.sge_electrode_id := i |}) [0; 1; 2] |}
    = Ok g
    /\ length g = 3%nat /\ Forall (fun row => length row = 2%nat) g.
Proof.
  eexists. split; [vm_compute; reflexivity|].
  match goal with
  | |- length ?g = _ /\ _ =>
      pose proof (get_geometry_shape (fun _ => Ok "tetrode")
                    (fun _ i => Ok (inject_Z i, 0%Q, (2 # 1) * inject_Z i)%Q)
                    0 "s.nwb"
                    {| Grouping.Electrode := [];
                       Grouping.SortGroup :=
                         [ {| Grouping.sg_nwb_file_name := "s.nwb";
                              Grouping.sg_sort_group_id := 0;
                              Grouping.sort_reference_electrode_id := -1 |} ];
                       Grouping.SortGroupElectrode :=
                         map (fun i => {| Grouping.sge_nwb_file_name := "s.nwb";
                                          Grouping.sge_sort_group_id := 0;
                                          Grouping.sge_electrode_group_name := "0";
                                          Grouping.sge_electrode_id := i |}) [0; 1; 2] |}
                    g) as Hshape
  end.
  destruct Hshape as [Hlen Hrows]; [vm_compute; reflexivity|].
  split; [rewrite Hlen; reflexivity | exact Hrows].
Defined.

End GeometryProofs.

(** ** Timestamps of a sort interval and spike times *)

Module UnitsProofs.
Import Preparation Artifact Units PreparationProofs.

Lemma take_below (ts : list Q) (v : Q) :
  StronglySorted Qle ts ->
  take (below v ts) ts = List.filter (fun t => Qlt_bool t v) ts
  /\ drop (below v ts) ts = List.filter (fun t => Qle_bool v t) ts.
Proof.
  intros Hs. induction Hs as [|t ts Hs IH Hall]; [split; reflexivity|].
  unfold below. simpl. destruct (Qlt_bool t v) eqn:Ht.
  - assert (Hle : Qle_bool v t = false).
    { apply not_true_iff_false. rewrite Qle_bool_iff. apply Qlt_not_le.
      apply Qlt_bool_iff. exact Ht. }
    rewrite Hle. simpl. fold (below v ts). destruct IH as [IH1 IH2].
    rewrite IH1, IH2. split; reflexivity.
  - apply Qlt_bool_false in Ht.
    assert (Hle : Qle_bool v t = true) by (apply Qle_bool_iff; exact Ht).
    rewrite Hle. fold (below v ts).
    rewrite (below_none v t ts Ht Hall). simpl.
    pose proof (below_none v t ts Ht Hall) as Hb. unfold below in Hb.
    apply nil_length_inv in Hb. rewrite Hb. split; [reflexivity|].
    f_equal. symmetry. apply GroupingTables.filter_keep_all.
    eapply Forall_impl; [exact Hall|]. intros u Hu. simpl in Hu.
    apply Qle_bool_iff. apply Qle_trans with t; assumption.
Qed.

Lemma filter_sorted (p : Q -> bool) (ts : list Q) :
  StronglySorted Qle ts -> StronglySorted Qle (List.filter p ts).
Proof.
  intros Hs. induction Hs as [|t ts Hs IH Hall]; simpl; [constructor|].
  destruct (p t); [|exact IH]. constructor; [exact IH|].
  apply Forall_forall. intros u Hu. apply list_elem_of_In, filter_In in Hu as [Hu _].
  rewrite Forall_forall in Hall. apply Hall. apply list_elem_of_In. exact Hu.
Qed.

(** On an ascending timestamp array, [get_recording_timestamps] returns
    exactly the timestamps inside the sort interval (start included, end
    excluded), in order; a reversed interval gives none. *)
Theorem recording_timestamps_inside (ts : list Q) (iv : Q * Q) :
  StronglySorted Qle ts ->
  get_recording_timestamps ts iv = List.filter (inside iv) ts.
Proof.
  intros Hs. unfold get_recording_timestamps, slice. cbv zeta.
  rewrite !searchsorted_below by exact Hs. rewrite !Nat2Z.id.
  destruct iv as [lo hi]. unfold inside. simpl fst. simpl snd.
  rewrite (proj2 (take_below ts lo Hs)).
  rewrite (GroupingTables.filter_both (fun t => Qle_bool lo t) (fun t => Qlt_bool t hi)).
  set (ts' := List.filter (fun t => Qle_bool lo t) ts).
  assert (Hs' : StronglySorted Qle ts') by (apply filter_sorted; exact Hs).
  rewrite <- (proj1 (take_below ts' hi Hs')).
  f_equal. unfold below at 3.
  destruct (Qlt_le_dec hi lo) as [Hrev|Hord].
  - apply Qlt_le_weak in Hrev.
    pose proof (below_mono lo hi ts Hrev) as Hm.
    replace (List.filter (fun t => Qlt_bool t hi) ts') with (@nil Q); [simpl; lia|].
    symmetry. unfold ts'.
    rewrite <- (GroupingTables.filter_both (fun t => Qle_bool lo t) (fun t => Qlt_bool t hi)).
    apply (inside_empty lo hi ts Hrev).
  - rewrite (below_split lo hi ts Hord). unfold ts'.
    rewrite <- (GroupingTables.filter_both (fun t => Qle_bool lo t) (fun t => Qlt_bool t hi)).
    lia.
Qed.

Lemma recording_timestamps_inside_witness :
  StronglySorted Qle (ramp 10)
  /\ get_recording_timestamps (ramp 10) (3, 6)%Q = [3; 4; 5]%Q.
Proof.
  split; [apply ramp_sorted|].
  rewrite (recording_timestamps_inside (ramp 10) (3, 6)%Q (ramp_sorted 10)).
  vm_compute. reflexivity.
Defined.

(** The recording that [get_filtered_recording_extractor] returns
    carries the timestamps that [get_recording_timestamps] computes for
    the same interval. *)
Theorem extractor_timestamps_agree ts iv fs ids filtered (h h' : heap) (r : Recording) :
  get_filtered_recording_extractor ts iv fs ids filtered h = (Ok r, h') ->
  h' !!! _timestamps r = get_recording_timestamps ts iv
  /\ 1000 < Z.of_nat (length (get_recording_timestamps ts iv)).
Proof.
  intros H. pose proof (ArtifactProofs.extractor_frames _ _ _ _ _ _ _ _ H) as Hn.
  unfold get_filtered_recording_extractor, sort_indices in H.
  destruct (Z.gtb_spec (searchsorted ts (snd iv) - searchsorted ts (fst iv)) 1000)
    as [Hgt|Hle]; [|discriminate].
  injection H as <- <-. simpl in *. unfold heap, loc in *.
  rewrite lookup_total_insert_eq in *. unfold get_recording_timestamps.
  split; [reflexivity|]. rewrite <- Hn. lia.
Qed.

Lemma extractor_timestamps_agree_witness :
  exists r h',
    get_filtered_recording_extractor (ramp 1500) (100, 1200)%Q 30000 [0; 1]
                                     (fun _ _ => []) ∅ = (Ok r, h')
    /\ length (h' !!! _timestamps r) = 1100%nat.
Proof.
  destruct (get_filtered_recording_extractor (ramp 1500) (100, 1200)%Q 30000 [0; 1]
                                             (fun _ _ => []) ∅) as [[r|e] h'] eqn:H;
    [|vm_compute in H; discriminate].
  exists r, h'. split; [reflexivity|].
  destruct (extractor_timestamps_agree _ _ _ _ _ _ _ _ H) as [Heq _].
  rewrite Heq. vm_compute. reflexivity.
Defined.

Lemma searchsorted_nth (ts : list Q) (j : nat) :
  StronglySorted Qlt ts -> (j < length ts)%nat ->
  searchsorted ts (nth j ts 0%Q) = Z.of_nat j.
Proof.
  intros Hs. revert j. induction Hs as [|t ts Hs IH Hall]; intros j Hj; simpl in Hj; [lia|].
  destruct j as [|j]; simpl.
  - assert (H : Qlt_bool t t = false) by (apply Qlt_bool_false; apply Qle_refl).
    rewrite H. reflexivity.
  - assert (H : Qlt_bool t (nth j ts 0%Q) = true).
    { apply Qlt_bool_iff. rewrite Forall_forall in Hall. apply Hall.
      apply list_elem_of_In, nth_In. lia. }
    rewrite H, IH by lia. lia.
Qed.

Lemma np_index_nth (a : list Q) (k : Z) :
  0 <= k < Z.of_nat (length a) -> np_index a k = Ok (nth (Z.to_nat k) a 0%Q).
Proof.
  intros Hk. unfold np_index.
  destruct (Z.ltb_spec k 0) as [Hneg|_]; [lia|].
  destruct (Z.leb_spec 0 k) as [_|Hneg]; [|lia].
  destruct (Z.ltb_spec k (Z.of_nat (length a))) as [_|Hge]; [|lia].
  simpl. destruct (a !! Z.to_nat k) as [x|] eqn:Hx.
  - f_equal. symmetry. apply nth_lookup_Some with (d := 0%Q) in Hx. exact Hx.
  - apply lookup_ge_None in Hx. lia.
Qed.

(** Spike frames survive the trip through spike times: on a strictly
    ascending timestamp array, the times stored for a unit (frames
    looked up in the interval's timestamps) are mapped back by
    [get_sorting_extractor] to the frames they came from. *)
Theorem frames_round_trip (ts : list Q) (iv : Q * Q) (spike_train : list Z) :
  StronglySorted Qlt ts ->
  Forall (fun k => 0 <= k < Z.of_nat (length (get_recording_timestamps ts iv))) spike_train ->
  exists times,
    spike_times (get_recording_timestamps ts iv) spike_train = Ok times
    /\ unit_frames ts iv times = spike_train.
Proof.
  intros Hs Hall. unfold spike_times, unit_frames, get_recording_timestamps, slice in *.
  cbv zeta in *.
  pose proof (ArtifactProofs.searchsorted_range ts (fst iv)) as H0.
  pose proof (ArtifactProofs.searchsorted_range ts (snd iv)) as H1.
  set (i0 := searchsorted ts (fst iv)) in *. set (i1 := searchsorted ts (snd iv)) in *.
  induction Hall as [|k train Hk Hall IH]; simpl.
  - exists []. split; reflexivity.
  - destruct IH as (times & Htimes & Hframes).
    rewrite np_index_nth by exact Hk. simpl. rewrite Htimes. simpl.
    eexists. split; [reflexivity|]. simpl. f_equal; [|exact Hframes].
    rewrite length_take, length_drop in Hk.
    rewrite nth_firstn.
    destruct (Nat.ltb_spec (Z.to_nat k) (Z.to_nat i1 - Z.to_nat i0)) as [_|Hge]; [|lia].
    rewrite nth_skipn.
    rewrite searchsorted_nth by (try exact Hs; lia). lia.
Qed.

Lemma ramp_strictly_sorted_from (n k : nat) :
  StronglySorted Qlt (map (fun i => inject_Z (Z.of_nat i)) (seq k n)).
Proof.
  revert k. induction n as [|n IH]; intros k; simpl; constructor.
  - apply IH.
  - apply Forall_forall. intros q Hq.
    apply list_elem_of_fmap in Hq as (i & -> & Hi).
    apply list_elem_of_In, in_seq in Hi.
    rewrite <- Zlt_Qlt. lia.
Qed.

Lemma frames_round_trip_witness :
  StronglySorted Qlt (ramp 10)
  /\ exists times,
      spike_times (get_recording_timestamps (ramp 10) (3, 8)%Q) [0; 2; 4] = Ok times
      /\ times = [3; 5; 7]%Q
      /\ unit_frames (ramp 10) (3, 8)%Q times = [0; 2; 4].
Proof.
  split; [apply ramp_strictly_sorted_from|].
  destruct (frames_round_trip (ramp 10) (3, 8)%Q [0; 2; 4] (ramp_strictly_sorted_from 10 0))
    as (times & Ht & Hf).
  - repeat constructor; vm_compute; congruence.
  - exists times. split; [exact Ht|]. split; [|exact Hf].
    vm_compute in Ht. injection Ht as <-. reflexivity.
Defined.

(** With a repeated timestamp the frame is not recovered: the search
    returns the first of the equal entries. *)
Lemma frames_repeated_timestamp :
  spike_times (get_recording_timestamps [0; 1; 1; 2]%Q (0, 3)%Q) [2] = Ok [1%Q]
  /\ unit_frames [0; 1; 1; 2]%Q (0, 3)%Q [1%Q] = [1].
Proof. split; vm_compute; reflexivity. Qed.

End UnitsProofs.

(** ** Interactive removal of extractor directories *)

Module DeleteExtractorsProofs.
Import ArtifactStore ArtifactStoreProofs.

Lemma delete_list_spec (selected : list Access.CuratedSpikeSorting_row)
      (storage_dir : path) (fs : gset path) (n : string) :
  n ∈ delete_list_of selected (subdirs storage_dir fs)
  <-> storage_dir ++ [n] ∈ fs /\ n ∉ map Access.css_analysis_file_name selected.
Proof. apply orphans_spec. Qed.

(** Below [cwd / name] and below [storage_dir] at once: then one of
    [cwd] and [storage_dir] is below the other. *)
Lemma prefix_related (cwd storage_dir q : path) (name : string) :
  (cwd ++ [name]) `prefix_of` q -> storage_dir `prefix_of` q ->
  cwd `prefix_of` storage_dir \/ storage_dir `prefix_of` cwd.
Proof.
  intros Hc Hs. destruct (prefix_weak_total _ _ _ Hc Hs) as [H|H].
  - left. apply (prefix_app_l cwd storage_dir [name]). exact H.
  - destruct H as [k Hk]. destruct (decide (k = [])) as [->|Hne].
    + left. exists [name]. rewrite app_nil_r in Hk. symmetry. exact Hk.
    + right. destruct (exists_last Hne) as (k' & x & ->).
      rewrite app_assoc in Hk. apply app_inj_tail in Hk as [Hk _].
      exists k'. exact Hk.
Qed.

(** Declining at the prompt deletes nothing.  A confirmed run
    resolves the bare names against the working directory: whatever it
    removes lies below a child of the working directory that is named
    like an unused subdirectory of the storage root, and nothing is ever
    created; so from a working directory that is neither above nor below
    the storage root, nothing under the storage root is touched. *)
Theorem delete_extractors_leaves_storage
        (selected : list Access.CuratedSpikeSorting_row)
        (storage_dir cwd : path) (answer : string) (fs : gset path) :
  let out := delete_extractors selected storage_dir cwd answer fs in
  (answer <> "y" -> answer <> "Y" -> storage_dir ∈ fs -> out = (Ok tt, fs))
  /\ (forall q, q ∈ snd out -> q ∈ fs)
  /\ (forall q, q ∈ fs -> q ∉ snd out ->
        exists name,
          storage_dir ++ [name] ∈ fs
          /\ (name ∉ map Access.css_analysis_file_name selected)
          /\ (cwd ++ [name]) `prefix_of` q)
  /\ (~ cwd `prefix_of` storage_dir -> ~ storage_dir `prefix_of` cwd ->
      forall q, storage_dir `prefix_of` q -> (q ∈ snd out <-> q ∈ fs)).
Proof.
  cbv zeta. unfold delete_extractors.
  assert (Hsub : forall q,
             (q ∈ snd (if bool_decide (storage_dir ∈ fs)
                       then if bool_decide (answer = "y") || bool_decide (answer = "Y")
                            then rmtree_each cwd
                                   (delete_list_of selected (subdirs storage_dir fs)) fs
                            else (Ok tt, fs)
                       else (Raise StopIteration, fs)) -> q ∈ fs)
             /\ (q ∈ fs ->
                 q ∉ snd (if bool_decide (storage_dir ∈ fs)
                          then if bool_decide (answer = "y") || bool_decide (answer = "Y")
                               then rmtree_each cwd
                                      (delete_list_of selected (subdirs storage_dir fs)) fs
                               else (Ok tt, fs)
                          else (Raise StopIteration, fs)) ->
                 exists name,
                   storage_dir ++ [name] ∈ fs
                   /\ (name ∉ map Access.css_analysis_file_name selected)
                   /\ (cwd ++ [name]) `prefix_of` q)).
  { intros q. destruct (bool_decide (storage_dir ∈ fs));
      [|simpl; split; [tauto | intros H Hn; contradiction]].
    destruct (_ || _); [|simpl; split; [tauto | intros H Hn; contradiction]].
    destruct (rmtree_each_removes cwd (delete_list_of selected (subdirs storage_dir fs)) fs q)
      as [Hin Hgone].
    split; [exact Hin|]. intros Hq Hnot.
    destruct (Hgone Hq Hnot) as (n & Hn & Hp). apply delete_list_spec in Hn as [Hn Hdead].
    exists n. auto. }
  split.
  - intros Hy HY Hroot. rewrite bool_decide_eq_true_2 by exact Hroot.
    rewrite !bool_decide_eq_false_2 by assumption. reflexivity.
  - split; [intros q; apply Hsub|]. split; [intros q; apply Hsub|].
    intros Hc Hs q Hq. split; [apply Hsub|].
    intros Hin. destruct (Hsub q) as [_ Hgone].
    match goal with |- q ∈ ?X => destruct (decide (q ∈ X)) as [H|H]; [exact H|] end.
    exfalso. destruct (Hgone Hin H) as (name & _ & _ & Hp).
    destruct (prefix_related cwd storage_dir q name Hp Hq); contradiction.
Qed.

Lemma delete_extractors_leaves_storage_witness :
  delete_extractors [curated "r2"] ["store"] ["store"] "n" sample_store = (Ok tt, sample_store)
  /\ ~ ["home"] `prefix_of` ["store"] /\ ~ ["store"] `prefix_of` ["home"]
  /\ ["store"; "r1"] ∈ snd (delete_extractors [curated "r2"] ["store"] ["home"] "y"
                                              sample_store).
Proof.
  assert (Hin : forall q, bool_decide (q ∈ sample_store) = true -> q ∈ sample_store)
    by (intros q; apply bool_decide_eq_true).
  assert (H1 : ~ ["home"] `prefix_of` ["store"]) by (intros [k Hk]; discriminate Hk).
  assert (H2 : ~ ["store"] `prefix_of` ["home"]) by (intros [k Hk]; discriminate Hk).
  split.
  - apply (proj1 (delete_extractors_leaves_storage [curated "r2"] ["store"] ["store"] "n"
                    sample_store)).
    + discriminate.
    + discriminate.
    + apply Hin. vm_compute. reflexivity.
  - split; [exact H1|]. split; [exact H2|].
    destruct (delete_extractors_leaves_storage [curated "r2"] ["store"] ["home"] "y"
                sample_store) as (_ & _ & _ & Hframe).
    apply (Hframe H1 H2).
    + exists ["r1"]. reflexivity.
    + apply Hin. vm_compute. reflexivity.
Defined.

(** Confirmed from the storage root itself, the call succeeds, keeps
    exactly the subdirectories named after the analysis file of a
    selected row and removes the others with everything below them;
    every directory not inside a removed subdirectory stays. *)
Theorem delete_extractors_confirmed
        (selected : list Access.CuratedSpikeSorting_row)
        (storage_dir : path) (answer : string) (fs : gset path) :
  storage_dir ∈ fs ->
  answer = "y" \/ answer = "Y" ->
  exists fs',
    delete_extractors selected storage_dir storage_dir answer fs = (Ok tt, fs')
    /\ (forall name, storage_dir ++ [name] ∈ fs'
                     <-> storage_dir ++ [name] ∈ fs
                         /\ name ∈ map Access.css_analysis_file_name selected)
    /\ (forall q, q ∈ fs'
                  <-> q ∈ fs
                      /\ forall name, storage_dir ++ [name] ∈ fs ->
                                      (storage_dir ++ [name]) `prefix_of` q ->
                                      name ∈ map Access.css_analysis_file_name selected).
Proof.
  intros Hroot Hans. unfold delete_extractors.
  rewrite bool_decide_eq_true_2 by exact Hroot.
  assert (Hyes : bool_decide (answer = "y") || bool_decide (answer = "Y") = true).
  { destruct Hans as [->| ->]; reflexivity. }
  rewrite Hyes.
  set (kept := map Access.css_analysis_file_name selected).
  destruct (rmtree_each_spec storage_dir
              (delete_list_of selected (subdirs storage_dir fs)) fs)
    as (fs' & Hrun & Hfs').
  { apply NoDup_orphans. }
  { intros n Hn. apply delete_list_spec in Hn. tauto. }
  assert (Hchar : forall q, q ∈ fs'
                            <-> q ∈ fs
                                /\ forall name, storage_dir ++ [name] ∈ fs ->
                                                (storage_dir ++ [name]) `prefix_of` q ->
                                                name ∈ kept).
  { intros q. rewrite Hfs'. split; intros [Hq Hall]; (split; [exact Hq|]).
    - intros name Hname Hp. destruct (decide (name ∈ kept)) as [Hl|Hl]; [exact Hl|].
      exfalso. apply (Hall name); [apply delete_list_spec; tauto | exact Hp].
    - intros n Hn Hp. apply delete_list_spec in Hn as [Hn Hdead].
      apply Hdead, (Hall n Hn Hp). }
  exists fs'. split; [exact Hrun|]. split; [|exact Hchar].
  intros name. rewrite Hchar. split.
  - intros [Hin Hall]. split; [exact Hin|]. apply (Hall name Hin). reflexivity.
  - intros [Hin Hlive]. split; [exact Hin|]. intros m _ Hp.
    apply sibling_prefix in Hp. subst m. exact Hlive.
Qed.

Lemma delete_extractors_confirmed_witness :
  ["store"] ∈ sample_store
  /\ exists fs',
      delete_extractors [curated "r2"] ["store"] ["store"] "y" sample_store = (Ok tt, fs')
      /\ ["store"; "r2"; "sub"] ∈ fs' /\ (["store"; "r1"] ∉ fs')
      /\ ["home"; "notes"] ∈ fs'.
Proof.
  assert (Hin : forall q, bool_decide (q ∈ sample_store) = true -> q ∈ sample_store)
    by (intros q; apply bool_decide_eq_true).
  assert (Hroot : ["store"] ∈ sample_store) by (apply Hin; vm_compute; reflexivity).
  split; [exact Hroot|].
  destruct (delete_extractors_confirmed [curated "r2"] ["store"] "y" sample_store Hroot)
    as (fs' & Hrun & Hkeep & Hchar); [left; reflexivity|].
  exists fs'. split; [exact Hrun|]. split; [|split].
  - apply Hchar. split; [apply Hin; vm_compute; reflexivity|].
    intros name _ [k Hk]. simpl in Hk. injection Hk as <- _. left.
  - intros H. apply (Hkeep "r1") in H as [_ H].
    apply list_elem_of_In in H. simpl in H. destruct H as [H|[]]. discriminate H.
  - apply Hchar. split; [apply Hin; vm_compute; reflexivity|].
    intros name _ [k Hk]. discriminate Hk.
Defined.

(** Bare names bite when the working directory is the parent of the
    storage root and an unused subdirectory is named like the root: the
    confirmed call then removes the storage root itself. *)
Lemma delete_extractors_from_parent_example :
  delete_extractors [curated "r2"] ["data"; "store"] ["data"] "y"
                    {[ ["data"]; ["data"; "store"]; ["data"; "store"; "r2"];
                       ["data"; "store"; "store"] ]}
  = (Ok tt, {[ ["data"] ]}).
Proof. vm_compute. reflexivity. Qed.

(** From an unrelated working directory the first name is not found:
    the call fails and removes nothing. *)
Lemma delete_extractors_elsewhere_example :
  delete_extractors [curated "r2"] ["store"] ["home"] "y" sample_store
  = (Raise file_not_found, sample_store).
Proof. vm_compute. reflexivity. Qed.

End DeleteExtractorsProofs.

(** ** Unit inclusion *)

Module InclusionProofs.
Import Inclusion.

Lemma split_on_nonempty (sep : Ascii.ascii) (s : string) : split_on sep s <> [].
Proof.
  induction s as [|c s IH]; simpl; [discriminate|].
  destruct (bool_decide (c = sep)); [discriminate|].
  destruct (split_on sep s); discriminate.
Qed.

(** Text without comma, then a comma, then more text: the first piece
    is the text. *)
Lemma split_on_prefix (a rest : string) :
  comma_free a ->
  split_on ","%char (a +:+ String ","%char rest) = a :: split_on ","%char rest.
Proof.
  unfold comma_free. induction a as [|c a IH]; intros Hfree; simpl.
  - reflexivity.
  - simpl in Hfree. rewrite bool_decide_eq_false_2 by (intros ->; apply Hfree; left; reflexivity).
    rewrite IH by (intros H; apply Hfree; right; exact H). reflexivity.
Qed.

Lemma split_on_single (a : string) : comma_free a -> split_on ","%char a = [a].
Proof.
  unfold comma_free. induction a as [|c a IH]; intros Hfree; simpl; [reflexivity|].
  simpl in Hfree. rewrite bool_decide_eq_false_2 by (intros ->; apply Hfree; left; reflexivity).
  rewrite IH by (intros H; apply Hfree; right; exact H). reflexivity.
Qed.

(** Splitting undoes the joining of [CuratedSpikeSorting.make], for a
    non-empty list of labels that contain no comma. *)
Theorem split_join (labels : list string) :
  labels <> [] -> Forall comma_free labels ->
  split_on ","%char (Curation.join "," labels) = labels.
Proof.
  intros Hne Hfree. induction Hfree as [|l labels Hl Hfree IH]; [congruence|].
  destruct labels as [|l' labels].
  - simpl. apply split_on_single. exact Hl.
  - change (Curation.join "," (l :: l' :: labels))
      with (l +:+ String ","%char (Curation.join "," (l' :: labels))).
    rewrite split_on_prefix by exact Hl. f_equal. apply IH. discriminate.
Qed.

Lemma split_join_witness :
  ["accept"; "mua"] <> [] /\ Forall comma_free ["accept"; "mua"]
  /\ split_on ","%char (Curation.join "," ["accept"; "mua"]) = ["accept"; "mua"].
Proof.
  assert (Hne : ["accept"; "mua"] <> []) by discriminate.
  assert (Hfree : Forall comma_free ["accept"; "mua"]).
  { repeat constructor; unfold comma_free; simpl; intros H;
      repeat (destruct H as [H|H]; [discriminate|]); exact H. }
  split; [exact Hne|]. split; [exact Hfree|].
  apply (split_join ["accept"; "mua"] Hne Hfree).
Defined.

Lemma excluded_iff (exclude_labels : list string) (u : Unit_row) :
  excluded exclude_labels u = true
  <-> exists l, l ∈ split_on ","%char (label u) /\ l ∈ exclude_labels.
Proof.
  unfold excluded.
  assert (Hgen : forall pieces acc,
             fold_left (fun exclude l =>
                          if bool_decide (l ∈ exclude_labels) then true else exclude)
                       pieces acc = true
             <-> acc = true \/ exists l, l ∈ pieces /\ l ∈ exclude_labels).
  { induction pieces as [|x pieces IH]; intros acc; simpl.
    - split; [auto | intros [H|(l & Hl & _)]; [exact H | inversion Hl]].
    - rewrite IH. destruct (bool_decide_reflect (x ∈ exclude_labels)) as [Hx|Hx].
      + split; [intros _; right; exists x; split; [left | exact Hx] | auto].
      + split.
        * intros [H|(l & Hl & Hin)]; [auto | right; exists l; split; [right|]; assumption].
        * intros [H|(l & Hl & Hin)]; [auto|].
          apply elem_of_cons in Hl as [->|Hl]; [contradiction | right; eauto]. }
  rewrite Hgen. split; [intros [H|H]; [discriminate | exact H] | auto].
Qed.

Lemma included_fold (exclude_labels : list string) (units acc : list Unit_row) :
  fold_left (fun included_units unit =>
               if negb (excluded exclude_labels unit)
               then included_units ++ [unit] else included_units)
            units acc
  = acc ++ List.filter (fun u => negb (excluded exclude_labels u)) units.
Proof.
  revert acc. induction units as [|u units IH]; intros acc; simpl.
  - rewrite app_nil_r. reflexivity.
  - rewrite IH. destruct (negb (excluded exclude_labels u)); [|reflexivity].
    rewrite <- app_assoc. reflexivity.
Qed.

Lemma within_thresholds_iff (k : UnitInclusionParameters_row) (u : Unit_row) :
  within_thresholds k u = true
  <-> (noise_overlap u <= max_noise_overlap k)%Q
      /\ (min_nn_hit_rate k <= nn_hit_rate u)%Q
      /\ (isi_violation u <= max_isi_violation k)%Q
      /\ (min_firing_rate k <= firing_rate u)%Q
      /\ (firing_rate u <= max_firing_rate k)%Q
      /\ min_num_spikes k <= num_spikes u.
Proof.
  unfold within_thresholds.
  rewrite !andb_true_iff, !Qle_bool_iff, Z.leb_le. tauto.
Qed.

(** A unit is returned exactly when it is among the units of the
    selected sortings, lies within the six thresholds, each bound
    included, and none of the comma-separated pieces of its label is on
    the exclusion list; without an exclusion list the thresholds alone
    decide. *)
Theorem included_units_by_label (units : list Unit_row) (k : UnitInclusionParameters_row)
        (u : Unit_row) :
  u ∈ get_included_units units k
  <-> u ∈ units
      /\ (noise_overlap u <= max_noise_overlap k)%Q
      /\ (min_nn_hit_rate k <= nn_hit_rate u)%Q
      /\ (isi_violation u <= max_isi_violation k)%Q
      /\ (min_firing_rate k <= firing_rate u)%Q
      /\ (firing_rate u <= max_firing_rate k)%Q
      /\ min_num_spikes k <= num_spikes u
      /\ forall excl, exclude_label_list k = Some excl ->
                      forall l, l ∈ split_on ","%char (label u) -> l ∉ excl.
Proof.
  assert (Hgen : u ∈ get_included_units units k
                 <-> u ∈ units /\ within_thresholds k u = true
                     /\ forall excl, exclude_label_list k = Some excl ->
                                     forall l, l ∈ split_on ","%char (label u) -> l ∉ excl).
  { unfold get_included_units.
    destruct (exclude_label_list k) as [excl|].
    - rewrite included_fold. simpl app.
      rewrite !list_elem_of_In, !filter_In, negb_true_iff, <- not_true_iff_false.
      rewrite excluded_iff, <- !list_elem_of_In. split.
      + intros [[Hu Ht] Hnot]. split; [exact Hu|]. split; [exact Ht|].
        intros excl' E l Hl Hin. injection E as <-. apply Hnot. exists l. auto.
      + intros (Hu & Ht & Hnot). split; [split; assumption|].
        intros (l & Hl & Hin). apply (Hnot excl eq_refl l Hl Hin).
    - rewrite !list_elem_of_In, filter_In, <- !list_elem_of_In. split.
      + intros [Hu Ht]. split; [exact Hu|]. split; [exact Ht|]. discriminate.
      + intros (Hu & Ht & _). auto. }
  rewrite Hgen, within_thresholds_iff. tauto.
Qed.

Lemma included_units_by_label_witness :
  let on_bound :=
    {| max_noise_overlap := 1 # 100; min_nn_hit_rate := 9 # 10; max_isi_violation := 0;
       min_firing_rate := 5; max_firing_rate := 5; min_num_spikes := 1200;
       exclude_label_list := Some ["noise"] |} in
  sample_unit ∈ get_included_units [sample_unit] on_bound
  /\ get_included_units [sample_unit] (sample_inclusion (Some ["mua"])) = [].
Proof.
  cbv zeta. split; [|reflexivity].
  apply (included_units_by_label [sample_unit]
           {| max_noise_overlap := 1 # 100; min_nn_hit_rate := 9 # 10; max_isi_violation := 0;
              min_firing_rate := 5; max_firing_rate := 5; min_num_spikes := 1200;
              exclude_label_list := Some ["noise"] |}
           sample_unit).
  split; [left|].
  do 6 (split; [vm_compute; discriminate|]).
  intros excl E l Hl Hin. injection E as <-.
  apply list_elem_of_singleton in Hin as ->.
  change (split_on ","%char (label sample_unit)) with ["accept"; "mua"] in Hl.
  apply elem_of_cons in Hl as [Hl|Hl]; [discriminate|].
  apply list_elem_of_singleton in Hl. discriminate.
Defined.

(** A unit stored without any label has the label [''], which splits
    into one empty piece: it is excluded exactly when the empty string is
    on the exclusion list. *)
Lemma unlabelled_unit_excluded (exclude_labels : list string) (u : Unit_row) :
  label u = "" -> (excluded exclude_labels u = true <-> "" ∈ exclude_labels).
Proof.
  intros Hl. rewrite excluded_iff, Hl. simpl. split.
  - intros (l & Hin & Hex). apply list_elem_of_singleton in Hin as ->. exact Hex.
  - intros H. exists "". split; [left | exact H].
Qed.

End InclusionProofs.

(** ** Manual curation in the new pipeline *)

Module ManualCurationProofs.
Import Curation CurationProofs.

Lemma dict_del_present (d : list (Z * list string)) (c : Z) :
  dict_wf d -> c ∈ dict_keys d ->
  exists d', dict_del d c = Ok d'
             /\ dict_keys d' = List.filter (outside [c]) (dict_keys d)
             /\ dict_wf d'.
Proof.
  unfold dict_wf, dict_keys. induction d as [|[k v] d IH]; intros Hwf Hc; [inversion Hc|].
  simpl in *. apply NoDup_cons in Hwf as [Hk Hwf].
  unfold outside at 1.
  destruct (bool_decide_reflect (k = c)) as [->|Hne].
  - exists d. split; [reflexivity|]. split; [|exact Hwf].
    rewrite bool_decide_eq_true_2 by left. simpl. symmetry. apply filter_all.
    intros x Hx. unfold outside. apply negb_true_iff, bool_decide_eq_false_2.
    intros Hxc. apply list_elem_of_singleton in Hxc as ->. contradiction.
  - apply elem_of_cons in Hc as [->|Hc]; [congruence|].
    destruct (IH Hwf Hc) as (d' & Hdel & Hkeys & Hwf').
    rewrite Hdel. simpl. eexists. split; [reflexivity|].
    rewrite bool_decide_eq_false_2
      by (intros Hkc; apply list_elem_of_singleton in Hkc; contradiction).
    simpl. split; [rewrite Hkeys; reflexivity|].
    constructor; [|exact Hwf'].
    rewrite Hkeys. intros Hin. apply elem_of_filter_bool in Hin as [Hin _]. contradiction.
Qed.

(** The loop over all non-primary units, on a state in which
    [unit_ids] are the keys of the label dictionary. *)
Lemma drop_cells (cells : list Z) :
  forall d : list (Z * list string),
    dict_wf d ->
    (NoDup cells /\ (forall c, c ∈ cells -> c ∈ dict_keys d) ->
     exists d',
       for_each (fun st merged_unit =>
                   unit_ids ← list_remove merged_unit (fst st);
                   unit_labels ← dict_del (snd st) merged_unit;
                   Ok (unit_ids, unit_labels)) cells (dict_keys d, d)
       = Ok (dict_keys d', d')
       /\ dict_keys d' = List.filter (outside cells) (dict_keys d))
    /\ (~ (NoDup cells /\ (forall c, c ∈ cells -> c ∈ dict_keys d)) ->
        for_each (fun st merged_unit =>
                    unit_ids ← list_remove merged_unit (fst st);
                    unit_labels ← dict_del (snd st) merged_unit;
                    Ok (unit_ids, unit_labels)) cells (dict_keys d, d)
        = Raise ValueError).
Proof.
  induction cells as [|c cells IH]; intros d Hwf.
  - split.
    + intros _. exists d. split; [reflexivity|]. symmetry. apply filter_all.
      intros x _. unfold outside. apply negb_true_iff, bool_decide_eq_false_2.
      intros H. inversion H.
    + intros H. exfalso. apply H. split; [constructor | intros c Hc; inversion Hc].
  - simpl. destruct (decide (c ∈ dict_keys d)) as [Hc|Hc].
    + rewrite (list_remove_NoDup c (dict_keys d) Hwf Hc). simpl.
      destruct (dict_del_present d c Hwf Hc) as (d1 & Hdel & Hkeys & Hwf1).
      rewrite Hdel. simpl. rewrite <- Hkeys.
      destruct (IH d1 Hwf1) as [IHok IHfail]. split.
      * intros [Hnd Hsub]. apply NoDup_cons in Hnd as [Hfresh Hnd].
        destruct IHok as (d' & Hrun & Hk').
        { split; [exact Hnd|]. intros x Hx. rewrite Hkeys.
          apply elem_of_filter_bool. split; [apply Hsub; right; exact Hx|].
          unfold outside. apply negb_true_iff, bool_decide_eq_false_2.
          intros Hxc. apply list_elem_of_singleton in Hxc as ->. contradiction. }
        exists d'. split; [exact Hrun|]. rewrite Hk', Hkeys, filter_twice.
        apply filter_ext. intros a. apply outside_cons.
      * intros Hbad. apply IHfail. intros [Hnd Hsub]. apply Hbad. split.
        -- constructor; [|exact Hnd]. intros Hin. apply Hsub in Hin.
           rewrite Hkeys in Hin. apply elem_of_filter_bool in Hin as [_ Hout].
           unfold outside in Hout. apply negb_true_iff, bool_decide_eq_false in Hout.
           apply Hout. left.
        -- intros x Hx. apply elem_of_cons in Hx as [->|Hx]; [exact Hc|].
           apply Hsub in Hx. rewrite Hkeys in Hx. apply elem_of_filter_bool in Hx as [Hx _].
           exact Hx.
    + rewrite (list_remove_absent c (dict_keys d) Hc). simpl. split; [|reflexivity].
      intros [_ Hsub]. exfalso. apply Hc. apply Hsub. left.
Qed.

Lemma drop_merged_flat (groups : list (list Z)) (st : list Z * list (Z * list string)) :
  for_each drop_merged groups st
  = for_each (fun st merged_unit =>
                unit_ids ← list_remove merged_unit (fst st);
                unit_labels ← dict_del (snd st) merged_unit;
                Ok (unit_ids, unit_labels))
             (concat (map non_primary groups)) st.
Proof.
  revert st. induction groups as [|m groups IH]; intros st; simpl; [reflexivity|].
  rewrite GroupingTables.for_each_app.
  change (drop_merged st m)
    with (for_each (fun st merged_unit =>
                      unit_ids ← list_remove merged_unit (fst st);
                      unit_labels ← dict_del (snd st) merged_unit;
                      Ok (unit_ids, unit_labels)) (non_primary m) st).
  destruct (for_each _ (non_primary m) st) as [st1|e]; simpl; [apply IH | reflexivity].
Qed.

(** Manual curation in the new pipeline succeeds exactly when the
    non-primary units of all merge groups are distinct and each has an
    entry in the label dictionary.  It then appends one sorting that
    points to its parent and whose labels are those of the remaining
    units; the sortings already stored are untouched.  Otherwise it
    raises [ValueError] and stores nothing. *)
Theorem insert_manual_curation_outcome
        (new_sorting_id : list string -> string) (parent : string)
        (labels : sorting_curation) (prior : quality_metrics) (descr : string)
        (s : curation_store) :
  dict_wf (labelsByUnit labels) ->
  let cells := concat (map non_primary (mergeGroups labels)) in
  let well_formed := NoDup cells /\ (forall c, c ∈ cells -> c ∈ dict_keys (labelsByUnit labels)) in
  let out := insert_manual_curation new_sorting_id parent labels prior descr s in
  (well_formed ->
   exists row,
     out = (Ok (new_sorting_id (map sorting_id (curated_sortings s))),
            {| curated_sortings := curated_sortings s ++ [row];
               engine_metric_calls := engine_metric_calls s |})
     /\ sorting_id row = new_sorting_id (map sorting_id (curated_sortings s))
     /\ parent_sorting_id row = parent
     /\ dict_keys (labelsByUnit (cs_labels row))
        = List.filter (outside cells) (dict_keys (labelsByUnit labels)))
  /\ (~ well_formed -> out = (Raise ValueError, s)).
Proof.
  intros Hwf. cbv zeta. unfold insert_manual_curation.
  destruct (mergeGroups labels) as [|m groups] eqn:Hgroups.
  - simpl. split.
    + intros _. eexists. split; [reflexivity|]. split; [reflexivity|].
      split; [reflexivity|]. simpl. symmetry. apply filter_all.
      intros x _. unfold outside. apply negb_true_iff, bool_decide_eq_false_2.
      intros H. inversion H.
    + intros H. exfalso. apply H. split; [constructor | intros c Hc; inversion Hc].
  - rewrite drop_merged_flat.
    destruct (drop_cells (concat (map non_primary (m :: groups))) (labelsByUnit labels) Hwf)
      as [Hok Hfail].
    split.
    + intros Hgood. destruct (Hok Hgood) as (d' & Hrun & Hkeys).
      rewrite Hrun. simpl. eexists. split; [reflexivity|].
      split; [reflexivity|]. split; [reflexivity|]. simpl. exact Hkeys.
    + intros Hbad. rewrite (Hfail Hbad). reflexivity.
Qed.

Lemma insert_manual_curation_outcome_witness :
  let labels := {| labelsByUnit := [(1, ["accept"]); (2, ["accept"]); (3, ["noise"])];
                   mergeGroups := [[1; 2]; [3]] |} in
  dict_wf (labelsByUnit labels)
  /\ exists row,
      insert_manual_curation sorting_name "S_0" labels parent_metrics "" empty_store
      = (Ok "S_0", {| curated_sortings := [row]; engine_metric_calls := 0 |})
      /\ dict_keys (labelsByUnit (cs_labels row)) = [1; 3].
Proof.
  cbv zeta.
  assert (Hwf : dict_wf [(1, ["accept"]); (2, ["accept"]); (3, ["noise"])])
    by (apply (bool_decide_unpack _); reflexivity).
  split; [exact Hwf|].
  destruct (insert_manual_curation_outcome sorting_name "S_0"
              {| labelsByUnit := [(1, ["accept"]); (2, ["accept"]); (3, ["noise"])];
                 mergeGroups := [[1; 2]; [3]] |} parent_metrics "" empty_store Hwf)
    as [Hok _].
  destruct Hok as (row & Hout & _ & _ & Hkeys).
  - split; [apply (bool_decide_unpack _); reflexivity|].
    intros c Hc. simpl in Hc. apply list_elem_of_singleton in Hc as ->.
    simpl. right. left.
  - exists row. split; [exact Hout | exact Hkeys].
Defined.

End ManualCurationProofs.

(** ** What [CuratedSpikeSorting.make] persists *)

Module MakeProofs.
Import Curation CurationProofs.

Lemma accepted_by_label_accept (unit_labels : list (Z * list string)) (u : Z) :
  dict_wf unit_labels -> u ∈ accepted_by_label unit_labels ->
  exists ls, dict_get unit_labels u = Ok ls /\ "accept" ∈ ls.
Proof.
  unfold dict_wf, accepted_by_label, dict_keys.
  induction unit_labels as [|[k ls] d IH]; simpl; intros Hwf H; [inversion H|].
  apply NoDup_cons in Hwf as [Hk Hwf].
  destruct (bool_decide_reflect ("accept" ∈ ls)) as [Hacc|Hacc]; simpl in H.
  - apply elem_of_cons in H as [->|H].
    + rewrite bool_decide_eq_true_2 by reflexivity. eauto.
    + destruct (bool_decide_reflect (k = u)) as [->|Hne]; [eauto|]. apply IH; assumption.
  - destruct (bool_decide_reflect (k = u)) as [->|Hne]; [|apply IH; assumption].
    exfalso. apply Hk. apply list_elem_of_fmap in H as (kv & -> & Hkv).
    apply list_elem_of_In, filter_In in Hkv as [Hkv _].
    apply list_elem_of_fmap. exists kv. split; [reflexivity | apply list_elem_of_In; exact Hkv].
Qed.

Section Make.
Context {M : Type}.
Variable compute_metrics : string -> string -> list Z -> list (Z * M).
Variable create : string -> list string -> string.

(** [make] is all or nothing on the persisted tables: a run that
    raises leaves the analysis files and both tables as they were, and a
    run that returns either changes nothing or adds exactly one analysis
    file and one master row. *)
Theorem make_all_or_nothing (k : make_key) (w : world M) :
  let out := make compute_metrics create k w in
  (fst out <> Ok tt ->
   AnalysisNwbfile (snd out) = AnalysisNwbfile w
   /\ CuratedSpikeSorting (snd out) = CuratedSpikeSorting w
   /\ Unit (snd out) = Unit w)
  /\ (fst out = Ok tt ->
      snd out = w
      \/ exists name content,
          AnalysisNwbfile (snd out) = AnalysisNwbfile w ++ [(name, content)]
          /\ CuratedSpikeSorting (snd out)
             = CuratedSpikeSorting w
               ++ [{| csr_key := key k; csr_analysis_file_name := name |}]
          /\ Unit (snd out) = Unit w ++ map (fun u => (key k, u)) (nu_units content)).
Proof.
  cbv zeta. unfold make.
  destruct (sorting_ids (ws k)) as [|sid [|sid' rest]];
    [simpl; split; [congruence | auto] | | simpl; split; [congruence | auto]].
  destruct (remove_non_primary _ _) as [accepted|e];
    [|simpl; split; [auto | discriminate]].
  destruct (collect _ accepted) as [labels_concat|e];
    [|simpl; split; [auto | discriminate]].
  destruct (_ || _); [simpl; split; [congruence | auto]|].
  destruct (recording_ids (ws k)) as [|rec recs]; [simpl; split; [auto | discriminate]|].
  destruct (loc_rows _ accepted) as [metrics|e]; [|simpl; split; [auto | discriminate]].
  destruct (orig_units_rows k <? 2)%nat; [simpl; split; [auto | discriminate]|].
  simpl. split; [congruence|]. intros _. right. eexists _, _.
  split; [reflexivity|]. split; reflexivity.
Qed.

(** Every unit that [make] adds to the [Unit] table is a unit of the
    curated sorting that carries the label ['accept'] in the workspace. *)
Theorem make_stores_accepted_units (k : make_key) (w : world M) (sid : string) :
  sorting_ids (ws k) = [sid] ->
  dict_wf (labelsByUnit (get_sorting_curation (ws k) sid)) ->
  forall row,
    row ∈ Unit (snd (make compute_metrics create k w)) ->
    row ∈ Unit w
    \/ (fst row = key k
        /\ snd row ∈ get_curated_unit_ids (ws k) sid
        /\ exists ls, dict_get (labelsByUnit (get_sorting_curation (ws k) sid)) (snd row) = Ok ls
                      /\ "accept" ∈ ls).
Proof.
  intros Hsid Hwf row. unfold make. rewrite Hsid.
  destruct (remove_non_primary _ _) as [accepted|e] eqn:Hacc; [|simpl; auto].
  destruct (collect _ accepted) as [labels_concat|e]; [|simpl; auto].
  destruct (_ || _); [simpl; auto|].
  destruct (recording_ids (ws k)) as [|rec recs]; [simpl; auto|].
  destruct (loc_rows _ accepted) as [metrics|e]; [|simpl; auto].
  destruct (orig_units_rows k <? 2)%nat; [simpl; auto|].
  simpl. intros Hrow. apply elem_of_app in Hrow as [Hrow|Hrow]; [left; exact Hrow|].
  right. apply list_elem_of_fmap in Hrow as (u & -> & Hu). simpl.
  apply list_elem_of_In, filter_In in Hu as [Hu Hin].
  split; [reflexivity|]. split; [apply list_elem_of_In; exact Hu|].
  apply bool_decide_eq_true in Hin.
  apply (remove_non_primary_subset _ _ _ Hacc) in Hin.
  apply accepted_by_label_accept; assumption.
Qed.
End Make.

Lemma make_all_or_nothing_witness :
  let short := {| key := "run-1"; nwb_file_name := "s.nwb";
                  cluster_metrics_list_name := "default"; ws := two_accepted;
                  orig_units_rows := 1 |} in
  (fst (make flat_metrics analysis_name short empty_world) = Raise IndexError
   /\ Unit (snd (make flat_metrics analysis_name short empty_world)) = [])
  /\ (fst (make flat_metrics analysis_name (key_for two_accepted) empty_world) = Ok tt
      /\ Unit (snd (make flat_metrics analysis_name (key_for two_accepted) empty_world))
         = [("run-1", 1); ("run-1", 2)]).
Proof.
  cbv zeta. split.
  - split; [reflexivity|].
    pose proof (make_all_or_nothing flat_metrics analysis_name
                  {| key := "run-1"; nwb_file_name := "s.nwb";
                     cluster_metrics_list_name := "default"; ws := two_accepted;
                     orig_units_rows := 1 |} empty_world) as H.
    cbv zeta in H. destruct H as [H _].
    destruct H as (_ & _ & H); [vm_compute; discriminate|].
    rewrite H. reflexivity.
  - split; [reflexivity|].
    pose proof (make_all_or_nothing flat_metrics analysis_name (key_for two_accepted)
                  empty_world) as H.
    cbv zeta in H. destruct H as [_ H].
    destruct H as [H|(name & content & _ & _ & H)]; [reflexivity | |].
    + vm_compute in H. discriminate H.
    + reflexivity.
Defined.

Lemma make_stores_accepted_units_witness :
  sorting_ids (ws (key_for two_accepted)) = ["S1"]
  /\ dict_wf (labelsByUnit (get_sorting_curation (ws (key_for two_accepted)) "S1"))
  /\ Unit (snd (make flat_metrics analysis_name (key_for two_accepted) empty_world))
     = [("run-1", 1); ("run-1", 2)]
  /\ forall row,
      row ∈ Unit (snd (make flat_metrics analysis_name (key_for two_accepted) empty_world)) ->
      row ∈ Unit empty_world
      \/ (fst row = "run-1"
          /\ snd row ∈ [1; 2; 3]
          /\ exists ls,
              dict_get [(1, ["accept"]); (2, ["accept"])] (snd row) = Ok ls /\ "accept" ∈ ls).
Proof.
  assert (Hwf : dict_wf (labelsByUnit (get_sorting_curation (ws (key_for two_accepted)) "S1")))
    by (apply (bool_decide_unpack _); reflexivity).
  split; [reflexivity|]. split; [exact Hwf|]. split; [reflexivity|].
  apply (make_stores_accepted_units flat_metrics analysis_name (key_for two_accepted)
                                    empty_world "S1" eq_refl Hwf).
Defined.

End MakeProofs.

(** ** Metric lists *)

Module MetricsProofs.
Import Metrics.

Lemma dict_set_keys (d : list (string * bool)) (k : string) (v : bool) (x : string) :
  x ∈ map fst (dict_set d k v) <-> x = k \/ x ∈ map fst d.
Proof.
  induction d as [|[k' v'] d IH]; simpl.
  - rewrite list_elem_of_singleton. split; [auto | intros [H|H]; [exact H | inversion H]].
  - destruct (bool_decide_reflect (k' = k)) as [->|Hne]; simpl.
    + rewrite !elem_of_cons. tauto.
    + rewrite !elem_of_cons, IH. tauto.
Qed.

Lemma dict_set_NoDup (d : list (string * bool)) (k : string) (v : bool) :
  NoDup (map fst d) -> NoDup (map fst (dict_set d k v)).
Proof.
  induction d as [|[k' v'] d IH]; simpl; intros Hnd.
  - constructor; [intros H; inversion H | constructor].
  - apply NoDup_cons in Hnd as [Hk Hnd].
    destruct (bool_decide_reflect (k' = k)) as [->|Hne]; simpl.
    + constructor; assumption.
    + constructor; [|apply IH; exact Hnd].
      rewrite dict_set_keys. intros [H|H]; [congruence | contradiction].
Qed.

Lemma dict_set_entries (d : list (string * bool)) (k : string) (v : bool)
      (x : string) (b : bool) :
  NoDup (map fst d) ->
  ((x, b) ∈ dict_set d k v <-> (x = k /\ b = v) \/ (x <> k /\ (x, b) ∈ d)).
Proof.
  induction d as [|[k' v'] d IH]; simpl; intros Hnd.
  - rewrite list_elem_of_singleton. split.
    + intros H. injection H as -> ->. auto.
    + intros [[-> ->]|[_ H]]; [reflexivity | inversion H].
  - apply NoDup_cons in Hnd as [Hk Hnd].
    destruct (bool_decide_reflect (k' = k)) as [->|Hne].
    + rewrite !elem_of_cons. split.
      * intros [H|H]; [injection H as -> ->; auto|].
        right. split; [|right; exact H]. intros ->. apply Hk.
        apply list_elem_of_fmap. exists (k, b). auto.
      * intros [[-> ->]|[Hx [H|H]]]; [left; reflexivity | | right; exact H].
        injection H as -> _. congruence.
    + rewrite !elem_of_cons, (IH Hnd). split.
      * intros [H|[H|H]]; [injection H as -> ->; right; split; [congruence | left; reflexivity]
                          | auto | right; split; [tauto | right; tauto]].
      * intros [H|[Hx [H|H]]]; [right; left; exact H | left; exact H | right; right; auto].
Qed.

Lemma get_metric_dict_spec (metrics_list : list string) :
  NoDup (map fst (get_metric_dict metrics_list))
  /\ (forall x, x ∈ map fst (get_metric_dict metrics_list) <-> x ∈ metrics_list)
  /\ (forall x b, (x, b) ∈ get_metric_dict metrics_list -> b = false).
Proof.
  unfold get_metric_dict.
  assert (Hgen : forall l d,
             NoDup (map fst d) -> (forall x b, (x, b) ∈ d -> b = false) ->
             let d' := fold_left (fun d metric => dict_set d metric false) l d in
             NoDup (map fst d')
             /\ (forall x, x ∈ map fst d' <-> x ∈ l \/ x ∈ map fst d)
             /\ (forall x b, (x, b) ∈ d' -> b = false)).
  { induction l as [|m l IH]; intros d Hnd Hfalse; cbv zeta; simpl.
    - split; [exact Hnd|]. split; [|exact Hfalse].
      intros x. split; [auto | intros [H|H]; [inversion H | exact H]].
    - destruct (IH (dict_set d m false)) as (H1 & H2 & H3).
      + apply dict_set_NoDup. exact Hnd.
      + intros x b Hx. apply (dict_set_entries d m false x b Hnd) in Hx as [[_ ->]|[_ Hx]];
          [reflexivity | apply (Hfalse x b Hx)].
      + split; [exact H1|]. split; [|exact H3].
        intros x. rewrite H2, dict_set_keys, elem_of_cons. tauto. }
  destruct (Hgen metrics_list []) as (H1 & H2 & H3).
  - constructor.
  - intros x b H. inversion H.
  - split; [exact H1|]. split; [|exact H3].
    intros x. rewrite H2. split; [intros [H|H]; [exact H | inversion H] | auto].
Qed.

(** Whatever catalog the engine reports, the default entry selects
    exactly the three metrics firing_rate, nn_hit_rate and
    noise_overlap. *)
Theorem default_entry_selects (metrics_list : list string) (x : string) :
  x ∈ selected_metrics_list (default_metric_dict metrics_list)
  <-> x ∈ ["firing_rate"; "nn_hit_rate"; "noise_overlap"].
Proof.
  destruct (get_metric_dict_spec metrics_list) as (Hnd & _ & Hfalse).
  unfold selected_metrics_list, default_metric_dict.
  set (d0 := get_metric_dict metrics_list) in *.
  assert (Hsel : forall d, x ∈ map fst (List.filter (fun kv => snd kv) d) <-> (x, true) ∈ d).
  { intros d. rewrite list_elem_of_fmap. split.
    - intros ([k b] & -> & H). apply list_elem_of_In, filter_In in H as [H Hb].
      simpl in Hb. subst b. apply list_elem_of_In. exact H.
    - intros H. exists (x, true). split; [reflexivity|].
      apply list_elem_of_In, filter_In. split; [apply list_elem_of_In; exact H | reflexivity]. }
  rewrite Hsel.
  rewrite dict_set_entries by (do 2 apply dict_set_NoDup; exact Hnd).
  rewrite dict_set_entries by (apply dict_set_NoDup; exact Hnd).
  rewrite dict_set_entries by exact Hnd.
  rewrite !elem_of_cons. split.
  - intros [[-> _]|[_ [[-> _]|[_ [[-> _]|[_ H]]]]]]; auto.
    apply Hfalse in H. discriminate.
  - intros [->|[->|[->|H]]]; [| | |inversion H].
    + right. split; [discriminate|]. right. split; [discriminate|]. left. auto.
    + right. split; [discriminate|]. left. auto.
    + left. auto.
Qed.

Lemma validate_metrics_list_iff (metrics_list : list string) (d : list (string * bool)) :
  validate_metrics_list metrics_list d = true
  <-> forall x, x ∈ map fst d -> x ∈ metrics_list.
Proof.
  unfold validate_metrics_list.
  destruct (get_metric_dict_spec metrics_list) as (_ & Hkeys & _).
  assert (Hgen : forall l acc,
             fold_left (fun valid metric =>
                          if negb (bool_decide
                                     (metric ∈ map fst (get_metric_dict metrics_list)))
                          then false else valid) l acc = true
             <-> acc = true /\ forall x, x ∈ l -> x ∈ metrics_list).
  { induction l as [|m l IH]; intros acc; simpl.
    - split; [intros H; split; [exact H | intros x Hx; inversion Hx] | tauto].
    - rewrite IH.
      destruct (bool_decide_reflect (m ∈ map fst (get_metric_dict metrics_list)))
        as [Hm|Hm]; simpl.
      + apply Hkeys in Hm. split.
        * intros [Ha Hl]. split; [exact Ha|]. intros x Hx.
          apply elem_of_cons in Hx as [->|Hx]; auto.
        * intros [Ha Hl]. split; [exact Ha|]. intros x Hx. apply Hl. right. exact Hx.
      + split; [intros [H _]; discriminate|].
        intros [_ Hl]. exfalso. apply Hm, Hkeys, Hl. left. }
  rewrite Hgen. tauto.
Qed.

(** The default entry passes [validate_metrics_list] exactly when the
    engine's catalog contains the three metrics it switches on: the entry
    is written without this check. *)
Theorem default_entry_valid_iff (metrics_list : list string) :
  validate_metrics_list metrics_list (default_metric_dict metrics_list) = true
  <-> "firing_rate" ∈ metrics_list /\ "nn_hit_rate" ∈ metrics_list
      /\ "noise_overlap" ∈ metrics_list.
Proof.
  rewrite validate_metrics_list_iff.
  destruct (get_metric_dict_spec metrics_list) as (_ & Hkeys & _).
  unfold default_metric_dict. split.
  - intros H. repeat split; apply H; rewrite !dict_set_keys; auto.
  - intros (H1 & H2 & H3) x. rewrite !dict_set_keys, Hkeys.
    intros [->|[->|[->|Hx]]]; assumption.
Qed.

End MetricsProofs.

(** ** Sorter catalogue *)

Module SortersProofs.
Import Sorters.

Section Catalogue.
Context {P : Type}.
Variable get_default_params : string -> P.

Lemma known_sorter (sorter : string) (rows : list string) :
  negb (length (List.filter (fun n => bool_decide (n = sorter)) rows) =? 0)%nat = true
  <-> sorter ∈ rows.
Proof.
  rewrite negb_true_iff, Nat.eqb_neq. split.
  - intros Hlen. destruct (List.filter _ rows) as [|n l] eqn:Hf; [simpl in Hlen; lia|].
    assert (Hin : In n (List.filter (fun n => bool_decide (n = sorter)) rows))
      by (rewrite Hf; left; reflexivity).
    apply filter_In in Hin as [Hin Hn]. apply bool_decide_eq_true in Hn. subst n.
    apply list_elem_of_In. exact Hin.
  - intros Hin Hlen. apply length_zero_iff_nil in Hlen.
    assert (Hin' : In sorter (List.filter (fun n => bool_decide (n = sorter)) rows)).
    { apply filter_In. split; [apply list_elem_of_In; exact Hin|].
      apply bool_decide_eq_true. reflexivity. }
    rewrite Hlen in Hin'. exact Hin'.
Qed.

Lemma same_key_iff (r r' : SpikeSorterParameters_row P) :
  same_key r r' = true <-> key_of r' = key_of r.
Proof.
  unfold same_key, key_of. rewrite andb_true_iff, !bool_decide_eq_true. split.
  - intros [-> ->]. reflexivity.
  - intros H. injection H as -> ->. auto.
Qed.

Lemma has_key_iff (r : SpikeSorterParameters_row P) (rows : list (SpikeSorterParameters_row P)) :
  existsb (same_key r) rows = true <-> key_of r ∈ map key_of rows.
Proof.
  rewrite existsb_exists, list_elem_of_fmap. split.
  - intros (r' & Hin & Hk). exists r'. apply same_key_iff in Hk.
    split; [congruence | apply list_elem_of_In; exact Hin].
  - intros (r' & Hk & Hin). exists r'. split; [apply list_elem_of_In; exact Hin|].
    apply same_key_iff. congruence.
Qed.

Lemma fill_cons (s : string) (sorters : list string) (d : db P) :
  SpikeSorterParameters_insert_from_spikeinterface get_default_params (s :: sorters) d
  = SpikeSorterParameters_insert_from_spikeinterface get_default_params sorters
      (SpikeSorterParameters_insert_from_spikeinterface get_default_params [s] d).
Proof. reflexivity. Qed.

(** One pass of the loop body. *)
Lemma fill_one (s : string) (d : db P) :
  let d' := SpikeSorterParameters_insert_from_spikeinterface get_default_params [s] d in
  SpikeSorter d' = SpikeSorter d
  /\ ((s ∈ SpikeSorter d
       /\ ((s, "default") ∉ map key_of (SpikeSorterParameters d))
       /\ SpikeSorterParameters d'
          = (SpikeSorterParameters d ++ [default_row get_default_params s]))
      \/ ((s ∈ SpikeSorter d -> (s, "default") ∈ map key_of (SpikeSorterParameters d))
          /\ d' = d)).
Proof.
  cbv zeta. unfold SpikeSorterParameters_insert_from_spikeinterface. cbn [fold_left].
  destruct (negb _) eqn:Hk.
  - apply known_sorter in Hk. cbn [SpikeSorter SpikeSorterParameters].
    split; [reflexivity|]. unfold insert1_parameters.
    destruct (existsb _ _) eqn:He.
    + right. split; [|destruct d; reflexivity].
      intros _. apply has_key_iff in He. exact He.
    + left. split; [exact Hk|]. split; [|reflexivity].
      intros Hin. apply (has_key_iff (default_row get_default_params s)) in Hin. congruence.
  - split; [reflexivity|]. right. split; [|reflexivity].
    intros Hin. apply known_sorter in Hin. congruence.
Qed.

Lemma fill_sorters_same (sorters : list string) :
  forall d : db P,
    SpikeSorter (SpikeSorterParameters_insert_from_spikeinterface get_default_params sorters d)
    = SpikeSorter d.
Proof.
  induction sorters as [|s sorters IH]; intros d; [reflexivity|].
  rewrite fill_cons, IH. apply fill_one.
Qed.

Lemma fill_keeps_keys (sorters : list string) (k : string * string) :
  forall d : db P,
    k ∈ map key_of (SpikeSorterParameters d) ->
    k ∈ map key_of
          (SpikeSorterParameters
             (SpikeSorterParameters_insert_from_spikeinterface get_default_params sorters d)).
Proof.
  induction sorters as [|s sorters IH]; intros d Hk; [exact Hk|].
  rewrite fill_cons. apply IH.
  destruct (fill_one s d) as [_ [(_ & _ & Hd')|(_ & Hd')]]; rewrite Hd'; [|exact Hk].
  rewrite map_app. apply elem_of_app. left. exact Hk.
Qed.

Lemma fill_covers (sorters : list string) (s : string) :
  forall d : db P,
    s ∈ sorters -> s ∈ SpikeSorter d ->
    (s, "default")
      ∈ map key_of
          (SpikeSorterParameters
             (SpikeSorterParameters_insert_from_spikeinterface get_default_params sorters d)).
Proof.
  induction sorters as [|s0 sorters IH]; intros d Hs Hin; [inversion Hs|].
  rewrite fill_cons. destruct (fill_one s0 d) as [Hsame Hstep].
  apply elem_of_cons in Hs as [->|Hs].
  - apply fill_keeps_keys.
    destruct Hstep as [(_ & _ & Hd')|(Hold & Hd')]; rewrite Hd'.
    + rewrite map_app. apply elem_of_app. right. left.
    + apply Hold. exact Hin.
  - apply IH; [exact Hs | rewrite Hsame; exact Hin].
Qed.

Lemma fill_nothing_to_do (sorters : list string) (d : db P) :
  (forall s, s ∈ sorters -> s ∈ SpikeSorter d ->
             (s, "default") ∈ map key_of (SpikeSorterParameters d)) ->
  SpikeSorterParameters_insert_from_spikeinterface get_default_params sorters d = d.
Proof.
  induction sorters as [|s sorters IH]; intros Hcov; [reflexivity|].
  rewrite fill_cons.
  destruct (fill_one s d) as [_ [(Hin & Hnew & _)|(_ & Hd')]].
  - exfalso. apply Hnew, Hcov; [left | exact Hin].
  - rewrite Hd'. apply IH. intros s0 Hs0. apply Hcov. right. exact Hs0.
Qed.

Lemma register_spec (sorters : list string) :
  forall d : db P,
    SpikeSorterParameters (SpikeSorter_insert_from_spikeinterface sorters d)
    = SpikeSorterParameters d
    /\ forall s, s ∈ SpikeSorter (SpikeSorter_insert_from_spikeinterface sorters d)
                 <-> s ∈ SpikeSorter d \/ s ∈ sorters.
Proof.
  induction sorters as [|s sorters IH]; intros d.
  - simpl. split; [reflexivity|]. intros s. split; [auto | intros [H|H]; [exact H | inversion H]].
  - unfold SpikeSorter_insert_from_spikeinterface. cbn [fold_left].
    match goal with
    | |- context [fold_left ?f sorters ?d1] =>
        change (fold_left f sorters d1)
          with (SpikeSorter_insert_from_spikeinterface sorters d1);
        destruct (IH d1) as [Hp Hs]
    end.
    split; [rewrite Hp; reflexivity|].
    intros s0. rewrite Hs. cbn [SpikeSorter]. unfold insert1_sorter.
    destruct (bool_decide_reflect (s ∈ SpikeSorter d)) as [Hin|Hout].
    + rewrite elem_of_cons. split; [tauto|]. intros [H|[->|H]]; auto.
    + rewrite elem_of_app, list_elem_of_singleton, elem_of_cons. tauto.
Qed.

(** Existing parameter rows are never refreshed: the call keeps the
    stored rows as they are, in place, and only appends rows named
    default, one per available sorter that is registered in
    [SpikeSorter] and had no default row yet, with the engine's default
    parameters and the fixed filter parameters. *)
Theorem sorter_defaults_only_appended (sorters : list string) (d : db P) :
  exists added,
    SpikeSorterParameters
      (SpikeSorterParameters_insert_from_spikeinterface get_default_params sorters d)
    = SpikeSorterParameters d ++ added
    /\ NoDup (map key_of added)
    /\ forall r, r ∈ added ->
         r = default_row get_default_params (sorter_name r)
         /\ sorter_name r ∈ sorters
         /\ sorter_name r ∈ SpikeSorter d
         /\ key_of r ∉ map key_of (SpikeSorterParameters d).
Proof.
  revert d. induction sorters as [|s sorters IH]; intros d.
  - exists []. simpl. rewrite app_nil_r. split; [reflexivity|]. split; [constructor|].
    intros r Hr. inversion Hr.
  - rewrite fill_cons. destruct (fill_one s d) as [Hsame Hstep].
    destruct (IH (SpikeSorterParameters_insert_from_spikeinterface get_default_params [s] d))
      as (added & Hadd & Hnd & Hrows).
    rewrite Hsame in Hrows.
    destruct Hstep as [(Hin & Hnew & Hd')|(_ & Hd')].
    + exists (default_row get_default_params s :: added).
      rewrite Hadd, Hd', <- app_assoc. split; [reflexivity|]. split.
      * cbn [map]. constructor; [|exact Hnd].
        intros Hdup. apply list_elem_of_fmap in Hdup as (r & Hk & Hr).
        destruct (Hrows r Hr) as (_ & _ & _ & Hfresh). apply Hfresh.
        rewrite Hd', map_app. apply elem_of_app. right. rewrite <- Hk. left.
      * intros r Hr. apply elem_of_cons in Hr as [->|Hr].
        -- split; [reflexivity|]. split; [left|]. split; [exact Hin | exact Hnew].
        -- destruct (Hrows r Hr) as (H1 & H2 & H3 & H4).
           split; [exact H1|]. split; [right; exact H2|]. split; [exact H3|].
           intros Hk. apply H4. rewrite Hd', map_app. apply elem_of_app. left. exact Hk.
    + rewrite Hd' in Hadd, Hrows. exists added. split; [rewrite Hd'; exact Hadd|].
      split; [exact Hnd|].
      intros r Hr. destruct (Hrows r Hr) as (H1 & H2 & H3 & H4).
      split; [exact H1|]. split; [right; exact H2|]. split; [exact H3 | exact H4].
Qed.

(** Registering the available sorters and then filling in the
    parameters leaves every available sorter with a parameter set named
    default. *)
Theorem sorter_defaults_complete (sorters : list string) (d : db P) (s : string) :
  s ∈ sorters ->
  (s, "default")
    ∈ map key_of (SpikeSorterParameters
                    (SpikeSorterParameters_insert_from_spikeinterface get_default_params
                       sorters (SpikeSorter_insert_from_spikeinterface sorters d))).
Proof.
  intros Hs. apply fill_covers; [exact Hs|].
  apply register_spec. right. exact Hs.
Qed.

(** Without the registration step a sorter that is not in
    [SpikeSorter] gets no parameter row: rows that respect the reference
    to [SpikeSorter] keep doing so. *)
Theorem sorter_defaults_respect_reference (sorters : list string) (d : db P) :
  Forall (fun r => sorter_name r ∈ SpikeSorter d) (SpikeSorterParameters d) ->
  Forall (fun r => sorter_name r
                   ∈ SpikeSorter (SpikeSorterParameters_insert_from_spikeinterface
                                    get_default_params sorters d))
         (SpikeSorterParameters
            (SpikeSorterParameters_insert_from_spikeinterface get_default_params sorters d)).
Proof.
  revert d. induction sorters as [|s sorters IH]; intros d Hold; [exact Hold|].
  rewrite fill_cons. apply IH.
  destruct (fill_one s d) as [Hsame [(Hin & _ & Hd')|(_ & Hd')]].
  - rewrite Hsame, Hd'. apply Forall_app. split; [exact Hold|].
    constructor; [exact Hin | constructor].
  - rewrite Hd'. exact Hold.
Qed.

(** Filling in the default parameters twice is the same as once. *)
Theorem sorter_defaults_idempotent (sorters : list string) (d : db P) :
  SpikeSorterParameters_insert_from_spikeinterface get_default_params sorters
    (SpikeSorterParameters_insert_from_spikeinterface get_default_params sorters d)
  = SpikeSorterParameters_insert_from_spikeinterface get_default_params sorters d.
Proof.
  apply fill_nothing_to_do. intros s Hs Hin.
  apply fill_covers; [exact Hs|].
  rewrite <- (fill_sorters_same sorters d). exact Hin.
Qed.
End Catalogue.

Lemma sorter_defaults_complete_witness :
  let d : db nat := {| SpikeSorter := ["klusta"];
                       SpikeSorterParameters :=
                         [ {| sorter_name := "klusta"; parameter_set_name := "default";
                              parameter_dict := 7%nat; filter_parameter_dict := [] |} ] |} in
  "mountainsort4" ∈ ["klusta"; "mountainsort4"]
  /\ SpikeSorterParameters
       (SpikeSorterParameters_insert_from_spikeinterface String.length
          ["klusta"; "mountainsort4"]
          (SpikeSorter_insert_from_spikeinterface ["klusta"; "mountainsort4"] d))
     = [ {| sorter_name := "klusta"; parameter_set_name := "default";
            parameter_dict := 7%nat; filter_parameter_dict := [] |};
         default_row String.length "mountainsort4" ]
  /\ ("mountainsort4", "default")
       ∈ map key_of
           (SpikeSorterParameters
              (SpikeSorterParameters_insert_from_spikeinterface String.length
                 ["klusta"; "mountainsort4"]
                 (SpikeSorter_insert_from_spikeinterface ["klusta"; "mountainsort4"] d))).
Proof.
  cbv zeta.
  assert (Hin : "mountainsort4" ∈ ["klusta"; "mountainsort4"]) by (right; left).
  split; [exact Hin|]. split; [reflexivity|].
  apply (sorter_defaults_complete String.length ["klusta"; "mountainsort4"] _ "mountainsort4" Hin).
Defined.

Lemma sorter_defaults_respect_reference_witness :
  let d : db nat := {| SpikeSorter := ["klusta"]; SpikeSorterParameters := [] |} in
  Forall (fun r => sorter_name r ∈ SpikeSorter d) (SpikeSorterParameters d)
  /\ SpikeSorterParameters
       (SpikeSorterParameters_insert_from_spikeinterface String.length
          ["klusta"; "mountainsort4"] d)
     = [default_row String.length "klusta"]
  /\ Forall (fun r => sorter_name r
                      ∈ SpikeSorter (SpikeSorterParameters_insert_from_spikeinterface
                                       String.length ["klusta"; "mountainsort4"] d))
            (SpikeSorterParameters
               (SpikeSorterParameters_insert_from_spikeinterface String.length
                  ["klusta"; "mountainsort4"] d)).
Proof.
  cbv zeta. split; [constructor|]. split; [reflexivity|].
  apply (sorter_defaults_respect_reference String.length ["klusta"; "mountainsort4"]
           {| SpikeSorter := ["klusta"]; SpikeSorterParameters := [] |}).
  constructor.
Defined.

End SortersProofs.
